(** * react-textfit: the fit engine, the task sequencer and the conditional
      repeater

    Shallow embedding of [src/Textfit.tsx] (the [process] method of the
    component), [src/utils/series.ts] and [src/utils/whilst.ts].

    The JavaScript is callback driven.  A function that takes a callback is
    embedded as a Rocq function that takes the callback as an argument
    (continuation-passing style), over an explicit state that holds
    everything the closures of the source share and mutate.  A call that
    hands a callback to the host ([setState(update, callback)],
    [setTimeout(end, 0)]) stores a first-order description of that callback
    in the host's queue; the host later fires it. *)

From stdpp Require Import gmap strings list.

Local Open Scope Z_scope.

(** ** JavaScript values

    The fragment of JavaScript values that occurs on the error and result
    channels and in the numeric variables of [process].  Numbers are the
    integers and [NaN]: sizes are pixel counts, and fractions and infinities
    are outside the model.  The numbers of the source are doubles, which are
    the integers up to [2 ^ 53]; the arithmetic of the model does not round,
    so it is that of the source as long as sizes stay below [2 ^ 52], and the
    theorems that depend on the value of a sum or of a candidate say so. *)

Inductive value : Type :=
| VUndefined
| VNull
| VBool (b : bool)
| VNaN
| VNum (z : Z).

Global Instance value_eq_dec : EqDecision value.
Proof. solve_decision. Defined.

(** [if (v)]: the truthiness test. *)
Definition truthy (v : value) : bool :=
  match v with
  | VBool b => b
  | VNum z => negb (z =? 0)
  | VUndefined | VNull | VNaN => false
  end.

(** ToNumber; [None] stands for NaN. *)
Definition toNumber (v : value) : option Z :=
  match v with
  | VUndefined | VNaN => None
  | VNull => Some 0
  | VBool b => Some (if b then 1 else 0)
  | VNum z => Some z
  end.

Definition ofNumber (o : option Z) : value :=
  match o with Some z => VNum z | None => VNaN end.

Definition isNaN (v : value) : bool :=
  match toNumber v with None => true | Some _ => false end.

(** [a <= b] and [a < b]: false as soon as one side is NaN. *)
Definition js_le (a b : value) : bool :=
  match toNumber a, toNumber b with
  | Some x, Some y => x <=? y
  | _, _ => false
  end.

Definition js_lt (a b : value) : bool :=
  match toNumber a, toNumber b with
  | Some x, Some y => x <? y
  | _, _ => false
  end.

Definition arith (f : Z -> Z -> Z) (a b : value) : value :=
  ofNumber (x ← toNumber a; y ← toNumber b; Some (f x y)).

Definition js_add : value -> value -> value := arith Z.add.
Definition js_sub : value -> value -> value := arith Z.sub.
(** [Math.min] and [Math.max] of two arguments. *)
Definition Math_min : value -> value -> value := arith Z.min.
Definition Math_max : value -> value -> value := arith Z.max.

(** [a || b] *)
Definition js_or (a b : value) : value := if truthy a then a else b.

(** [parseInt(((low + high) / 2).toString(), 10)]: the decimal string of the
    half sum is cut at the point, which truncates towards zero.  This is the
    value of the expression when [low] and [high] are below [2 ^ 52] in
    size: the sum is then below [2 ^ 53] and exact, and so is its half, which
    is printed in positional notation.  Beyond that the sum of the source is
    rounded, and from [1e21] on the string is in exponent notation, of which
    [parseInt] reads the leading digit only. *)
Definition parseInt_half (low high : value) : value :=
  arith (fun x y => Z.quot (x + y) 2) low high.

(** ** The conditional repeater, [whilst.ts] *)

Module Whilst.
Section whilst.
Context {State : Type}.
(** [test] is called without arguments by every caller of the repository
    ([next] receives no extra arguments), so it only reads the state. *)
Variable test : State -> bool.
Variable iterator : (value -> State -> option State) -> State -> option State.
Variable callback : value -> State -> option State.

(** [next] calls [iterator(next)], and a synchronous iterator calls [next]
    before it returns: the nesting is unbounded, so the recursion is on
    [fuel], the number of nested iterator calls still allowed.  [None]
    means the fuel ran out. *)
Fixpoint next (fuel : nat) (err : value) (s : State) : option State :=
  if truthy err then callback err s
  else if test s then
    match fuel with
    | O => None
    | S fuel' => iterator (next fuel') s
    end
  else callback VNull s.

Definition whilst (fuel : nat) (s : State) : option State :=
  if test s then iterator (next fuel) s
  else callback VNull s.
End whilst.
End Whilst.

(** ** The task sequencer, [series.ts] *)

Module Series.

(** The variables [results], [current] and [isSync] that the closures
    [done], [end] and [each] of one [series] call share. *)
Record SeriesSt : Type := mkSeriesSt {
  results : list value;
  current : nat;
  isSync : bool
}.

Section series.
Context {State : Type}.
(** Where the state keeps the variables of this [series] call. *)
Variable getSt : State -> SeriesSt.
Variable setSt : SeriesSt -> State -> State.
Variable tasks : list ((value -> value -> State -> option State) -> State -> option State).
Variable cb : option (value -> list value -> State -> option State).
(** [setTimeout(end, 0)], where [end] closes over [err]. *)
Variable setTimeout_end : value -> State -> option State.

Definition end_ (err : value) (s : State) : option State :=
  match cb with
  | Some f => f err (results (getSt s)) s
  | None => Some s
  end.

Definition done (err : value) (s : State) : option State :=
  if isSync (getSt s) then setTimeout_end err s else end_ err s.

(** The body of [each]; [n] bounds the tasks that can still be started.
    [None] is kept for a task that runs out of fuel: [each] below gives [n]
    the number of tasks that are left, and [tasks[current]] exists when
    [current < tasks.length]. *)
Fixpoint each_n (n : nat) (err result : value) (s : State) : option State :=
  let st := getSt s in
  let st1 := mkSeriesSt (results st ++ [result]) (S (current st)) (isSync st) in
  let s1 := setSt st1 s in
  if (length tasks <=? current st1)%nat || truthy err then done err s1
  else
    match n, tasks !! current st1 with
    | S n', Some task => task (each_n n') s1
    | _, _ => None
    end.

(** [each]: after this call at most [tasks.length - (current + 1)] tasks
    start. *)
Definition each (err result : value) (s : State) : option State :=
  each_n (length tasks - S (current (getSt s))) err result s.

Definition series (s : State) : option State :=
  let s0 := setSt (mkSeriesSt [] 0 true) s in
  s' ← match tasks with
       | task0 :: _ => task0 each s0
       | [] => done VNull s0
       end;
  let st := getSt s' in
  Some (setSt (mkSeriesSt (results st) (current st) false) s').
End series.
End Series.

(** ** A host for the sequencer

    The sequencer is run on steps that report a fixed error and result,
    either before they return or from a job the host fires later.  The host
    records what happens in a trace. *)

Module SeriesHost.
Import Series.

Record Step : Type := mkStep {
  async : bool;
  err : value;
  result : value
}.

Inductive Ev : Type :=
| Started (i : nat)
| Reported (i : nat) (e : value)
| Terminal (e : value) (rs : list value).

Inductive Job : Type :=
| Completion (i : nat)
| Timer (e : value).

Record Host : Type := mkHost {
  st : SeriesSt;
  trace : list Ev;
  pending : list Job
}.

Definition setSt (x : SeriesSt) (h : Host) : Host := mkHost x (trace h) (pending h).
Definition log (e : Ev) (h : Host) : Host := mkHost (st h) (trace h ++ [e]) (pending h).
Definition push (j : Job) (h : Host) : Host := mkHost (st h) (trace h) (pending h ++ [j]).

(** Step [i]: reports at once, or leaves the report to the host. *)
Definition task (i : nat) (p : Step) (callback : value -> value -> Host -> option Host)
    (h : Host) : option Host :=
  let h := log (Started i) h in
  if async p then Some (push (Completion i) h)
  else callback (err p) (result p) (log (Reported i (err p)) h).

Definition cb : option (value -> list value -> Host -> option Host) :=
  Some (fun e rs h => Some (log (Terminal e rs) h)).

Definition setTimeout_end (e : value) (h : Host) : option Host := Some (push (Timer e) h).

Section run.
Variable steps : list Step.

Definition tasks := imap task steps.

(** [series(tasks, cb)] called by the host on an empty trace. *)
Definition start : option Host :=
  series st setSt tasks cb setTimeout_end (mkHost (mkSeriesSt [] 0 true) [] []).

Definition fire (j : Job) (h : Host) : option Host :=
  match j with
  | Completion i =>
      p ← steps !! i;
      each st setSt tasks cb setTimeout_end (err p) (result p) (log (Reported i (err p)) h)
  | Timer e => end_ st cb e h
  end.

(** One turn of the host: the oldest job runs. *)
Definition tick (h : Host) : option Host :=
  match pending h with
  | [] => Some h
  | j :: js => fire j (mkHost (st h) (trace h) js)
  end.

Fixpoint ticks (n : nat) (h : Host) : option Host :=
  match n with
  | O => Some h
  | S n' => h' ← tick h; ticks n' h'
  end.

(** The call and then [n] turns of the host. *)
Definition run (n : nat) : option Host := h ← start; ticks n h.
End run.

(** The steps [ps], numbered from [i], start and report one after the
    other. *)
Fixpoint in_order (i : nat) (ps : list Step) : list Ev :=
  match ps with
  | [] => []
  | p :: ps' => Started i :: Reported i (err p) :: in_order (S i) ps'
  end.

Definition is_terminal (e : Ev) : bool :=
  match e with Terminal _ _ => true | _ => false end.

End SeriesHost.

Module SeriesSpec.
Import Series SeriesHost.

(** [series] clears [isSync] before it returns. *)
Definition unsync (h : Host) : Host :=
  setSt (mkSeriesSt (results (st h)) (current (st h)) false) h.

(** The trace the sequencer owes once step [j - 1] has reported [e] with
    the results [rs] so far and the steps [rest] are left. *)
Fixpoint owed (j : nat) (rs : list value) (e : value) (rest : list Step) : list Ev :=
  match rest with
  | [] => [Terminal e rs]
  | q :: rest' =>
      if truthy e then [Terminal e rs]
      else Started j :: Reported j (err q)
             :: owed (S j) (rs ++ [result q]) (err q) rest'
  end.

(** No terminal callback among the events. *)
Definition quiet (evs : list Ev) : Prop := Forall (fun e => is_terminal e = false) evs.

End SeriesSpec.

Module SeriesTurns.
Import Series SeriesHost.

(** The asynchronous steps among [ps]. *)
Fixpoint asyncs (ps : list Step) : nat :=
  match ps with
  | [] => 0
  | q :: ps' => ((if async q then 1 else 0) + asyncs ps')%nat
  end.

(** The turns of the host a sequence takes after the call: one for every
    asynchronous step that runs, or the one of the timer when there is
    none. *)
Definition turns (ps : list Step) : nat := Nat.max 1 (asyncs ps).

(** The turns left once the step before [rest] has reported [e]. *)
Fixpoint turns_left (e : value) (rest : list Step) : nat :=
  match rest with
  | [] => 0
  | q :: rest' =>
      if truthy e then 0
      else ((if async q then 1 else 0) + turns_left (err q) rest')%nat
  end.

(** What the host holds between two turns when the sequence has [n] steps:
    nothing, the timer, or the completion of the one step under way. *)
Definition one_job (n : nat) (h : Host) : Prop :=
  pending h = []
  \/ (exists e, pending h = [Timer e] /\ isSync (st h) = true)
  \/ (exists j, pending h = [Completion j] /\ j = current (st h) /\ (j < n)%nat).

End SeriesTurns.

(** ** The fit engine, [Textfit.tsx] *)

Module Textfit.
Import Series.

Inductive Mode : Type := single | multi.

Global Instance Mode_eq_dec : EqDecision Mode.
Proof. solve_decision. Defined.

(** The props [process] reads.  [onReady] is the host's: its calls are
    recorded as [OnReady] events. *)
Record Props : Type := mkProps {
  min : value;
  max : value;
  mode : Mode;
  forceSingleModeWidth : bool
}.

(** The callbacks [process] hands to [setState]. *)
Inductive Kont : Type :=
| KPrimary     (* step 1: the callback of [setState({ fontSize: mid }, ...)] *)
| KSecondary   (* step 2: the callback of [setState({ fontSize: mid }, ...)] *)
| KLimits      (* step 3: [() => stepCallback(null)] *)
| KReady.      (* [() => onReady?.(mid!)] *)

Global Instance Kont_eq_dec : EqDecision Kont.
Proof. solve_decision. Defined.

Inductive Update : Type :=
| FontSize (v : value)
| Ready (b : bool).

(** What the host holds for later: a state update with the callback of the
    run that asked for it, or the timer of [series]. *)
Inductive Job : Type :=
| SetState (u : Update) (k : option (nat * Kont))
| Timeout (p : nat) (e : value).

(** The variables of one [process] call that its closures share. *)
Record Locals : Type := mkLocals {
  pid : nat;
  props : Props;
  originalWidth : value;
  originalHeight : value;
  low : value;
  high : value;
  mid : value;
  seriesSt : SeriesSt
}.

(** The component: [this.pid] (0 stands for the initial empty string and
    [uniqueId] counts from 1), the counter behind lodash's [uniqueId],
    [this.state], the host's queue and the closures of the runs. *)
Record World : Type := mkWorld {
  this_pid : nat;
  idCounter : nat;
  fontSize : value;
  ready : bool;
  queue : list Job;
  closures : gmap nat Locals
}.

Inductive Event : Type :=
| Warn (msg : string)
| PrimaryTested (p : nat)
| SecondaryTested (p : nat)
| OnReady (p : nat) (size : value).

Global Instance Event_eq_dec : EqDecision Event.
Proof. solve_decision. Defined.

(** A run at work: the component, the variables of the run and what the
    run has emitted since the host called it. *)
Record Ctx : Type := mkCtx {
  world : World;
  env : Locals;
  out : list Event
}.

Definition set_low (v : value) (c : Ctx) : Ctx :=
  let l := env c in
  mkCtx (world c)
    (mkLocals (pid l) (props l) (originalWidth l) (originalHeight l) v (high l) (mid l) (seriesSt l))
    (out c).

Definition set_high (v : value) (c : Ctx) : Ctx :=
  let l := env c in
  mkCtx (world c)
    (mkLocals (pid l) (props l) (originalWidth l) (originalHeight l) (low l) v (mid l) (seriesSt l))
    (out c).

Definition set_mid (v : value) (c : Ctx) : Ctx :=
  let l := env c in
  mkCtx (world c)
    (mkLocals (pid l) (props l) (originalWidth l) (originalHeight l) (low l) (high l) v (seriesSt l))
    (out c).

Definition getSt (c : Ctx) : SeriesSt := seriesSt (env c).

Definition setSt (x : SeriesSt) (c : Ctx) : Ctx :=
  let l := env c in
  mkCtx (world c)
    (mkLocals (pid l) (props l) (originalWidth l) (originalHeight l) (low l) (high l) (mid l) x)
    (out c).

Definition emit (e : Event) (c : Ctx) : Ctx :=
  mkCtx (world c) (env c) (out c ++ [e]).

Definition enqueue (j : Job) (w : World) : World :=
  mkWorld (this_pid w) (idCounter w) (fontSize w) (ready w) (queue w ++ [j]) (closures w).

(** [this.setState(update, callback)]: the host applies the update and calls
    the callback later, after the code that called [setState] has returned.
    The host of the model always defers in this way, as React does when it
    batches updates.  A host that commits inside the call of [setState] and
    runs the callback before [setState] returns (a legacy React root does so
    for a call made outside a batch) is outside the model. *)
Definition setState (u : Update) (k : option Kont) (c : Ctx) : Ctx :=
  mkCtx (enqueue (SetState u (pair (pid (env c)) <$> k)) (world c)) (env c) (out c).

Definition setTimeout_end (e : value) (c : Ctx) : option Ctx :=
  Some (mkCtx (enqueue (Timeout (pid (env c)) e) (world c)) (env c) (out c)).

(** [uniqueId()] *)
Definition uniqueId (w : World) : nat * World :=
  let id := S (idCounter w) in
  (id, mkWorld (this_pid w) id (fontSize w) (ready w) (queue w) (closures w)).

Definition set_this_pid (p : nat) (w : World) : World :=
  mkWorld p (idCounter w) (fontSize w) (ready w) (queue w) (closures w).

Definition apply_update (u : Update) (w : World) : World :=
  match u with
  | FontSize v => mkWorld (this_pid w) (idCounter w) v (ready w) (queue w) (closures w)
  | Ready b => mkWorld (this_pid w) (idCounter w) (fontSize w) b (queue w) (closures w)
  end.

Definition assertElementFitsWidth (scrollWidth : Z) (width : value) : bool :=
  js_le (VNum (scrollWidth - 1)) width.

Definition assertElementFitsHeight (scrollHeight : Z) (height : value) : bool :=
  js_le (VNum (scrollHeight - 1)) height.

Definition warn_height : string :=
  "Can not process element without height. Make sure the element is displayed and has a static height.".
Definition warn_width : string :=
  "Can not process element without width. Make sure the element is displayed and has a static width.".

(** How often an iterator may call [next] before it returns.  The
    iterators of [process] call it at most once, with an error, which ends
    the loop, so that one nested call is all the engine ever needs. *)
Definition nesting : nat := 1.

Section engine.
(** The layout: what the wrapper's [scrollWidth] and [scrollHeight] are
    once a font size is applied. *)
Variable scrollWidth : value -> Z.
Variable scrollHeight : value -> Z.

Definition shouldCancelProcess (c : Ctx) : bool :=
  negb (pid (env c) =? this_pid (world c))%nat.

Definition fitsWidth (c : Ctx) : bool :=
  assertElementFitsWidth (scrollWidth (fontSize (world c))) (originalWidth (env c)).

Definition fitsHeight (c : Ctx) : bool :=
  assertElementFitsHeight (scrollHeight (fontSize (world c))) (originalHeight (env c)).

Definition testPrimary (c : Ctx) : bool * Ctx :=
  (match mode (props (env c)) with multi => fitsHeight c | single => fitsWidth c end,
   emit (PrimaryTested (pid (env c))) c).

Definition testSecondary (c : Ctx) : bool * Ctx :=
  (match mode (props (env c)) with multi => fitsWidth c | single => fitsHeight c end,
   emit (SecondaryTested (pid (env c))) c).

(** *** Step 1 *)

Definition test1 (c : Ctx) : bool := js_le (low (env c)) (high (env c)).

Definition iterator1 (whilstCallback : value -> Ctx -> option Ctx) (c : Ctx) : option Ctx :=
  if shouldCancelProcess c then whilstCallback (VBool true) c
  else
    let c := set_mid (parseInt_half (low (env c)) (high (env c))) c in
    Some (setState (FontSize (mid (env c))) (Some KPrimary) c).

(** The callback given to [setState] in step 1. *)
Definition applied1 (whilstCallback : value -> Ctx -> option Ctx) (c : Ctx) : option Ctx :=
  if shouldCancelProcess c then whilstCallback (VBool true) c
  else
    let '(fits, c) := testPrimary c in
    let c := if fits then set_low (js_add (mid (env c)) (VNum 1)) c
             else set_high (js_sub (mid (env c)) (VNum 1)) c in
    whilstCallback VUndefined c.

Definition step1 (stepCallback : value -> value -> Ctx -> option Ctx) (c : Ctx) : option Ctx :=
  Whilst.whilst test1 iterator1 (fun e => stepCallback e VUndefined) nesting c.

(** *** Step 2 *)

Definition test2 (c : Ctx) : bool := js_lt (low (env c)) (high (env c)).

Definition iterator2 (whilstCallback : value -> Ctx -> option Ctx) (c : Ctx) : option Ctx :=
  if shouldCancelProcess c then whilstCallback (VBool true) c
  else
    let c := set_mid (parseInt_half (low (env c)) (high (env c))) c in
    Some (setState (FontSize (mid (env c))) (Some KSecondary) c).

(** The callback given to [setState] in step 2; it spells the cancellation
    test out, [pid !== this.pid]. *)
Definition applied2 (whilstCallback : value -> Ctx -> option Ctx) (c : Ctx) : option Ctx :=
  if negb (pid (env c) =? this_pid (world c))%nat then whilstCallback (VBool true) c
  else
    let '(fits, c) := testSecondary c in
    let c := if fits then set_low (js_add (mid (env c)) (VNum 1)) c
             else set_high (js_sub (mid (env c)) (VNum 1)) c in
    whilstCallback VUndefined c.

Definition step2 (stepCallback : value -> value -> Ctx -> option Ctx) (c : Ctx) : option Ctx :=
  if bool_decide (mode (props (env c)) = single) && forceSingleModeWidth (props (env c))
  then stepCallback VNull VUndefined c
  else
    let '(fits, c) := testSecondary c in
    if fits then stepCallback VNull VUndefined c
    else
      let c := set_low (js_or (min (props (env c))) (VNum 1)) c in
      let c := set_high (mid (env c)) c in
      Whilst.whilst test2 iterator2 (fun e => stepCallback e VUndefined) nesting c.

(** *** Step 3 *)

Definition limits (p : Props) (low high : value) : value :=
  let mid := Math_min low high in
  let mid := Math_max mid (js_or (min p) (VNum 1)) in
  let mid := Math_min mid (js_or (max p) (VNum 100)) in
  Math_max mid (VNum 0).

Definition step3 (stepCallback : value -> value -> Ctx -> option Ctx) (c : Ctx) : option Ctx :=
  let c := set_mid (limits (props (env c)) (low (env c)) (high (env c))) c in
  if shouldCancelProcess c then stepCallback (VBool true) VUndefined c
  else Some (setState (FontSize (mid (env c))) (Some KLimits) c).

(** *** The terminal callback of [series] *)

Definition finish (e : value) (rs : list value) (c : Ctx) : option Ctx :=
  if truthy e || shouldCancelProcess c then Some c
  else Some (setState (Ready true) (Some KReady) c).

Definition tasks : list ((value -> value -> Ctx -> option Ctx) -> Ctx -> option Ctx) :=
  [step1; step2; step3].

(** The [each] of the run's [series] call: every [stepCallback]. *)
Definition stepCallback : value -> value -> Ctx -> option Ctx :=
  each getSt setSt tasks (Some finish) setTimeout_end.

(** The [next] of the [whilst] call of step 1 and of step 2. *)
Definition next1 : value -> Ctx -> option Ctx :=
  Whilst.next test1 iterator1 (fun e => stepCallback e VUndefined) nesting.
Definition next2 : value -> Ctx -> option Ctx :=
  Whilst.next test2 iterator2 (fun e => stepCallback e VUndefined) nesting.

(** The host calls back. *)
Definition resume (k : Kont) (c : Ctx) : option Ctx :=
  match k with
  | KPrimary => applied1 next1 c
  | KSecondary => applied2 next2 c
  | KLimits => stepCallback VNull VUndefined c
  | KReady => Some (emit (OnReady (pid (env c)) (mid (env c))) c)
  end.

(** The run returns to the host: its variables stay in its closures. *)
Definition suspend (c : Ctx) : World * list Event :=
  let w := world c in
  (mkWorld (this_pid w) (idCounter w) (fontSize w) (ready w) (queue w)
     (<[pid (env c) := env c]> (closures w)),
   out c).

(** *** [process] *)

Definition process (p : Props) (refs : option (value * value)) (w : World)
    : option (World * list Event) :=
  match refs with
  | None => Some (w, [])
  | Some (originalWidth, originalHeight) =>
      if js_le originalHeight (VNum 0) || isNaN originalHeight then
        Some (w, [Warn warn_height])
      else if js_le originalWidth (VNum 0) || isNaN originalWidth then
        Some (w, [Warn warn_width])
      else
        let '(id, w) := uniqueId w in
        let w := set_this_pid id w in
        let l := mkLocals id p originalWidth originalHeight
                   (js_or (min p) (VNum 1)) (js_or (max p) (VNum 100)) VUndefined
                   (mkSeriesSt [] 0 true) in
        let c := setState (Ready false) None (mkCtx w l []) in
        c' ← series getSt setSt tasks (Some finish) setTimeout_end c;
        Some (suspend c')
  end.

(** [componentWillUnmount] *)
Definition unmount (w : World) : World :=
  let '(id, w) := uniqueId w in set_this_pid id w.

(** *** The host

    The host fires a job: the update is applied to [this.state], then the
    callback runs on the variables of its run.  A callback always finds its
    closure (see [inv]); the other branch is there to make [fire] total. *)

Definition fire (j : Job) (w : World) : option (World * list Event) :=
  match j with
  | SetState u k =>
      let w := apply_update u w in
      match k with
      | None => Some (w, [])
      | Some (p, k) =>
          match closures w !! p with
          | Some l => c ← resume k (mkCtx w l []); Some (suspend c)
          | None => Some (w, [])
          end
      end
  | Timeout p e =>
      match closures w !! p with
      | Some l =>
          c ← end_ getSt (Some finish) e (mkCtx w l []); Some (suspend c)
      | None => Some (w, [])
      end
  end.

Inductive HostEvent : Type :=
| Request (p : Props) (refs : option (value * value))
| Tick
| Unmount.

Definition step (ev : HostEvent) (w : World) : option (World * list Event) :=
  match ev with
  | Request p refs => process p refs w
  | Tick =>
      match queue w with
      | [] => Some (w, [])
      | j :: js =>
          fire j (mkWorld (this_pid w) (idCounter w) (fontSize w) (ready w) js (closures w))
      end
  | Unmount => Some (unmount w, [])
  end.

Fixpoint run (evs : list HostEvent) (w : World) : option (World * list Event) :=
  match evs with
  | [] => Some (w, [])
  | ev :: evs' =>
      '(w1, out1) ← step ev w;
      '(w2, out2) ← run evs' w1;
      Some (w2, out1 ++ out2)
  end.
End engine.

(** The component after its constructor; the counter of [uniqueId] is
    shared with the rest of the page. *)
Definition mounted (counter : nat) : World :=
  mkWorld 0 counter VUndefined false [] ∅.

End Textfit.

(** ** A synchronous loop with a stack probe

    The repeater run on a test and a unit of work that both finish before
    they return.  The work keeps count of the frames that are live while its
    callback runs: its own frame and the frame of the callback it calls. *)

Module WhilstProbe.

Record Probe : Type := mkProbe {
  remaining : nat;   (* iterations the test still lets through *)
  depth : nat;       (* frames live above the caller of [whilst] *)
  peak : nat         (* the largest [depth] seen *)
}.

Definition test (s : Probe) : bool := (0 <? remaining s)%nat.

Definition iterator (callback : value -> Probe -> option Probe) (s : Probe) : option Probe :=
  let d := (depth s + 2)%nat in
  s' ← callback VUndefined (mkProbe (remaining s - 1) d (Nat.max (peak s) d));
  Some (mkProbe (remaining s') (depth s' - 2) (peak s')).

Definition callback (e : value) (s : Probe) : option Probe := Some s.

(** [n] iterations in a row, started from an empty stack. *)
Definition loop (n : nat) : option Probe :=
  Whilst.whilst test iterator callback n (mkProbe n 0 0).

End WhilstProbe.

(** ** The repeater on work that reports before it returns

    A unit of work that changes the state and reports its error before it
    returns, as the iterator of a plain loop does. *)

Module WhilstSync.
Section sync.
Context {State : Type}.
(** One round of work: the state it leaves and the error it reports. *)
Variable work : State -> State * value.

Definition iterator (callback : value -> State -> option State) (s : State) : option State :=
  callback (work s).2 (work s).1.

(** The state after [k] rounds of work. *)
Fixpoint rounds (k : nat) (s : State) : State :=
  match k with
  | O => s
  | S k' => rounds k' (work s).1
  end.
End sync.

(** A counter, and a final callback that records what it was called with. *)
Record Counter : Type := mkCounter {
  count : nat;
  reported : option value
}.

Definition below (n : nat) (s : Counter) : bool := (count s <? n)%nat.

(** Counts up; the round that reaches [bad] reports an error. *)
Definition count_up (bad : nat) (s : Counter) : Counter * value :=
  (mkCounter (S (count s)) (reported s),
   if (S (count s) =? bad)%nat then VBool true else VUndefined).

Definition record (e : value) (s : Counter) : option Counter :=
  Some (mkCounter (count s) (Some e)).

End WhilstSync.

(** ** What holds of the component between two turns of the host *)

Module TextfitSpec.
Import Series Textfit.

Definition numeric (v : value) : Prop := exists z, v = VNum z.

(** The configurations of the data model: [minSize <= maxSize], both
    positive. *)
Definition valid (p : Props) : Prop :=
  exists a b, min p = VNum a /\ max p = VNum b /\ 0 < a <= b.

(** [mode === 'single' && forceSingleModeWidth] *)
Definition skips_secondary (p : Props) : bool :=
  bool_decide (mode p = single) && forceSingleModeWidth p.

(** With a valid configuration the search range and the candidate are
    numbers. *)
Definition numbers (l : Locals) : Prop :=
  valid (props l) -> numeric (low l) /\ numeric (high l) /\ numeric (mid l).

(** Where a run stands when the callback [k] is with the host. *)
Definition kont_ok (k : Kont) (l : Locals) : Prop :=
  numbers l /\
  match k with
  | KPrimary => current (seriesSt l) = 0%nat
  | KSecondary => current (seriesSt l) = 1%nat /\ skips_secondary (props l) = false
  | KLimits =>
      current (seriesSt l) = 2%nat /\ mid l = limits (props l) (low l) (high l)
  | KReady => mid l = limits (props l) (low l) (high l)
  end.

(** The run a job belongs to. *)
Definition job_pid (j : Job) : option nat :=
  match j with
  | SetState _ (Some (p, _)) => Some p
  | SetState _ None => None
  | Timeout p _ => Some p
  end.

Definition job_ok (w : World) (j : Job) : Prop :=
  match j with
  | SetState _ None => True
  | SetState _ (Some (p, k)) =>
      exists l, closures w !! p = Some l /\ pid l = p
                /\ isSync (seriesSt l) = false /\ kont_ok k l
  | Timeout _ _ => False
  end.

(** Every job with the host has its closure, no run has two callbacks with
    the host, and the identifiers in use came from [uniqueId]. *)
Record inv (w : World) : Prop := mkInv {
  inv_jobs : Forall (job_ok w) (queue w);
  inv_nodup : NoDup (omap job_pid (queue w));
  inv_fresh : forall p, p ∈ omap job_pid (queue w) -> (p <= idCounter w)%nat;
  inv_closures : forall p l, closures w !! p = Some l -> pid l = p /\ (p <= idCounter w)%nat
}.

(** The worlds the host can bring about from a fresh component. *)
Inductive reachable (scrollWidth scrollHeight : value -> Z) : World -> Prop :=
| reachable_mounted counter : reachable scrollWidth scrollHeight (mounted counter)
| reachable_step w ev w' out :
    reachable scrollWidth scrollHeight w ->
    step scrollWidth scrollHeight ev w = Some (w', out) ->
    reachable scrollWidth scrollHeight w'.

(** What a callback other than the last one may emit for its run. *)
Definition event_ok (l : Locals) (e : Event) : Prop :=
  match e with
  | PrimaryTested p => p = pid l
  | SecondaryTested p => p = pid l /\ skips_secondary (props l) = false
  | OnReady _ _ | Warn _ => False
  end.

Definition same_component (w w' : World) : Prop :=
  this_pid w' = this_pid w /\ idCounter w' = idCounter w
  /\ fontSize w' = fontSize w /\ ready w' = ready w /\ closures w' = closures w.

(** A run gives control back to the host: the component is as it was but
    for at most one new job, which carries the next callback of the run. *)
Definition hands_back (c c' : Ctx) : Prop :=
  pid (env c') = pid (env c) /\ props (env c') = props (env c)
  /\ isSync (getSt c') = isSync (getSt c)
  /\ (current (getSt c) <= current (getSt c'))%nat
  /\ same_component (world c) (world c')
  /\ (queue (world c') = queue (world c)
      \/ exists u k, queue (world c') = queue (world c) ++ [SetState u (Some (pid (env c), k))]
                     /\ kont_ok k (env c')).

Definition returns (c c' : Ctx) : Prop :=
  hands_back c c' /\ exists evs, out c' = out c ++ evs /\ Forall (event_ok (env c)) evs.

(** What one turn of the host may emit, from the world [w] to [w']. *)
Definition emitted_ok (w w' : World) (e : Event) : Prop :=
  match e with
  | Warn _ | PrimaryTested _ => True
  | SecondaryTested q =>
      exists l, closures w' !! q = Some l /\ skips_secondary (props l) = false
  | OnReady q v =>
      exists l, closures w !! q = Some l /\ pid l = q /\ v = mid l
                /\ mid l = limits (props l) (low l) (high l) /\ numbers l
  end.

(** The props of a run stay what they were when the run started, and a new
    run has the props of the request that started it. *)
Definition keeps_props (ev : HostEvent) (w w' : World) : Prop :=
  (forall q l, closures w !! q = Some l ->
     exists l', closures w' !! q = Some l' /\ props l' = props l)
  /\ (forall q l', closures w' !! q = Some l' ->
        (exists l, closures w !! q = Some l /\ props l = props l')
        \/ (exists refs, ev = Request (props l') refs)).

(** Step 1 of run [p] is under way: the candidate [(l + h) / 2] is with the
    host, alone in its queue, and the search range is [l, h]. *)
Definition in_phase1 (w : World) (p : nat) (l h : Z) : Prop :=
  this_pid w = p
  /\ queue w = [SetState (FontSize (VNum ((l + h) / 2))) (Some (p, KPrimary))]
  /\ exists e, closures w !! p = Some e /\ pid e = p
       /\ low e = VNum l /\ high e = VNum h /\ mid e = VNum ((l + h) / 2)
       /\ current (seriesSt e) = 0%nat /\ isSync (seriesSt e) = false.



End TextfitSpec.

(** ** The stages of a run that is not superseded *)

Module TextfitStages.
Import Series Textfit TextfitSpec.

(** What a run keeps for good: its token, the props and the measured box. *)
Record Run : Type := mkRun {
  token : nat;
  config : Props;
  width : value;
  height : value
}.

Definition locals (r : Run) (lo hi mi : value) (st : SeriesSt) : Locals :=
  mkLocals (token r) (config r) (width r) (height r) lo hi mi st.

(** Where the run stands between two turns of the host. *)
Inductive Stage : Type :=
| Primary (l h : Z)       (* step 1 searches [l, h]; its candidate is with the host *)
| Secondary (l h : Z)     (* step 2 searches [l, h]; its candidate is with the host *)
| Limits (lo hi : value)  (* step 3 has asked for the final size *)
| Reporting (v : value)   (* [ready: true] is asked for; [onReady] is to come *)
| Finished (v : value).

Definition searching (s : Stage) : bool :=
  match s with Finished _ => false | _ => true end.

(** The run [r] is alone with the host, at the stage [s]. *)
Definition at_stage (r : Run) (s : Stage) (w : World) : Prop :=
  this_pid w = token r /\ ready w = negb (searching s) /\
  match s with
  | Primary l h =>
      queue w = [SetState (FontSize (VNum ((l + h) / 2))) (Some (token r, KPrimary))]
      /\ exists rs,
           closures w !! token r
           = Some (locals r (VNum l) (VNum h) (VNum ((l + h) / 2)) (mkSeriesSt rs 0 false))
  | Secondary l h =>
      queue w = [SetState (FontSize (VNum ((l + h) / 2))) (Some (token r, KSecondary))]
      /\ skips_secondary (config r) = false
      /\ exists rs,
           closures w !! token r
           = Some (locals r (VNum l) (VNum h) (VNum ((l + h) / 2)) (mkSeriesSt rs 1 false))
  | Limits lo hi =>
      queue w = [SetState (FontSize (limits (config r) lo hi)) (Some (token r, KLimits))]
      /\ exists rs,
           closures w !! token r
           = Some (locals r lo hi (limits (config r) lo hi) (mkSeriesSt rs 2 false))
  | Reporting v =>
      queue w = [SetState (Ready true) (Some (token r, KReady))]
      /\ fontSize w = v
      /\ exists lo hi st, closures w !! token r = Some (locals r lo hi v st)
  | Finished v => queue w = [] /\ fontSize w = v
  end.

(** The size on the screen once the host has taken its turn at the stage
    [s]. *)
Definition applied (r : Run) (s : Stage) : value :=
  match s with
  | Primary l h | Secondary l h => VNum ((l + h) / 2)
  | Limits lo hi => limits (config r) lo hi
  | Reporting v | Finished v => v
  end.

Section machine.
Variable scrollWidth scrollHeight : value -> Z.

(** The tests of the run at the size [m]. *)
Definition fits_primary (r : Run) (m : Z) : bool :=
  match mode (config r) with
  | multi => assertElementFitsHeight (scrollHeight (VNum m)) (height r)
  | single => assertElementFitsWidth (scrollWidth (VNum m)) (width r)
  end.

Definition fits_secondary (r : Run) (m : Z) : bool :=
  match mode (config r) with
  | multi => assertElementFitsWidth (scrollWidth (VNum m)) (width r)
  | single => assertElementFitsHeight (scrollHeight (VNum m)) (height r)
  end.

(** The secondary test on the screen as it is, at the size [size]. *)
Definition fits_secondary_now (r : Run) (size : value) : bool :=
  match mode (config r) with
  | multi => assertElementFitsWidth (scrollWidth size) (width r)
  | single => assertElementFitsHeight (scrollHeight size) (height r)
  end.

(** One turn of the host: the stage it leads to and what it emits, for a
    run whose [min || 1] is the number [a]. *)
Definition advance (r : Run) (a : Z) (s : Stage) : Stage * list Event :=
  match s with
  | Primary l h =>
      let m := (l + h) / 2 in
      let fits := fits_primary r m in
      let l' := if fits then m + 1 else l in
      let h' := if fits then h else m - 1 in
      if l' <=? h' then (Primary l' h', [PrimaryTested (token r)])
      else if skips_secondary (config r) then
        (Limits (VNum l') (VNum h'), [PrimaryTested (token r)])
      else if fits_secondary r m then
        (Limits (VNum l') (VNum h'), [PrimaryTested (token r); SecondaryTested (token r)])
      else if a <? m then
        (Secondary a m, [PrimaryTested (token r); SecondaryTested (token r)])
      else
        (Limits (VNum a) (VNum m), [PrimaryTested (token r); SecondaryTested (token r)])
  | Secondary l h =>
      let m := (l + h) / 2 in
      let fits := fits_secondary r m in
      let l' := if fits then m + 1 else l in
      let h' := if fits then h else m - 1 in
      if l' <? h' then (Secondary l' h', [SecondaryTested (token r)])
      else (Limits (VNum l') (VNum h'), [SecondaryTested (token r)])
  | Limits lo hi => (Reporting (limits (config r) lo hi), [])
  | Reporting v => (Finished v, [OnReady (token r) v])
  | Finished v => (Finished v, [])
  end.

(** [k] turns of the host. *)
Fixpoint machine (r : Run) (a : Z) (k : nat) (s : Stage) : Stage * list Event :=
  match k with
  | O => (s, [])
  | S k' =>
      let '(s1, out1) := advance r a s in
      let '(s2, out2) := machine r a k' s1 in
      (s2, out1 ++ out2)
  end.
End machine.

(** The stages a run with the bounds [a <= b] goes through. *)
Definition stage_ok (a b : Z) (s : Stage) : Prop :=
  match s with
  | Primary l h => a <= l <= h /\ h <= b
  | Secondary l h => a <= l < h /\ h <= b
  | Limits lo hi => exists l h, lo = VNum l /\ hi = VNum h
  | Reporting v | Finished v => exists z, v = VNum z /\ a <= z <= b
  end.

(** A fit test of the run with the token [p]. *)
Definition is_test (p : nat) (e : Event) : Prop :=
  e = PrimaryTested p \/ e = SecondaryTested p.

(** An event of the run with the token [q]. *)
Definition event_of (q : nat) (e : Event) : Prop :=
  match e with
  | PrimaryTested p | SecondaryTested p | OnReady p _ => p = q
  | Warn _ => False
  end.

(** The run [q] has nothing left to do: its token was handed out, and
    every callback of it that the host still holds is stale and is not the
    last one. *)
Definition spent (q : nat) (w : World) : Prop :=
  (q <= idCounter w)%nat
  /\ forall u k, SetState u (Some (q, k)) ∈ queue w -> q <> this_pid w /\ k <> KReady.

(** The size [z] is the largest in [[a, b]] that passes the test, or [a]
    when [a] itself fails. *)
Definition largest_fit (fits : Z -> bool) (a b z : Z) : Prop :=
  a <= z <= b
  /\ (fits a = true -> fits z = true /\ forall z', z < z' <= b -> fits z' = false)
  /\ (fits a = false -> z = a).

(** A size that passes the test lets every smaller size pass. *)
Definition monotone (fits : Z -> bool) : Prop :=
  forall z z', z <= z' -> fits z' = true -> fits z = true.

End TextfitStages.

(** ** The callers of [process] in the component *)

Module Lifecycle.
Import Textfit.

Section lifecycle.
Variable scrollWidth scrollHeight : value -> Z.

(** [componentDidUpdate(prevProps)]; [same] is what
    [isEqual(this.props, prevProps)] returns, and [p] and [refs] are what
    [process] then reads. *)
Definition componentDidUpdate (same : bool) (p : Props) (refs : option (value * value))
    (w : World) : option (World * list Event) :=
  if negb (ready w) then Some (w, [])
  else if same then Some (w, [])
  else process scrollWidth scrollHeight p refs w.
End lifecycle.

(** [render]: the styles it computes from the props and the state.  The
    outer element gets [{...style, fontSize}]; the wrapper, which the fit
    tests measure, is displayed [block] when [ready] and [inline-block]
    otherwise, and does not wrap in single-line mode. *)
Inductive Display : Type := block | inline_block.

Record Styles : Type := mkStyles {
  outer_fontSize : value;
  wrapper_display : Display;
  wrapper_nowrap : bool
}.

Definition render (p : Props) (w : World) : Styles :=
  mkStyles (fontSize w)
    (if ready w then block else inline_block)
    (bool_decide (mode p = single)).

(** [ready] once the host has applied the update of the job [j]. *)
Definition ready_with (rd : bool) (j : Job) : bool :=
  match j with
  | SetState (Ready b) _ => b
  | _ => rd
  end.

(** The update that goes with each callback of [process]. *)
Definition job_shape (j : Job) : Prop :=
  match j with
  | SetState (FontSize _) (Some (_, KPrimary))
  | SetState (FontSize _) (Some (_, KSecondary))
  | SetState (FontSize _) (Some (_, KLimits))
  | SetState (Ready true) (Some (_, KReady))
  | SetState (Ready false) None => True
  | _ => False
  end.

(** The queue [js], met with [ready = rd], serves the run with the token
    [tp] well: a callback of that run is the last job of the queue, and
    unless it is the last callback of the run, [ready] is false when the
    host gets to it. *)
Fixpoint inline_ok (tp : nat) (rd : bool) (js : list Job) : Prop :=
  match js with
  | [] => True
  | j :: js' =>
      job_shape j
      /\ (forall u k, j = SetState u (Some (tp, k)) ->
            js' = [] /\ (k <> KReady -> rd = false))
      /\ inline_ok tp (ready_with rd j) js'
  end.

Definition measures_inline (w : World) : Prop :=
  inline_ok (this_pid w) (ready w) (queue w).

(** The commit of a job: React applies its update to [this.state]; the
    callback of the job is still to be called. *)
Definition update_of (w : World) (j : Job) : World :=
  match j with
  | SetState u _ => apply_update u w
  | Timeout _ _ => w
  end.

(** The component as [componentDidUpdate] finds it in the commit of the
    first [n] jobs of the queue: React calls [componentDidUpdate] once their
    updates are applied and before it calls their callbacks. *)
Definition committed (n : nat) (w : World) : World :=
  fold_left update_of (take n (queue w)) w.

(** The queue [js], met with [ready = rd], never shows a font size under
    [ready: true]: an update of the font size is applied while [ready] is
    false. *)
Fixpoint off_until_ready (rd : bool) (js : list Job) : Prop :=
  match js with
  | [] => True
  | j :: js' =>
      match j with
      | SetState (Ready _) _ => True
      | _ => rd = false
      end
      /\ off_until_ready (ready_with rd j) js'
  end.

End Lifecycle.

(** ** Layouts and configurations for the scenarios *)

Module Scenarios.
Import Textfit.

(** Content that fits its box while the font size is at most [k] and
    overflows it above: the measured extent is 10 or 1000 against a box of
    200 by 50. *)
Definition overflows_above (k : Z) (size : value) : Z :=
  match size with
  | VNum z => if z <=? k then 10 else 1000
  | _ => 10
  end.

Definition never_overflows (size : value) : Z := 10.

Definition box : option (value * value) := Some (VNum 200, VNum 50).

(** A headline: one line, width only. *)
Definition headline : Props := mkProps (VNum 1) (VNum 100) single true.

(** A paragraph with sizes from 1 to 10. *)
Definition paragraph : Props := mkProps (VNum 1) (VNum 10) multi true.

(** The headline fits up to size 30: the world after the request and
    [n] turns of the host. *)
Definition headline_after (n : nat) : World :=
  match run (overflows_above 30) never_overflows
          (Request headline box :: replicate n Tick) (mounted 0) with
  | Some (w, _) => w
  | None => mounted 0
  end.

End Scenarios.

Module FitScenarios.
Import Textfit Scenarios.

(** Content that is wider than its box at every size. *)
Definition always_overflows (size : value) : Z := 1000.

(** The paragraph fits its height at every size and its width up to size
    6: the world after the request and [n] turns of the host. *)
Definition paragraph_after (n : nat) : World :=
  match run (overflows_above 6) never_overflows
          (Request paragraph box :: replicate n Tick) (mounted 0) with
  | Some (w, _) => w
  | None => mounted 0
  end.

(** The headline's run has tested its first candidate when a second
    request supersedes it: the world [n] turns of the host later. *)
Definition superseded_after (n : nat) : World :=
  match run (overflows_above 30) never_overflows
          ([Request headline box; Tick; Tick; Request headline box] ++ replicate n Tick)
          (mounted 0) with
  | Some (w, _) => w
  | None => mounted 0
  end.

(** A range that is upside down. *)
Definition upside_down : Props := mkProps (VNum 50) (VNum 10) multi true.

End FitScenarios.

Module SeriesFacts.
Import Series SeriesHost SeriesSpec.

Section facts.
Variable steps : list Step.

Local Abbreviation each_n := (Series.each_n st setSt (tasks steps) cb setTimeout_end).

Lemma tasks_lookup i : tasks steps !! i = task i <$> steps !! i.
Proof. apply list_lookup_imap. Qed.

Lemma tasks_length : length (tasks steps) = length steps.
Proof. apply length_imap. Qed.

Lemma ticks_quiet n h : pending h = [] -> ticks steps n h = Some h.
Proof.
  induction n as [|n IH]; intros Hp; [done|].
  simpl. unfold tick. rewrite Hp. simpl. by apply IH.
Qed.

Lemma ticks_more k m h hf :
  ticks steps k h = Some hf -> pending hf = [] -> ticks steps (k + m) h = Some hf.
Proof.
  revert h. induction k as [|k IH]; intros h Hk Hq; simpl in *.
  - simplify_eq. by apply ticks_quiet.
  - destruct (tick steps h) as [h'|]; simpl in *; [|done]. by apply IH.
Qed.

Lemma drop_nil_length i : drop i steps = [] -> (length steps <= i)%nat.
Proof. intros H. apply (f_equal length) in H. rewrite length_drop in H. simpl in H. lia. Qed.

Lemma drop_cons_lookup i q rest :
  drop i steps = q :: rest ->
  steps !! i = Some q /\ drop (S i) steps = rest /\ (i < length steps)%nat.
Proof.
  intros H. assert (Hq : steps !! i = Some q).
  { rewrite <- (Nat.add_0_r i), <- lookup_drop, H. done. }
  split; [done|]. split.
  - replace (S i) with (i + 1)%nat by lia. rewrite <- drop_drop, H. done.
  - by eapply lookup_lt_Some.
Qed.

Lemma done_completes e h k :
  pending h = [] ->
  exists h1,
    done st cb setTimeout_end e h = Some h1
    /\ isSync (st h1) = isSync (st h)
    /\ (isSync (st h) = true -> trace h1 = trace h /\ pending h1 = [Timer e])
    /\ exists hf,
         ticks steps (S k) (unsync h1) = Some hf
         /\ pending hf = []
         /\ trace hf = trace h ++ [Terminal e (results (st h))].
Proof.
  intros Hpend. unfold done. destruct (isSync (st h)) eqn:Hs.
  - eexists. split; [done|]. simpl. rewrite Hpend. do 2 (split; [done|]).
    unfold tick. simpl. rewrite Hpend. simpl. rewrite ticks_quiet by done. eauto.
  - eexists. split; [done|]. simpl. do 2 (split; [done|]).
    unfold tick. simpl. rewrite Hpend. simpl. rewrite ticks_quiet by done. eauto.
Qed.

Lemma each_n_last n e r h :
  (length steps <= S (current (st h)))%nat \/ truthy e = true ->
  each_n n e r h
  = done st cb setTimeout_end e
      (setSt (mkSeriesSt (results (st h) ++ [r]) (S (current (st h))) (isSync (st h))) h).
Proof.
  intros H.
  assert (((length (tasks steps) <=? S (current (st h)))%nat || truthy e) = true) as Hc.
  { rewrite tasks_length. destruct H as [H| ->]; [|by rewrite orb_true_r].
    apply Nat.leb_le in H. by rewrite H. }
  destruct n; simpl; simpl in Hc; by rewrite Hc.
Qed.

Lemma each_n_next n e r h q :
  steps !! S (current (st h)) = Some q -> truthy e = false ->
  each_n (S n) e r h
  = task (S (current (st h))) q (each_n n)
      (setSt (mkSeriesSt (results (st h) ++ [r]) (S (current (st h))) (isSync (st h))) h).
Proof.
  intros Hq He.
  assert (((length (tasks steps) <=? S (current (st h)))%nat || truthy e) = false) as Hc.
  { rewrite tasks_length, He, orb_false_r. apply Nat.leb_gt. by eapply lookup_lt_Some. }
  simpl. simpl in Hc. rewrite Hc, tasks_lookup, Hq. done.
Qed.

Lemma ticks_S n h : ticks steps (S n) h = tick steps h ≫= ticks steps n.
Proof. done. Qed.

Lemma unsync_id h : isSync (st h) = false -> unsync h = h.
Proof. destruct h as [[? ? ?] ? ?]. simpl. by intros ->. Qed.

Lemma each_completes rest : forall i p h n,
  steps !! i = Some p -> drop (S i) steps = rest ->
  current (st h) = i -> pending h = [] -> (length rest <= n)%nat ->
  exists h1,
    each_n n (err p) (result p) h = Some h1
    /\ isSync (st h1) = isSync (st h)
    /\ (isSync (st h) = true ->
         exists evs, trace h1 = trace h ++ evs /\ quiet evs
           /\ (Forall (fun q => async q = false) rest -> exists e, pending h1 = [Timer e]))
    /\ exists hf,
         ticks steps (S (length rest)) (unsync h1) = Some hf
         /\ pending hf = []
         /\ trace hf = trace h ++ owed (S i) (results (st h) ++ [result p]) (err p) rest.
Proof.
  induction rest as [|q rest IH]; intros i p h n Hp Hdrop Hcur Hpend Hn.
  - apply drop_nil_length in Hdrop.
    rewrite each_n_last by (left; lia).
    set (h' := setSt _ h).
    destruct (done_completes (err p) h' 0 Hpend) as (h1 & -> & Hs & Htimer & hf & Hticks & Hq & Htr).
    exists h1. split; [done|]. split; [exact Hs|]. split.
    + intros Hsync. destruct (Htimer Hsync) as [Ht Hp1]. exists []. rewrite app_nil_r.
      split; [done|]. split; [constructor|]. eauto.
    + exists hf. done.
  - apply drop_cons_lookup in Hdrop as (Hq & Hdrop & Hlt).
    destruct (truthy (err p)) eqn:Herr.
    + rewrite each_n_last by (by right).
      set (h' := setSt _ h).
      destruct (done_completes (err p) h' (length (q :: rest)) Hpend)
        as (h1 & -> & Hs & Htimer & hf & Hticks & Hq1 & Htr).
      exists h1. split; [done|]. split; [exact Hs|]. split.
      * intros Hsync. destruct (Htimer Hsync) as [Ht Hp1]. exists []. rewrite app_nil_r.
        split; [done|]. split; [constructor|]. eauto.
      * exists hf. cbn [owed]. rewrite Herr. done.
    + destruct n as [|n]; [simpl in Hn; lia|]. simpl in Hn.
      rewrite (each_n_next _ _ _ _ q) by (by rewrite ?Hcur).
      rewrite Hcur. set (h0 := setSt _ h). unfold task.
      cbn [owed]. rewrite Herr.
      destruct (async q) eqn:Hasync.
      * eexists; split; [done|]. split; [done|]. split.
        { intros _. exists [Started (S i)]. split; [done|]. split.
          - repeat constructor.
          - intros Hall. inversion Hall; congruence. }
        rewrite ticks_S. unfold tick. cbn [unsync push log setSt pending st trace].
        subst h0. cbn [unsync push log setSt pending st trace]. rewrite Hpend.
        cbn [app fire mbind option_bind]. rewrite Hq. cbn [mbind option_bind].
        unfold each. rewrite tasks_length.
        set (h' := log _ _).
        change (current (st h')) with (S i).
        destruct (IH (S i) q h' (length steps - S (S i))%nat)
          as (h1 & Heach & Hsync & _ & hf & Hticks & Hquiet & Htrace); try done.
        { apply (f_equal length) in Hdrop. rewrite length_drop in Hdrop. lia. }
        rewrite Heach. cbn [mbind option_bind].
        rewrite unsync_id in Hticks by (by rewrite Hsync).
        exists hf. split; [done|]. split; [done|].
        rewrite Htrace. subst h'. simpl. rewrite <- !app_assoc. done.
      * set (h' := log (Reported _ _) _).
        destruct (IH (S i) q h' n) as (h1 & Heach & Hsync & Hcall & hf & Hticks & Hquiet & Htrace);
          try done; [lia|].
        exists h1. split; [done|]. split; [done|]. split.
        { intros Hs. destruct (Hcall Hs) as (evs & Htr & Hq1 & Htimer).
          exists (Started (S i) :: Reported (S i) (err q) :: evs).
          split; [|split].
          - rewrite Htr. subst h'. simpl. rewrite <- !app_assoc. done.
          - repeat constructor; done.
          - intros Hall. inversion Hall; subst. by apply Htimer. }
        exists hf. split.
        { replace (S (length (q :: rest))) with (S (length rest) + 1)%nat
            by (simpl; lia).
          by apply ticks_more. }
        split; [done|]. rewrite Htrace. subst h'. simpl. rewrite <- !app_assoc. done.
Qed.

End facts.

Lemma start_completes steps :
  exists h1,
    start steps = Some h1
    /\ isSync (st h1) = false
    /\ quiet (trace h1)
    /\ (Forall (fun q => async q = false) steps -> exists e, pending h1 = [Timer e])
    /\ exists hf,
         ticks steps (S (length steps)) h1 = Some hf
         /\ pending hf = []
         /\ trace hf = owed 0 [] VNull steps.
Proof.
  unfold start, series. destruct steps as [|p rest].
  - simpl. eexists. split; [done|]. split; [done|]. split; [constructor|].
    split; [eauto|]. eexists. done.
  - set (steps := p :: rest).
    change (tasks steps) with (task 0 p :: imap (task ∘ S) rest) at 1.
    cbv iota beta. unfold task at 1. set (h0 := log (Started 0) _).
    unfold each. rewrite tasks_length.
    destruct (async p) eqn:Hasync.
    + cbn [mbind option_bind]. eexists. split; [done|]. split; [done|].
      split; [repeat constructor|]. split.
      { intros Hall. inversion Hall; congruence. }
      rewrite ticks_S. unfold tick.
      cbn [unsync push log setSt pending st trace h0 app fire].
      change (steps !! 0%nat) with (Some p). cbn [mbind option_bind].
      unfold each. rewrite tasks_length. set (h' := log _ _).
      change (current (st h')) with 0%nat.
      destruct (each_completes steps rest 0 p h' (length steps - 1)%nat)
        as (h1 & Heach & Hsync & _ & hf & Hticks & Hquiet & Htrace); try done.
      { simpl. lia. }
      rewrite Heach. cbn [mbind option_bind].
      rewrite unsync_id in Hticks by (by rewrite Hsync).
      exists hf. done.
    + set (h' := log _ _).
      change (current (st h')) with 0%nat.
      destruct (each_completes steps rest 0 p h' (length steps - 1)%nat)
        as (h1 & Heach & Hsync & Hcall & hf & Hticks & Hquiet & Htrace); try done.
      { simpl. lia. }
      rewrite Heach. cbn [mbind option_bind].
      destruct Hcall as (evs & Htr & Hq & Htimer); [done|].
      eexists. split; [done|]. split; [done|]. split.
      { cbn. rewrite Htr. subst h' h0. cbn. repeat constructor. done. }
      split.
      { intros Hall. inversion Hall; subst.
        destruct Htimer as [e He]; [done|]. exists e. cbn. done. }
      exists hf. split.
      { simpl length.
        replace (S (S (length rest))) with (S (length rest) + 1)%nat by lia.
        by apply ticks_more. }
      split; [done|]. rewrite Htrace. done.
Qed.


Lemma owed_in_order pre : forall j rs e p post,
  truthy e = false ->
  Forall (fun q => truthy (err q) = false) pre ->
  truthy (err p) = true \/ post = [] ->
  owed j rs e (pre ++ p :: post)
  = in_order j (pre ++ [p]) ++ [Terminal (err p) (rs ++ (result <$> pre ++ [p]))].
Proof.
  induction pre as [|q pre IH]; intros j rs e p post He Hpre Hlast; simpl; rewrite He.
  - do 2 f_equal. destruct post as [|q post]; simpl.
    + done.
    + destruct Hlast as [-> | ?]; done.
  - inversion Hpre as [|? ? Hq Hpre']; subst.
    rewrite (IH _ _ _ _ _ Hq Hpre' Hlast). rewrite <- app_assoc. done.
Qed.

(** Every list of steps but the empty one ends with its first failing step,
    or else with its last step. *)
Lemma steps_split (steps : list Step) :
  steps <> [] ->
  exists pre p post,
    steps = pre ++ p :: post
    /\ Forall (fun q => truthy (err q) = false) pre
    /\ (truthy (err p) = true \/ post = []).
Proof.
  induction steps as [|q steps IH]; [done|]. intros _.
  destruct (truthy (err q)) eqn:Hq.
  - exists [], q, steps. split; [done|]. split; [constructor|by left].
  - destruct steps as [|q' steps'].
    + exists [], q, []. split; [done|]. split; [constructor|by right].
    + destruct IH as (pre & p & post & Heq & Hpre & Hlast); [done|].
      exists (q :: pre), p, post. rewrite Heq. split; [done|]. split; [by constructor|done].
Qed.

(** C7: the steps run in order, each one after the step before it has
    reported success; the first step that reports an error is the last one
    to run and the terminal callback gets its error; when all steps succeed
    the terminal callback gets their results in the order of the steps.  The
    steps [pre] succeed and [p] is the step the sequence ends with: the
    first to fail, or the last of the list. *)
Theorem series_runs_steps_in_order (pre post : list Step) (p : Step) :
  Forall (fun q => truthy (err q) = false) pre ->
  truthy (err p) = true \/ post = [] ->
  exists hf,
    run (pre ++ p :: post) (S (length (pre ++ p :: post))) = Some hf
    /\ pending hf = []
    /\ trace hf = in_order 0 (pre ++ [p]) ++ [Terminal (err p) (result <$> pre ++ [p])].
Proof.
  intros Hpre Hlast. unfold run.
  destruct (start_completes (pre ++ p :: post))
    as (h1 & -> & _ & _ & _ & hf & Hticks & Hquiet & Htrace).
  exists hf. split; [done|]. split; [done|].
  rewrite Htrace. by apply owed_in_order.
Qed.

Lemma series_runs_steps_in_order_witness :
  exists hf,
    run ([mkStep false VNull (VNum 1); mkStep true VUndefined (VNum 2)]
           ++ mkStep false (VBool true) (VNum 3) :: [mkStep false VNull (VNum 4)]) 5 = Some hf
    /\ pending hf = []
    /\ trace hf = [Started 0; Reported 0 VNull; Started 1; Reported 1 VUndefined;
                   Started 2; Reported 2 (VBool true);
                   Terminal (VBool true) [VNum 1; VNum 2; VNum 3]].
Proof.
  apply (series_runs_steps_in_order
           [mkStep false VNull (VNum 1); mkStep true VUndefined (VNum 2)]
           [mkStep false VNull (VNum 4)]
           (mkStep false (VBool true) (VNum 3))).
  - repeat constructor.
  - left. reflexivity.
Defined.

(** C6: when every step reports before it returns, [series] returns
    without having called the terminal callback and leaves exactly one timer
    with the host; the callback runs when the host fires that timer.  With
    no steps the timer carries the error [null] and no results. *)
Theorem series_terminal_is_deferred (steps : list Step) :
  Forall (fun q => async q = false) steps ->
  exists h1 e,
    start steps = Some h1
    /\ quiet (trace h1)
    /\ pending h1 = [Timer e]
    /\ tick steps h1 = Some (mkHost (st h1) (trace h1 ++ [Terminal e (results (st h1))]) [])
    /\ start [] = Some (mkHost (mkSeriesSt [] 0 false) [] [Timer VNull]).
Proof.
  intros Hsync.
  destruct (start_completes steps) as (h1 & Hstart & _ & Hq & Htimer & _).
  destruct (Htimer Hsync) as [e He].
  exists h1, e. split; [done|]. split; [done|]. split; [done|]. split; [|done].
  unfold tick. rewrite He. done.
Qed.

Lemma series_terminal_is_deferred_witness :
  exists h1 e,
    start [mkStep false VNull (VNum 1); mkStep false VUndefined (VNum 2)] = Some h1
    /\ quiet (trace h1)
    /\ pending h1 = [Timer e]
    /\ tick [mkStep false VNull (VNum 1); mkStep false VUndefined (VNum 2)] h1
       = Some (mkHost (st h1) (trace h1 ++ [Terminal e (results (st h1))]) [])
    /\ start [] = Some (mkHost (mkSeriesSt [] 0 false) [] [Timer VNull]).
Proof.
  apply (series_terminal_is_deferred [mkStep false VNull (VNum 1); mkStep false VUndefined (VNum 2)]).
  repeat constructor.
Defined.

(** Whatever the steps do, [series] never calls the terminal callback
    before it returns. *)
Lemma series_call_is_quiet (steps : list Step) :
  exists h1, start steps = Some h1 /\ quiet (trace h1).
Proof.
  destruct (start_completes steps) as (h1 & Hstart & _ & Hq & _). eauto.
Qed.

End SeriesFacts.

Module SeriesMore.
Import Series SeriesHost SeriesSpec SeriesTurns SeriesFacts.

Section more.
Variable steps : list Step.

Local Abbreviation each_n := (Series.each_n st setSt (tasks steps) cb setTimeout_end).

Lemma done_one_job e h :
  pending h = [] ->
  exists h1,
    done st cb setTimeout_end e h = Some h1
    /\ isSync (st h1) = isSync (st h)
    /\ one_job (length steps) h1.
Proof.
  intros Hp. unfold done, one_job. destruct (isSync (st h)) eqn:Hs.
  - eexists. split; [done|]. cbn. rewrite Hp. split; [done|]. right. left. eauto.
  - eexists. split; [done|]. cbn. rewrite Hp. split; [done|]. by left.
Qed.

Lemma each_n_one_job n : forall e r h,
  pending h = [] -> (length steps - S (current (st h)) <= n)%nat ->
  exists h1,
    each_n n e r h = Some h1
    /\ isSync (st h1) = isSync (st h)
    /\ one_job (length steps) h1.
Proof.
  induction n as [|n IH]; intros e r h Hp Hn.
  - rewrite each_n_last.
    2:{ destruct (truthy e); [by right|left; lia]. }
    destruct (done_one_job e
                (setSt (mkSeriesSt (results (st h) ++ [r]) (S (current (st h))) (isSync (st h))) h))
      as (h1 & Hd & Hs1 & Hone); [done|].
    exists h1. split; [done|]. split; [exact Hs1|exact Hone].
  - destruct (decide ((length steps <= S (current (st h)))%nat \/ truthy e = true)) as [Hl|Hl].
    + rewrite each_n_last by done.
      destruct (done_one_job e
                  (setSt (mkSeriesSt (results (st h) ++ [r]) (S (current (st h))) (isSync (st h))) h))
        as (h1 & Hd & Hs1 & Hone); [done|].
      exists h1. split; [done|]. split; [exact Hs1|exact Hone].
    + assert ((S (current (st h)) < length steps)%nat /\ truthy e = false) as [Hlt He].
      { split; [lia|]. destruct (truthy e); [|done]. exfalso. apply Hl. by right. }
      destruct (lookup_lt_is_Some_2 steps _ Hlt) as [q Hq].
      rewrite (each_n_next steps _ _ _ _ q) by done.
      unfold task. destruct (async q).
      * eexists. split; [done|]. split; [done|].
        right. right. eexists. cbn. rewrite Hp. done.
      * edestruct (IH (err q) (result q)) as (h1 & -> & Hs & Hone);
          [| |exists h1; split; [done|]; split; [|exact Hone]].
        -- cbn. done.
        -- cbn. lia.
        -- rewrite Hs. done.
Qed.

Lemma tick_one_job h :
  isSync (st h) = false ->
  (pending h = [] \/ (exists e, pending h = [Timer e])
   \/ exists j, pending h = [Completion j] /\ j = current (st h) /\ (j < length steps)%nat) ->
  exists h',
    tick steps h = Some h' /\ isSync (st h') = false
    /\ (pending h' = []
        \/ exists j, pending h' = [Completion j] /\ j = current (st h') /\ (j < length steps)%nat).
Proof.
  intros Hs [Hp|[(e & Hp)|(j & Hp & Hj & Hlt)]]; unfold tick; rewrite Hp.
  - exists h. by auto.
  - cbn. eexists. split; [done|]. cbn. by auto.
  - cbn [fire]. destruct (lookup_lt_is_Some_2 steps _ Hlt) as [q Hq]. rewrite Hq.
    cbn [mbind option_bind]. unfold each. rewrite tasks_length.
    edestruct (each_n_one_job (length steps - S (current (st h))) (err q) (result q))
      as (h1 & Heach & Hs1 & Hone); [| |cbn [st log setSt current] in *; rewrite Heach].
    + done.
    + cbn. lia.
    + exists h1. split; [done|]. cbn in Hs1. rewrite Hs in Hs1. split; [done|].
      destruct Hone as [?|[(e & _ & Hsync)|?]]; [by left|congruence|by right].
Qed.

Lemma ticks_one_job n : forall h,
  isSync (st h) = false ->
  (pending h = [] \/ (exists e, pending h = [Timer e])
   \/ exists j, pending h = [Completion j] /\ j = current (st h) /\ (j < length steps)%nat) ->
  exists h',
    ticks steps n h = Some h'
    /\ (length (pending h') <= 1)%nat
    /\ (forall e, Timer e ∈ pending h' -> n = 0%nat).
Proof.
  induction n as [|n IH]; intros h Hs Hone.
  - exists h. split; [done|]. split; [|done].
    destruct Hone as [->|[(e & ->)|(j & -> & _)]]; cbn; lia.
  - destruct (tick_one_job h Hs Hone) as (h1 & Htick & Hs1 & Hone1).
    rewrite ticks_S, Htick. cbn [mbind option_bind].
    destruct (IH h1 Hs1) as (h' & Hticks & Hlen & Htimer).
    { destruct Hone1 as [?|?]; auto. }
    exists h'. split; [done|]. split; [done|].
    intros e He. specialize (Htimer e He). subst n. cbn in Hticks. simplify_eq.
    destruct Hone1 as [Hp|(j & Hp & _)]; rewrite Hp in He.
    + by apply elem_of_nil in He.
    + apply list_elem_of_singleton in He. done.
Qed.

(** *** The turns a sequence takes *)

Lemma each_direct rest : forall i p h n,
  steps !! i = Some p -> drop (S i) steps = rest ->
  current (st h) = i -> pending h = [] -> isSync (st h) = false ->
  (length rest <= n)%nat ->
  (exists hf,
     each_n n (err p) (result p) h ≫= ticks steps (turns_left (err p) rest) = Some hf
     /\ pending hf = []
     /\ trace hf = trace h ++ owed (S i) (results (st h) ++ [result p]) (err p) rest)
  /\ (forall m, (m < turns_left (err p) rest)%nat ->
        exists hm, each_n n (err p) (result p) h ≫= ticks steps m = Some hm
                   /\ pending hm <> []).
Proof.
  induction rest as [|q rest IH]; intros i p h n Hp Hdrop Hcur Hpend Hs Hn.
  - apply drop_nil_length in Hdrop.
    rewrite each_n_last by (left; lia).
    unfold done. cbn [st setSt isSync]. rewrite Hs. cbn. split; [|intros m Hm; lia].
    eexists. split; [done|]. cbn. done.
  - apply drop_cons_lookup in Hdrop as (Hq & Hdrop & Hlt).
    cbn [turns_left owed]. destruct (truthy (err p)) eqn:Herr.
    + rewrite each_n_last by (by right).
      unfold done. cbn [st setSt isSync]. rewrite Hs. cbn. split; [|intros m Hm; lia].
      eexists. split; [done|]. cbn. done.
    + destruct n as [|n]; [cbn in Hn; lia|]. cbn in Hn.
      rewrite (each_n_next steps _ _ _ _ q) by (by rewrite ?Hcur).
      rewrite Hcur. set (h0 := setSt _ h). unfold task.
      destruct (async q) eqn:Hasync.
      * cbn [mbind option_bind].
        set (h1 := push _ _).
        assert (tick steps h1
                = Series.each st setSt (tasks steps) cb setTimeout_end (err q) (result q)
                    (log (Reported (S i) (err q)) (mkHost (st h1) (trace h1) []))) as Htick.
        { unfold tick. subst h1 h0. cbn [push log setSt pending st trace]. rewrite Hpend.
          cbn [app fire]. rewrite Hq. done. }
        unfold each in Htick. rewrite tasks_length in Htick.
        set (h' := log _ _) in Htick.
        destruct (IH (S i) q h' (length steps - S (S i))%nat) as [(hf & Hrun & Hq1 & Htr) Hbusy];
          try done.
        { apply (f_equal length) in Hdrop. rewrite length_drop in Hdrop. lia. }
        change (current (st h')) with (S i) in Htick.
        split.
        -- exists hf. cbn [Nat.add]. rewrite ticks_S, Htick. split; [done|]. split; [done|].
           rewrite Htr. subst h' h1 h0. cbn. rewrite <- !app_assoc. done.
        -- intros [|m] Hm.
           ++ exists h1. split; [done|]. subst h1. cbn. rewrite Hpend. done.
           ++ rewrite ticks_S, Htick. apply Hbusy. cbn in Hm. lia.
      * set (h' := log (Reported _ _) _).
        destruct (IH (S i) q h' n) as [(hf & Hrun & Hq1 & Htr) Hbusy]; try done; [lia|].
        split.
        -- exists hf. cbn [Nat.add]. split; [done|]. split; [done|].
           rewrite Htr. subst h' h0. cbn. rewrite <- !app_assoc. done.
        -- intros m Hm. apply Hbusy. cbn in Hm. lia.
Qed.

Lemma each_deferred rest : forall i p h n,
  steps !! i = Some p -> drop (S i) steps = rest ->
  current (st h) = i -> pending h = [] -> isSync (st h) = true ->
  (length rest <= n)%nat ->
  exists h1,
    each_n n (err p) (result p) h = Some h1
    /\ (exists hf,
          ticks steps (Nat.max 1 (turns_left (err p) rest)) (unsync h1) = Some hf
          /\ pending hf = []
          /\ trace hf = trace h ++ owed (S i) (results (st h) ++ [result p]) (err p) rest)
    /\ (forall m, (m < Nat.max 1 (turns_left (err p) rest))%nat ->
          exists hm, ticks steps m (unsync h1) = Some hm /\ pending hm <> []).
Proof.
  induction rest as [|q rest IH]; intros i p h n Hp Hdrop Hcur Hpend Hs Hn.
  - apply drop_nil_length in Hdrop.
    rewrite each_n_last by (left; lia).
    unfold done. cbn [st setSt isSync]. rewrite Hs. cbn [setTimeout_end turns_left Nat.max].
    eexists. split; [done|]. split.
    + rewrite ticks_S. unfold tick. cbn. rewrite Hpend. cbn. eexists. done.
    + intros m Hm. assert (m = 0)%nat as -> by lia. eexists. split; [done|].
      cbn. rewrite Hpend. done.
  - apply drop_cons_lookup in Hdrop as (Hq & Hdrop & Hlt).
    cbn [turns_left owed]. destruct (truthy (err p)) eqn:Herr.
    + rewrite each_n_last by (by right).
      unfold done. cbn [st setSt isSync]. rewrite Hs. cbn [setTimeout_end Nat.max].
      eexists. split; [done|]. split.
      * rewrite ticks_S. unfold tick. cbn. rewrite Hpend. cbn. eexists. done.
      * intros m Hm. assert (m = 0)%nat as -> by lia. eexists. split; [done|].
        cbn. rewrite Hpend. done.
    + destruct n as [|n]; [cbn in Hn; lia|]. cbn in Hn.
      rewrite (each_n_next steps _ _ _ _ q) by (by rewrite ?Hcur).
      rewrite Hcur. set (h0 := setSt _ h). unfold task.
      destruct (async q) eqn:Hasync.
      * eexists. split; [done|].
        set (h1 := unsync _).
        assert (tick steps h1
                = Series.each st setSt (tasks steps) cb setTimeout_end (err q) (result q)
                    (log (Reported (S i) (err q)) (mkHost (st h1) (trace h1) []))) as Htick.
        { unfold tick. subst h1 h0. cbn [unsync push log setSt pending st trace]. rewrite Hpend.
          cbn [app fire]. rewrite Hq. done. }
        unfold each in Htick. rewrite tasks_length in Htick.
        set (h' := log _ _) in Htick.
        destruct (each_direct rest (S i) q h' (length steps - S (S i))%nat)
          as [(hf & Hrun & Hq1 & Htr) Hbusy]; try done.
        { apply (f_equal length) in Hdrop. rewrite length_drop in Hdrop. lia. }
        change (current (st h')) with (S i) in Htick.
        replace (Nat.max 1 (1 + turns_left (err q) rest))
          with (S (turns_left (err q) rest)) by lia.
        split.
        -- exists hf. rewrite ticks_S, Htick. split; [done|]. split; [done|].
           rewrite Htr. subst h' h1 h0. cbn. rewrite <- !app_assoc. done.
        -- intros [|m] Hm.
           ++ exists h1. split; [done|]. subst h1. cbn. rewrite Hpend. done.
           ++ rewrite ticks_S, Htick. apply Hbusy. lia.
      * set (h' := log (Reported _ _) _).
        destruct (IH (S i) q h' n) as (h1 & Heach & (hf & Hrun & Hq1 & Htr) & Hbusy);
          try done; [lia|].
        exists h1. split; [done|]. cbn [Nat.add]. split; [|done].
        exists hf. split; [done|]. split; [done|].
        rewrite Htr. subst h' h0. cbn. rewrite <- !app_assoc. done.
Qed.

End more.

Lemma start_one_job steps :
  exists h1, start steps = Some h1 /\ isSync (st h1) = false
    /\ (pending h1 = [] \/ (exists e, pending h1 = [Timer e])
        \/ exists j, pending h1 = [Completion j] /\ j = current (st h1) /\ (j < length steps)%nat).
Proof.
  unfold start, series. destruct steps as [|p rest].
  - cbn. eexists. split; [done|]. split; [done|]. right. left. eauto.
  - set (steps := p :: rest).
    change (tasks steps) with (task 0 p :: imap (task ∘ S) rest) at 1.
    cbv iota beta. unfold task at 1.
    destruct (async p).
    + cbn [mbind option_bind]. eexists. split; [done|]. split; [done|]. right. right.
      exists 0%nat. cbn. split; [done|]. split; [done|lia].
    + unfold each. rewrite tasks_length. set (h' := log _ _).
      destruct (each_n_one_job steps (length steps - S (current (st h'))) (err p) (result p) h')
        as (h1 & Heach & Hs & Hone); [done|done|].
      rewrite Heach. cbn [mbind option_bind]. eexists. split; [done|]. split; [done|].
      cbn [pending st setSt current].
      destruct Hone as [?|[(e & ? & _)|?]]; eauto.
Qed.

Lemma start_turns steps :
  exists h1,
    start steps = Some h1
    /\ (exists hf,
          ticks steps (Nat.max 1 (turns_left VNull steps)) h1 = Some hf
          /\ pending hf = []
          /\ trace hf = owed 0 [] VNull steps)
    /\ (forall m, (m < Nat.max 1 (turns_left VNull steps))%nat ->
          exists hm, ticks steps m h1 = Some hm /\ pending hm <> []).
Proof.
  unfold start, series. destruct steps as [|p rest].
  - cbn. eexists. split; [done|]. split; [eexists; done|].
    intros m Hm. assert (m = 0)%nat as -> by lia. eexists. done.
  - set (steps := p :: rest).
    change (tasks steps) with (task 0 p :: imap (task ∘ S) rest) at 1.
    cbv iota beta. unfold task at 1. set (h0 := log (Started 0) _).
    change (turns_left VNull steps)
      with ((if async p then 1 else 0) + turns_left (err p) rest)%nat.
    change (owed 0 [] VNull steps)
      with (Started 0 :: Reported 0 (err p) :: owed 1 ([] ++ [result p]) (err p) rest).
    destruct (async p) eqn:Hasync.
    + cbn [mbind option_bind]. eexists. split; [done|].
      set (h1 := setSt _ _).
      assert (tick steps h1
              = Series.each st setSt (tasks steps) cb setTimeout_end (err p) (result p)
                  (log (Reported 0 (err p)) (mkHost (st h1) (trace h1) []))) as Htick by done.
      unfold each in Htick. rewrite tasks_length in Htick.
      set (h' := log _ _) in Htick.
      destruct (each_direct steps rest 0 p h' (length steps - 1)%nat)
        as [(hf & Hrun & Hq1 & Htr) Hbusy]; try done.
      { cbn. lia. }
      change (current (st h')) with 0%nat in Htick.
      replace (Nat.max 1 (1 + turns_left (err p) rest))
        with (S (turns_left (err p) rest)) by lia.
      split.
      * exists hf. rewrite ticks_S, Htick. done.
      * intros [|m] Hm.
        -- exists h1. done.
        -- rewrite ticks_S, Htick. apply Hbusy. lia.
    + set (h' := log _ _). unfold each. rewrite tasks_length.
      destruct (each_deferred steps rest 0 p h' (length steps - 1)%nat)
        as (h1 & Heach & (hf & Hrun & Hq1 & Htr) & Hbusy); try done.
      { cbn. lia. }
      change (current (st h')) with 0%nat. rewrite Heach. cbn [mbind option_bind].
      eexists. split; [done|]. cbn [Nat.add]. split; [|exact Hbusy].
      exists hf. done.
Qed.

Lemma turns_left_failed e rest : truthy e = true -> turns_left e rest = 0%nat.
Proof. intros He. destruct rest; cbn; by rewrite ?He. Qed.

Lemma turns_left_asyncs pre : forall e p post,
  truthy e = false ->
  Forall (fun q => truthy (err q) = false) pre ->
  truthy (err p) = true \/ post = [] ->
  turns_left e (pre ++ p :: post) = asyncs (pre ++ [p]).
Proof.
  induction pre as [|q pre IH]; intros e p post He Hpre Hlast; cbn; rewrite He.
  - assert (turns_left (err p) post = 0%nat) as ->; [|done].
    destruct Hlast as [?| ->]; [by apply turns_left_failed|done].
  - inversion Hpre as [|? ? Hq Hpre']; subst.
    by rewrite (IH _ _ _ Hq Hpre' Hlast).
Qed.

(** X3: between two turns of the host at most one job of the sequence is
    with the host, so no two steps are ever under way together; and the
    timer is only set by the call itself: once the host has taken a turn, no
    timer is left or set again.  The sequence never gets stuck. *)
Theorem series_has_one_job_at_a_time (steps : list Step) (n : nat) :
  exists h,
    run steps n = Some h
    /\ (length (pending h) <= 1)%nat
    /\ (forall e, Timer e ∈ pending h -> n = 0%nat).
Proof.
  unfold run. destruct (start_one_job steps) as (h1 & -> & Hs & Hone).
  cbn [mbind option_bind]. by apply ticks_one_job.
Qed.

(** X4: the sequence takes one turn of the host for every asynchronous step
    that runs, and the single turn of the timer when no step that runs is
    asynchronous: after that many turns the terminal callback has been
    called and nothing is left with the host, and before that something
    still is.  So after an asynchronous step the terminal callback is called
    within the turn in which the last step reports, without a timer. *)
Theorem series_takes_one_turn_per_async_step (pre post : list Step) (p : Step) :
  Forall (fun q => truthy (err q) = false) pre ->
  truthy (err p) = true \/ post = [] ->
  (exists hf,
     run (pre ++ p :: post) (turns (pre ++ [p])) = Some hf
     /\ pending hf = []
     /\ trace hf = in_order 0 (pre ++ [p]) ++ [Terminal (err p) (result <$> pre ++ [p])])
  /\ (forall m, (m < turns (pre ++ [p]))%nat ->
        exists hm, run (pre ++ p :: post) m = Some hm /\ pending hm <> []).
Proof.
  intros Hpre Hlast. unfold run, turns.
  destruct (start_turns (pre ++ p :: post)) as (h1 & -> & (hf & Hticks & Hq & Htr) & Hbusy).
  rewrite turns_left_asyncs in * by done. cbn [mbind option_bind]. split; [|exact Hbusy].
  exists hf. split; [done|]. split; [done|].
  rewrite Htr. by apply owed_in_order.
Qed.

Lemma series_takes_one_turn_per_async_step_witness :
  (exists hf,
     run ([mkStep true VNull (VNum 1); mkStep false VUndefined (VNum 2)]
            ++ mkStep true (VBool true) (VNum 3) :: [mkStep true VNull (VNum 4)]) 2 = Some hf
     /\ pending hf = []
     /\ trace hf = [Started 0; Reported 0 VNull; Started 1; Reported 1 VUndefined;
                    Started 2; Reported 2 (VBool true);
                    Terminal (VBool true) [VNum 1; VNum 2; VNum 3]])
  /\ (forall m, (m < 2)%nat ->
        exists hm,
          run ([mkStep true VNull (VNum 1); mkStep false VUndefined (VNum 2)]
                 ++ mkStep true (VBool true) (VNum 3) :: [mkStep true VNull (VNum 4)]) m
          = Some hm
          /\ pending hm <> []).
Proof.
  apply (series_takes_one_turn_per_async_step
           [mkStep true VNull (VNum 1); mkStep false VUndefined (VNum 2)]
           [mkStep true VNull (VNum 4)]
           (mkStep true (VBool true) (VNum 3))).
  - repeat constructor.
  - left. reflexivity.
Defined.

End SeriesMore.

Module WhilstFacts.
Import Whilst WhilstProbe.

Lemma next_probe fuel : forall n d pk,
  (n <= fuel)%nat -> (d <= pk)%nat ->
  next test iterator callback fuel VUndefined (mkProbe n d pk)
  = Some (mkProbe 0 d (Nat.max pk (d + 2 * n))).
Proof.
  induction fuel as [|fuel IH]; intros n d pk Hn Hd.
  - assert (n = 0)%nat as -> by lia. simpl. unfold callback. do 2 f_equal. lia.
  - destruct n as [|n].
    + simpl. unfold callback. do 2 f_equal. lia.
    + cbn [next truthy test remaining]. 
      replace (0 <? S n)%nat with true by (symmetry; apply Nat.ltb_lt; lia).
      unfold iterator at 1. cbn [remaining depth peak].
      replace (S n - 1)%nat with n by lia.
      rewrite IH by lia. cbn. do 2 f_equal; lia.
Qed.

Lemma loop_probe n : loop n = Some (mkProbe 0 0 (2 * n)).
Proof.
  unfold loop, whilst. destruct n as [|n]; [done|].
  cbn [test remaining].
  replace (0 <? S n)%nat with true by (symmetry; apply Nat.ltb_lt; lia).
  unfold iterator at 1. cbn [remaining depth peak].
  replace (S n - 1)%nat with n by lia.
  rewrite next_probe by lia. cbn. do 2 f_equal; lia.
Qed.

(** C9 as amended: the repeater recurses, so [n] iterations that finish
    before they return leave two more frames each on the stack: the deepest
    point of the loop is [2 * n] frames above its caller. *)
Theorem whilst_stack_grows_linearly (n : nat) :
  exists s, loop n = Some s /\ remaining s = 0%nat /\ depth s = 0%nat /\ peak s = (2 * n)%nat.
Proof. rewrite loop_probe. eexists. done. Qed.

(** C9 as stated fails: no constant bounds the depth of the stack for all
    numbers of synchronous iterations. *)
Lemma whilst_stack_not_bounded :
  ~ exists c, forall n, exists s, loop n = Some s /\ (peak s <= c)%nat.
Proof.
  intros [c Hc]. destruct (Hc (S c)) as (s & Hs & Hle).
  rewrite loop_probe in Hs. simplify_eq. simpl in Hle. lia.
Qed.

End WhilstFacts.

Module WhilstSyncFacts.
Import Whilst WhilstSync.

Section facts.
Context {State : Type}.
Variable test : State -> bool.
Variable work : State -> State * value.
Variable callback : value -> State -> option State.

(** [whilst] is [next] called without an error. *)
Lemma whilst_next fuel s :
  whilst test (iterator work) callback fuel s
  = next test (iterator work) callback (S fuel) VNull s.
Proof. done. Qed.

Lemma next_rounds k : forall fuel e s,
  truthy e = false ->
  (forall i, (i < k)%nat ->
     test (rounds work i s) = true /\ truthy (work (rounds work i s)).2 = false) ->
  test (rounds work k s) = false ->
  (k <= fuel)%nat ->
  next test (iterator work) callback fuel e s = callback VNull (rounds work k s).
Proof.
  induction k as [|k IH]; intros fuel e s He Hgo Hstop Hfuel.
  - cbn in Hstop. destruct fuel; cbn; by rewrite He, Hstop.
  - destruct fuel as [|fuel]; [lia|].
    destruct (Hgo 0%nat) as [Ht Hw]; [lia|]. cbn in Ht, Hw.
    cbn [next]. rewrite He, Ht. unfold iterator at 1.
    apply IH; [done| |done|lia].
    intros i Hi. apply (Hgo (S i)). lia.
Qed.

Lemma next_error k : forall fuel e s,
  truthy e = false ->
  (forall i, (i < k)%nat ->
     test (rounds work i s) = true /\ truthy (work (rounds work i s)).2 = false) ->
  test (rounds work k s) = true ->
  truthy (work (rounds work k s)).2 = true ->
  (k < fuel)%nat ->
  next test (iterator work) callback fuel e s
  = callback (work (rounds work k s)).2 (work (rounds work k s)).1.
Proof.
  induction k as [|k IH]; intros fuel e s He Hgo Ht Hbad Hfuel.
  - cbn in Ht, Hbad. destruct fuel as [|fuel]; [lia|].
    cbn [next]. rewrite He, Ht. unfold iterator at 1.
    destruct fuel; cbn; by rewrite Hbad.
  - destruct fuel as [|fuel]; [lia|].
    destruct (Hgo 0%nat) as [Ht0 Hw0]; [lia|]. cbn in Ht0, Hw0.
    cbn [next]. rewrite He, Ht0. unfold iterator at 1.
    apply IH; [done| |done|done|lia].
    intros i Hi. apply (Hgo (S i)). lia.
Qed.

(** X1: on work that reports before it returns, [whilst] is a while loop.
    When the test holds before each of the first [k] rounds, none of them
    reports an error (a falsy report such as [undefined], [null], [0] or
    [false] is no error), and the test fails after round [k], the work runs
    exactly these [k] rounds and the final callback is called with [null] on
    the state they leave. *)
Theorem whilst_repeats_until_test_fails k fuel s :
  (forall i, (i < k)%nat ->
     test (rounds work i s) = true /\ truthy (work (rounds work i s)).2 = false) ->
  test (rounds work k s) = false ->
  (k <= S fuel)%nat ->
  whilst test (iterator work) callback fuel s = callback VNull (rounds work k s).
Proof. intros Hgo Hstop Hfuel. rewrite whilst_next. by apply next_rounds. Qed.

(** X2: the first round that reports an error ends the loop: the final
    callback gets that error, on the state that round leaves, and neither the
    test nor the work runs again, whatever the test would say. *)
Theorem whilst_stops_at_first_error k fuel s :
  (forall i, (i < k)%nat ->
     test (rounds work i s) = true /\ truthy (work (rounds work i s)).2 = false) ->
  test (rounds work k s) = true ->
  truthy (work (rounds work k s)).2 = true ->
  (k <= fuel)%nat ->
  whilst test (iterator work) callback fuel s
  = callback (work (rounds work k s)).2 (work (rounds work k s)).1.
Proof. intros Hgo Ht Hbad Hfuel. rewrite whilst_next. apply next_error; try done. lia. Qed.

End facts.

Lemma whilst_repeats_until_test_fails_witness :
  whilst (below 3) (iterator (count_up 7)) record 2 (mkCounter 0 None)
  = Some (mkCounter 3 (Some VNull)).
Proof.
  apply (whilst_repeats_until_test_fails (below 3) (count_up 7) record 3 2 (mkCounter 0 None)).
  - intros i Hi. destruct i as [|[|[|i]]]; [split; reflexivity ..|lia].
  - reflexivity.
  - lia.
Defined.

Lemma whilst_stops_at_first_error_witness :
  whilst (below 5) (iterator (count_up 2)) record 1 (mkCounter 0 None)
  = Some (mkCounter 2 (Some (VBool true))).
Proof.
  apply (whilst_stops_at_first_error (below 5) (count_up 2) record 1 1 (mkCounter 0 None)).
  - intros i Hi. destruct i as [|i]; [split; reflexivity|lia].
  - reflexivity.
  - reflexivity.
  - lia.
Defined.

End WhilstSyncFacts.

Module TextfitFacts.
Import Series Textfit TextfitSpec.

Lemma numeric_arith f a b : numeric a -> numeric b -> numeric (arith f a b).
Proof. intros [x ->] [y ->]. eexists. done. Qed.

Lemma numeric_js_or a z : numeric a \/ truthy a = false -> numeric (js_or a (VNum z)).
Proof.
  unfold js_or. intros [[x ->]|H].
  - destruct (truthy (VNum x)); eexists; done.
  - rewrite H. eexists; done.
Qed.

Lemma valid_min p : valid p -> numeric (js_or (min p) (VNum 1)).
Proof. intros (a & b & Ha & _). apply numeric_js_or. left. rewrite Ha. by eexists. Qed.

Lemma valid_max p : valid p -> numeric (js_or (max p) (VNum 100)).
Proof. intros (a & b & _ & Hb & _). apply numeric_js_or. left. rewrite Hb. by eexists. Qed.

Lemma numeric_limits p lo hi : valid p -> numeric lo -> numeric hi -> numeric (limits p lo hi).
Proof.
  intros Hv Hlo Hhi. unfold limits, Math_max, Math_min.
  repeat apply numeric_arith; auto using valid_min, valid_max. by eexists.
Qed.

Lemma valid_test1 p :
  valid p -> js_le (js_or (min p) (VNum 1)) (js_or (max p) (VNum 100)) = true.
Proof.
  intros (a & b & -> & -> & Ha). unfold js_or. cbn.
  destruct (a =? 0) eqn:?; destruct (b =? 0) eqn:?; cbn; lia.
Qed.

Create HintDb textfit.

Global Hint Resolve numeric_arith numeric_limits valid_min valid_max : textfit.

Lemma numeric_num z : numeric (VNum z).
Proof. by eexists. Qed.

Lemma numeric_add a b : numeric a -> numeric b -> numeric (js_add a b).
Proof. apply numeric_arith. Qed.

Lemma numeric_sub a b : numeric a -> numeric b -> numeric (js_sub a b).
Proof. apply numeric_arith. Qed.

Lemma numeric_half a b : numeric a -> numeric b -> numeric (parseInt_half a b).
Proof. apply numeric_arith. Qed.

Global Hint Resolve numeric_num numeric_add numeric_sub numeric_half : textfit.

(** Run the engine on a state whose fields are spelled out; the tests
    ([js_le], the layout, the cancellation test) stay as they are. *)
Ltac exec :=
  cbv beta iota zeta delta
    [Textfit.stepCallback each Series.each_n done end_ finish
     step1 step2 step3 Whilst.whilst Whilst.next next1 next2
     iterator1 iterator2 applied1 applied2 resume
     test1 test2 testPrimary testSecondary fitsWidth fitsHeight shouldCancelProcess
     tasks nesting setState setTimeout_end setSt getSt set_low set_high set_mid emit enqueue
     world env out pid props originalWidth originalHeight low high mid seriesSt
     this_pid idCounter fontSize ready queue closures
     results current isSync
     length lookup list_lookup Nat.leb Nat.sub orb truthy fmap option_fmap option_map
     skips_secondary].

Ltac solve_numbers :=
  let Hv := fresh in
  intros Hv;
  try match goal with
      | H : js_le (js_or (min ?p) _) (js_or (max ?p) _) = false |- _ =>
          rewrite (valid_test1 p Hv) in H; discriminate
      end;
  try match goal with
      | H : numbers _ |- _ => destruct (H Hv) as (? & ? & ?)
      end;
  cbv beta iota delta [low high mid props] in *;
  repeat split; eauto 6 with textfit.

Ltac solve_kont :=
  unfold kont_ok; split; [solve_numbers|];
  cbv beta iota delta [low high mid props seriesSt current]; repeat split; done.

Ltac solve_events :=
  first
    [ exists []; split; [by rewrite app_nil_r | constructor]
    | eexists; split; [rewrite <- ?app_assoc; reflexivity|];
      repeat constructor; done ].

Ltac leaf :=
  cbn [mbind option_bind]; exec;
  eexists; split; [reflexivity|];
  unfold returns, hands_back, same_component;
  cbv beta iota zeta delta
    [getSt world env out pid props seriesSt this_pid idCounter fontSize ready queue closures
     results current isSync];
  split;
  [ split; [done|]; split; [done|]; split; [done|]; split; [lia|]; split; [done|];
    first [ left; reflexivity
          | right; eexists _, _; split; [reflexivity|]; solve_kont ]
  | solve_events ].

Ltac split_if :=
  match goal with
  | |- context [if ?b then _ else _] => destruct b eqn:?
  end.

Section blocks.
Variable scrollWidth scrollHeight : value -> Z.

Local Abbreviation each_n :=
  (Series.each_n getSt setSt (tasks scrollWidth scrollHeight)
     (Some (finish)) setTimeout_end).
Local Abbreviation stepCallback := (stepCallback scrollWidth scrollHeight).

(** A callback called with an error ends the run on the spot. *)
Lemma each_error n e r c :
  truthy e = true -> isSync (getSt c) = false ->
  each_n n e r c
  = Some (setSt (mkSeriesSt (results (getSt c) ++ [r]) (S (current (getSt c))) false) c).
Proof.
  intros He Hs. destruct c as [w [p pr ow oh lo hi mi [rs cur sy]] o].
  cbn in Hs. subst sy.
  destruct n; cbn; rewrite He, orb_true_r; cbn; unfold done, end_, finish; cbn;
    rewrite He; done.
Qed.

Lemma limits_applied c :
  current (getSt c) = 2%nat -> isSync (getSt c) = false ->
  mid (env c) = limits (props (env c)) (low (env c)) (high (env c)) ->
  numbers (env c) ->
  exists c', stepCallback VNull VUndefined c = Some c' /\ returns c c'.
Proof.
  intros Hc Hs Hm Hn. destruct c as [w [p pr ow oh lo hi mi [rs cur sy]] o].
  cbn in Hc, Hs, Hm. subst. exec.
  destruct (negb _); leaf.
Qed.

(** Every callback but the last returns to the host in good order. *)
Lemma resume_returns k c :
  k <> KReady -> kont_ok k (env c) -> isSync (getSt c) = false ->
  exists c', resume scrollWidth scrollHeight k c = Some c' /\ returns c c'.
Proof.
  intros Hk [Hn Hok] Hs. destruct c as [w [p pr ow oh lo hi mi [rs cur sy]] o].
  cbn in Hs. subst sy.
  destruct k; [| | |done]; cbn in Hok; destruct_and?; subst.
  - exec. repeat split_if; leaf.
  - exec. repeat split_if; leaf.
  - exec. repeat split_if; leaf.
Qed.

(** The last callback calls [onReady] with the candidate of step 3. *)
Lemma resume_ready c :
  resume scrollWidth scrollHeight KReady c
  = Some (emit (OnReady (pid (env c)) (mid (env c))) c).
Proof. done. Qed.

(** The timer of [series] is never set: [process] always hands a callback
    to [setState] before [series] returns. *)
Lemma series_returns w l o :
  pid l = this_pid w -> seriesSt l = mkSeriesSt [] 0 true ->
  low l = js_or (min (props l)) (VNum 1) ->
  high l = js_or (max (props l)) (VNum 100) ->
  exists c',
    series getSt setSt (tasks scrollWidth scrollHeight) (Some finish) setTimeout_end
      (mkCtx w l o) = Some c'
    /\ returns (setSt (mkSeriesSt [] 0 false) (mkCtx w l o)) c'.
Proof.
  intros Hp Hst Hlo Hhi. destruct l as [p pr ow oh lo hi mi st].
  destruct w as [tp idc fs rd qu cl]. cbn in *. subst.
  unfold series. exec. rewrite Nat.eqb_refl. cbn [negb].
  repeat split_if; leaf.
Qed.

(** A run that returns to the host leaves the component in order. *)
Lemma suspend_inv c c' :
  Forall (job_ok (world c)) (queue (world c)) ->
  NoDup (omap job_pid (queue (world c))) ->
  (forall q, q ∈ omap job_pid (queue (world c)) -> (q <= idCounter (world c))%nat) ->
  (forall q l, closures (world c) !! q = Some l -> pid l = q /\ (q <= idCounter (world c))%nat) ->
  pid (env c) ∉ omap job_pid (queue (world c)) ->
  (pid (env c) <= idCounter (world c))%nat ->
  isSync (getSt c) = false ->
  hands_back c c' ->
  inv (suspend c').1.
Proof.
  intros Hjobs Hnodup Hfresh Hcl Hnotin Hle Hsync
    (Hpid & Hprops & Hs & _ & (Htp & Hid & Hfs & Hrd & Hclos) & Hq).
  assert (forall j, j ∈ queue (world c) -> job_ok (suspend c').1 j) as Hold.
  { intros j Hj. unfold suspend. cbn [fst].
    assert (job_ok (world c) j) as Hok by (by eapply Forall_forall in Hjobs).
    assert (job_pid j <> Some (pid (env c'))) as Hne.
    { rewrite Hpid. intros Heq. apply Hnotin. apply list_elem_of_omap. eauto. }
    destruct j as [u [[q k]|]|q e]; cbn in *; [|done|done].
    destruct Hok as (l' & Hl' & Hrest). exists l'. split; [|done].
    rewrite lookup_insert_ne by congruence. by rewrite Hclos. }
  assert (forall q l, closures (suspend c').1 !! q = Some l ->
                      pid l = q /\ (q <= idCounter (suspend c').1)%nat) as Hcl'.
  { intros q l. unfold suspend. cbn. rewrite Hid. rewrite lookup_insert.
    case_decide as Hd; [|rewrite Hclos; by apply Hcl].
    intros [= <-]. subst q. split; [done|]. by rewrite Hpid. }
  destruct Hq as [Hq | (u & k & Hq & Hk)].
  - split; [| | |exact Hcl'];
      unfold suspend; cbn [fst queue idCounter closures]; rewrite ?Hq, ?Hid; try done.
    apply Forall_forall. intros j Hj. apply Hold. done.
  - split; [| | |exact Hcl'];
      unfold suspend; cbn [fst queue idCounter closures]; rewrite ?Hq, ?Hid.
    + apply Forall_app. split.
      * apply Forall_forall. intros j Hj. by apply Hold.
      * constructor; [|done]. cbn. exists (env c'). rewrite <- Hpid, lookup_insert_eq.
        split; [done|]. split; [done|]. split; [|done]. unfold getSt in *. congruence.
    + rewrite omap_app. cbn. apply NoDup_app. split; [done|]. split.
      * intros q Hq1 Hq2. apply list_elem_of_singleton in Hq2. subst. done.
      * apply NoDup_singleton.
    + intros q. rewrite omap_app. cbn. rewrite elem_of_app, list_elem_of_singleton.
      intros [?| ->]; [by apply Hfresh|done].
Qed.

Lemma job_ok_closures w w' j :
  closures w' = closures w -> job_ok w j -> job_ok w' j.
Proof. intros Hcl. destruct j as [u [[q k]|]|q e]; cbn; rewrite ?Hcl; done. Qed.

Lemma keeps_props_refl ev w w' : closures w' = closures w -> keeps_props ev w w'.
Proof.
  intros Hcl. split; intros q l Hl.
  - exists l. by rewrite Hcl.
  - left. exists l. by rewrite <- Hcl.
Qed.

Lemma keeps_props_suspend ev w c c' :
  closures (world c) = closures w ->
  (exists l, closures w !! pid (env c) = Some l /\ props l = props (env c))
  \/ (closures w !! pid (env c) = None /\ exists refs, ev = Request (props (env c)) refs) ->
  hands_back c c' ->
  keeps_props ev w (suspend c').1.
Proof.
  intros Hw Hrun (Hpid & Hprops & _ & _ & (_ & _ & _ & _ & Hclos) & _).
  split; intros q l Hl; unfold suspend in *; cbn in *; rewrite lookup_insert in *;
    case_decide as Hd.
  - subst q. exists (env c'). split; [done|]. rewrite Hprops, Hpid in *.
    destruct Hrun as [(l0 & Hl0 & Hp0)|[Hnone _]].
    + rewrite Hl in Hl0. by injection Hl0 as <-.
    + by rewrite Hl in Hnone.
  - exists l. by rewrite Hclos, Hw.
  - injection Hl as <-. subst q. rewrite Hprops, Hpid.
    destruct Hrun as [(l0 & Hl0 & Hp0)|[_ Hreq]]; [left; by exists l0|by right].
  - left. exists l. by rewrite <- Hw, <- Hclos.
Qed.

Lemma process_spec p refs w :
  inv w ->
  exists w' out,
    process scrollWidth scrollHeight p refs w = Some (w', out)
    /\ inv w' /\ Forall (emitted_ok w w') out
    /\ keeps_props (Request p refs) w w'.
Proof.
  intros Hinv. unfold process.
  destruct refs as [[ow oh]|]; [|exists w, []; by auto using keeps_props_refl].
  destruct (js_le oh (VNum 0) || isNaN oh);
    [eexists _, _; split; [done|]; split; [done|]; split;
      [by repeat constructor|by apply keeps_props_refl]|].
  destruct (js_le ow (VNum 0) || isNaN ow);
    [eexists _, _; split; [done|]; split; [done|]; split;
      [by repeat constructor|by apply keeps_props_refl]|].
  cbn [uniqueId]. unfold setState. cbn [fmap option_fmap option_map env world out].
  set (id := S (idCounter w)).
  set (l := mkLocals _ _ _ _ _ _ _ _).
  set (w1 := enqueue _ _).
  destruct (series_returns w1 l []) as (c' & -> & Hret & evs & Hout & Hevs); try done.
  cbn [mbind option_bind].
  set (c := setSt _ _) in *.
  destruct Hinv as [Hjobs Hnodup Hfresh Hcl].
  assert (omap job_pid (queue (world c)) = omap job_pid (queue w)) as Hpids.
  { cbn. rewrite omap_app. cbn. by rewrite app_nil_r. }
  assert (id ∉ omap job_pid (queue w)) as Hnotin.
  { intros Hin. apply Hfresh in Hin. lia. }
  eexists _, _. split; [by rewrite (surjective_pairing (suspend c'))|].
  split; [|split].
  - apply (suspend_inv c c'); rewrite ?Hpids; try done.
    + cbn. apply Forall_app. split; [|by repeat constructor].
      eapply Forall_impl; [exact Hjobs|]. intros j. by apply job_ok_closures.
    + cbn. intros q Hq. apply Hfresh in Hq. lia.
    + cbn. intros q l' Hl'. destruct (Hcl _ _ Hl'). split; [done|lia].
  - unfold suspend. cbn [snd]. cbn in Hout. rewrite Hout.
    eapply Forall_impl; [exact Hevs|]. intros [msg|q|q|q v]; cbn; try done.
    intros [-> Hskip]. exists (env c'). rewrite lookup_insert.
    destruct Hret as (Hpid & Hprops & _). rewrite Hpid. cbn.
    rewrite decide_True by done. split; [done|]. by rewrite Hprops.
  - apply (keeps_props_suspend _ w c c'); [done| |done].
    right. cbn. split; [|by eexists].
    destruct (closures w !! id) as [l'|] eqn:Hl'; [|done]. apply Hcl in Hl'. lia.
Qed.

Lemma apply_update_keeps u w :
  this_pid (apply_update u w) = this_pid w /\ idCounter (apply_update u w) = idCounter w
  /\ queue (apply_update u w) = queue w /\ closures (apply_update u w) = closures w.
Proof. by destruct u. Qed.

Lemma hands_back_emit e c : hands_back c (emit e c).
Proof. unfold hands_back, same_component. cbn. repeat split; auto. Qed.

Lemma tick_spec w :
  inv w ->
  exists w' out,
    step scrollWidth scrollHeight Tick w = Some (w', out)
    /\ inv w' /\ Forall (emitted_ok w w') out /\ keeps_props Tick w w'.
Proof.
  intros Hinv. cbn [step]. destruct (queue w) as [|j js] eqn:Hqueue.
  { exists w, []. by auto using keeps_props_refl. }
  destruct Hinv as [Hjobs Hnodup Hfresh Hcl]. rewrite Hqueue in *.
  apply Forall_cons in Hjobs as [Hj Hjs].
  set (w0 := mkWorld _ _ _ _ js _).
  destruct j as [u [[q k]|]|q e]; cbn [fire]; [| |done].
  - destruct (apply_update_keeps u w0) as (Htp & Hid & Hq & Hclos).
    cbn in Hj, Hnodup. destruct Hj as (l & Hl & Hpid & Hsync & Hk).
    apply NoDup_cons in Hnodup as [Hnotin Hnodup].
    rewrite Hclos. cbn [closures w0]. rewrite Hl.
    set (c := mkCtx _ l []).
    assert (exists c', resume scrollWidth scrollHeight k c = Some c' /\ hands_back c c'
              /\ Forall (emitted_ok w (suspend c').1) (out c')) as (c' & -> & Hback & Hevs).
    { destruct (decide (k = KReady)) as [-> | Hne].
      - rewrite resume_ready. eexists. split; [done|]. split; [apply hands_back_emit|].
        cbn. repeat constructor. cbn. exists l. destruct Hk as [Hn Hm].
        rewrite Hpid. done.
      - destruct (resume_returns k c) as (c' & Hres & Hback & evs & Hout & Hevs); try done.
        exists c'. split; [done|]. split; [done|]. cbn in Hout. rewrite Hout.
        eapply Forall_impl; [exact Hevs|]. intros [msg|q'|q'|q' v]; cbn; try done.
        intros [-> Hskip]. exists (env c'). rewrite lookup_insert.
        destruct Hback as (Hpid' & Hprops & _). rewrite Hpid'. cbn.
        rewrite decide_True by done. split; [done|]. by rewrite Hprops. }
    cbn [mbind option_bind].
    eexists _, _. split; [by rewrite (surjective_pairing (suspend c'))|].
    split; [|split; [done|]].
    + apply (suspend_inv c c'); cbn [world env c]; rewrite ?Hq, ?Hid, ?Hclos; cbn; try done.
      * eapply Forall_impl; [exact Hjs|]. intros j. apply job_ok_closures. by rewrite Hclos.
      * intros q' Hq'. apply Hfresh. cbn. by right.
      * by rewrite Hpid.
      * rewrite Hpid. apply Hfresh. cbn. by left.
    + apply (keeps_props_suspend _ w c c'); [unfold c; cbn [world]; by rewrite Hclos| |done].
      left. cbn. rewrite Hpid. eauto.
  - destruct (apply_update_keeps u w0) as (Htp & Hid & Hq & Hclos).
    eexists _, _. split; [done|]. split; [|split; [done|by apply keeps_props_refl]].
    split; rewrite ?Hq, ?Hid, ?Hclos; cbn; try done.
    + eapply Forall_impl; [exact Hjs|]. intros j. apply job_ok_closures. by rewrite Hclos.
Qed.

(** The host cannot make the engine fail, and every turn keeps the
    component in order. *)
Lemma step_spec ev w :
  inv w ->
  exists w' out,
    step scrollWidth scrollHeight ev w = Some (w', out)
    /\ inv w' /\ Forall (emitted_ok w w') out /\ keeps_props ev w w'.
Proof.
  intros Hinv. destruct ev as [p refs| |].
  - by apply process_spec.
  - by apply tick_spec.
  - cbn. eexists _, _. split; [done|]. split; [|split; [done|by apply keeps_props_refl]].
    destruct Hinv as [Hjobs Hnodup Hfresh Hcl]. split; cbn; try done.
    + intros q Hq. apply Hfresh in Hq. lia.
    + intros q l Hl. apply Hcl in Hl. destruct Hl. split; [done|lia].
Qed.

Lemma mounted_inv counter : inv (mounted counter).
Proof.
  split; cbn; try done.
  - constructor.
  - intros p Hp. by apply elem_of_nil in Hp.
Qed.

Lemma reachable_inv w : reachable scrollWidth scrollHeight w -> inv w.
Proof.
  induction 1 as [counter|w ev w' out _ IH Hstep]; [apply mounted_inv|].
  destruct (step_spec ev w IH) as (w1 & out1 & Hstep1 & Hinv & _). congruence.
Qed.

Lemma parseInt_half_floor a b :
  0 <= a + b -> parseInt_half (VNum a) (VNum b) = VNum ((a + b) / 2).
Proof. intros H. cbn. f_equal. apply Z.quot_div_nonneg; lia. Qed.


Lemma run_app evs1 evs2 w :
  run scrollWidth scrollHeight (evs1 ++ evs2) w
  = '(w1, out1) ← run scrollWidth scrollHeight evs1 w;
    '(w2, out2) ← run scrollWidth scrollHeight evs2 w1;
    Some (w2, out1 ++ out2).
Proof.
  revert w. induction evs1 as [|ev evs1 IH]; intros w; cbn.
  - destruct (run _ _ evs2 w) as [[w2 out2]|]; done.
  - destruct (step _ _ ev w) as [[w1 out1]|]; cbn; [|done].
    rewrite IH. destruct (run _ _ evs1 w1) as [[w2 out2]|]; cbn; [|done].
    destruct (run _ _ evs2 w2) as [[w3 out3]|]; cbn; [|done].
    by rewrite app_assoc.
Qed.

Lemma reachable_run evs w w' out :
  reachable scrollWidth scrollHeight w ->
  run scrollWidth scrollHeight evs w = Some (w', out) ->
  reachable scrollWidth scrollHeight w'.
Proof.
  revert w out. induction evs as [|ev evs IH]; intros w out Hw; cbn.
  - by intros [= <- <-].
  - destruct (step _ _ ev w) as [[w1 out1]|] eqn:Hstep; cbn; [|done].
    destruct (run _ _ evs w1) as [[w2 out2]|] eqn:Hrun; cbn; [|done].
    intros [= <- <-]. eapply IH; [|done]. by eapply reachable_step.
Qed.



Lemma limits_clamps p a b l h :
  min p = VNum a -> max p = VNum b -> 0 < a <= b ->
  limits p (VNum l) (VNum h) = VNum (Z.max (Z.min (Z.max (Z.min l h) a) b) 0)
  /\ a <= Z.max (Z.min (Z.max (Z.min l h) a) b) 0 <= b.
Proof.
  intros Ha Hb Hab. unfold limits, js_or. rewrite Ha, Hb. cbn.
  destruct (a =? 0) eqn:?; [lia|]. destruct (b =? 0) eqn:?; [lia|]. cbn.
  split; [done|lia].
Qed.


(** With one valid range [[a, b]] in all requests, whatever the host does,
    every size reported to [onReady] lies in [[a, b]]. *)
Lemma run_reports_within_bounds a b evs :
  0 < a <= b ->
  Forall (fun ev => forall p refs, ev = Request p refs -> min p = VNum a /\ max p = VNum b) evs ->
  forall w w' out,
    inv w ->
    (forall q l, closures w !! q = Some l -> min (props l) = VNum a /\ max (props l) = VNum b) ->
    run scrollWidth scrollHeight evs w = Some (w', out) ->
    forall q v, OnReady q v ∈ out -> exists z, v = VNum z /\ a <= z <= b.
Proof.
  intros Hab. induction 1 as [|ev evs Hev _ IH]; intros w w' out Hinv Hcl; cbn.
  - intros [= <- <-] q v Hin. by apply elem_of_nil in Hin.
  - destruct (step_spec ev w Hinv) as (w1 & out1 & -> & Hinv1 & Hout & Hkeep & Hfrom).
    cbn. destruct (run _ _ evs w1) as [[w2 out2]|] eqn:Hrun; cbn; [|done].
    intros [= <- <-] q v Hin. apply elem_of_app in Hin as [Hin|Hin].
    + eapply Forall_forall in Hout; [|exact Hin]. cbn in Hout.
      destruct Hout as (e & He & _ & -> & Hmid & Hnum).
      destruct (Hcl _ _ He) as [Ha Hb].
      destruct Hnum as ([l Hl] & [h Hh] & _); [by exists a, b|].
      rewrite Hmid, Hl, Hh. destruct (limits_clamps (props e) a b l h) as [-> Hr]; eauto.
    + eapply (IH w1); [done| |done|done].
      intros q' l' Hl'. destruct (Hfrom _ _ Hl') as [(l & Hl & Hp)|[refs ->]].
      * rewrite <- Hp. by eapply Hcl.
      * by eapply Hev.
Qed.

(** C8: a run in single-line mode with [forceSingleModeWidth] never calls
    the secondary test. *)
Theorem secondary_test_never_runs w ev w' out q e :
  reachable scrollWidth scrollHeight w ->
  step scrollWidth scrollHeight ev w = Some (w', out) ->
  closures w' !! q = Some e ->
  mode (props e) = single -> forceSingleModeWidth (props e) = true ->
  SecondaryTested q ∉ out.
Proof.
  intros Hreach Hstep He Hmode Hforce Hin.
  destruct (step_spec ev w (reachable_inv w Hreach)) as (w1 & out1 & Hstep1 & _ & Hout & _).
  rewrite Hstep in Hstep1. injection Hstep1 as <- <-.
  eapply Forall_forall in Hout; [|exact Hin]. cbn in Hout.
  destruct Hout as (e' & He' & Hskip). rewrite He in He'. injection He' as <-.
  unfold skips_secondary in Hskip. rewrite Hmode, Hforce in Hskip. done.
Qed.

(** The host never makes the engine fail. *)
Lemma step_total ev w :
  reachable scrollWidth scrollHeight w ->
  exists w' out, step scrollWidth scrollHeight ev w = Some (w', out).
Proof.
  intros Hreach.
  destruct (step_spec ev w (reachable_inv w Hreach)) as (w1 & out1 & Hstep1 & _). eauto.
Qed.

(** A request with a measured box opens a run with the props of the
    request, and mints its token. *)
Lemma request_opens_run p ow oh w :
  inv w ->
  js_le oh (VNum 0) || isNaN oh = false ->
  js_le ow (VNum 0) || isNaN ow = false ->
  exists w' out e,
    process scrollWidth scrollHeight p (Some (ow, oh)) w = Some (w', out)
    /\ this_pid w' = S (idCounter w)
    /\ closures w' !! S (idCounter w) = Some e
    /\ props e = p.
Proof.
  intros Hinv Hh Hw. unfold process. rewrite Hh, Hw.
  cbn [uniqueId]. unfold setState. cbn [fmap option_fmap option_map env world out].
  set (l := mkLocals _ _ _ _ _ _ _ _). set (w1 := enqueue _ _).
  destruct (series_returns w1 l []) as (c' & -> & (Hpid & Hprops & _ & _ & (Htp & _) & _) & _);
    try done.
  cbn [mbind option_bind]. eexists _, _, (env c').
  split; [by rewrite (surjective_pairing (suspend c'))|].
  unfold suspend. cbn [fst this_pid closures]. split; [by rewrite Htp|].
  split; [|by rewrite Hprops]. rewrite Hpid. apply lookup_insert_eq.
Qed.

(** A callback that finds the token changed gives up: nothing is asked of
    the host and nothing is emitted.  This holds of every callback but the
    last one, [KReady], which does not look at the token. *)
Lemma stale_callback_aborts k c :
  k <> KReady -> kont_ok k (env c) ->
  shouldCancelProcess c = true -> isSync (getSt c) = false ->
  exists c',
    resume scrollWidth scrollHeight k c = Some c'
    /\ world c' = world c /\ out c' = out c.
Proof.
  intros Hk [_ Hok] Hc Hs.
  destruct c as [[tp idc fs rd qu cl] [p pr ow oh lo hi mi [rs cur sy]] o].
  unfold shouldCancelProcess in Hc. cbn in Hc, Hs, Hok. subst sy.
  destruct k; [| | |done]; destruct_and?; subst; exec; rewrite ?Hc; eexists; done.
Qed.

(** The warning of a rejected request. *)
Lemma process_rejects p ow oh w :
  (js_le oh (VNum 0) || isNaN oh) || (js_le ow (VNum 0) || isNaN ow) = true ->
  process scrollWidth scrollHeight p (Some (ow, oh)) w
  = Some (w, [Warn (if js_le oh (VNum 0) || isNaN oh then warn_height else warn_width)]).
Proof.
  intros Hbad. unfold process. destruct (js_le oh (VNum 0) || isNaN oh); [done|].
  cbn in Hbad. by rewrite Hbad.
Qed.

(** C5: a request whose measured height or width is not a positive number
    logs one warning and returns: the component is untouched (no
    candidate size is applied, no callback is left with the host), so the
    rest of the execution is what it is without the request and no
    [onReady] comes from it.  A height of 0 gives the warning about the
    height. *)
Theorem bad_baseline_aborts p ow oh w :
  (js_le oh (VNum 0) || isNaN oh) || (js_le ow (VNum 0) || isNaN ow) = true ->
  exists msg,
    process scrollWidth scrollHeight p (Some (ow, oh)) w = Some (w, [Warn msg])
    /\ (forall evs,
          run scrollWidth scrollHeight (Request p (Some (ow, oh)) :: evs) w
          = '(w', out) ← run scrollWidth scrollHeight evs w; Some (w', Warn msg :: out))
    /\ process scrollWidth scrollHeight p (Some (ow, VNum 0)) w
       = Some (w, [Warn warn_height]).
Proof.
  intros Hbad. eexists. split; [by apply process_rejects|]. split; [|done].
  intros evs. cbn [run step]. rewrite process_rejects by done. cbn.
  destruct (run _ _ evs w) as [[w' out]|]; done.
Qed.

(** A request with a valid range and a measured box, made while the host
    holds nothing, starts step 1 on the range [[min, max]]. *)
Lemma request_enters_phase1 p ow oh a b w :
  queue w = [] ->
  js_le oh (VNum 0) || isNaN oh = false ->
  js_le ow (VNum 0) || isNaN ow = false ->
  min p = VNum a -> max p = VNum b -> 0 < a <= b ->
  exists w' out,
    run scrollWidth scrollHeight [Request p (Some (ow, oh)); Tick] w = Some (w', out)
    /\ in_phase1 w' (S (idCounter w)) a b.
Proof.
  intros Hq Hh Hw Ha Hb Hab. destruct w as [tp idc fs rd qu cl]. cbn in Hq. subst qu.
  destruct p as [mn mx md fo]. cbn in Ha, Hb. subst.
  cbn [run step]. unfold process. rewrite Hh, Hw.
  unfold uniqueId, set_this_pid, series. exec.
  rewrite Nat.eqb_refl. cbn [negb min max].
  assert (js_or (VNum a) (VNum 1) = VNum a) as ->
    by (unfold js_or; cbn; by replace (a =? 0) with false by lia).
  assert (js_or (VNum b) (VNum 100) = VNum b) as ->
    by (unfold js_or; cbn; by replace (b =? 0) with false by lia).
  assert (js_le (VNum a) (VNum b) = true) as -> by (cbn; lia).
  cbn [mbind option_bind]. unfold suspend. exec.
  cbn [app mbind option_bind fire apply_update].
  eexists _, _. split; [reflexivity|].
  unfold in_phase1. cbn [this_pid queue closures idCounter].
  rewrite parseInt_half_floor by lia.
  split; [done|]. split; [done|].
  eexists. split; [apply lookup_insert_eq|]. cbn. done.
Qed.

(** The last callback of a run calls [onReady] whatever the token is. *)
Lemma ready_callback_ignores_token w u q js e :
  queue w = SetState u (Some (q, KReady)) :: js ->
  closures w !! q = Some e ->
  exists w',
    step scrollWidth scrollHeight Tick w = Some (w', [OnReady (pid e) (mid e)])
    /\ this_pid w' = this_pid w.
Proof.
  intros Hq He. cbn [step]. rewrite Hq. cbn [fire].
  destruct u; cbn [apply_update closures]; rewrite He; cbn; eexists; done.
Qed.

(** A callback of a superseded run, other than the last one, is dropped by
    the host's turn: its state update is applied, nothing is emitted and no
    job is added. *)
Lemma stale_job_is_dropped w u q k js :
  inv w ->
  queue w = SetState u (Some (q, k)) :: js ->
  k <> KReady -> q <> this_pid w ->
  exists w',
    step scrollWidth scrollHeight Tick w = Some (w', [])
    /\ queue w' = js /\ this_pid w' = this_pid w /\ idCounter w' = idCounter w.
Proof.
  intros [Hjobs _ _ _] Hq Hk Hne. rewrite Hq in Hjobs.
  apply Forall_cons in Hjobs as [(l & Hl & Hpid & Hsync & Hok) _].
  cbn [step]. rewrite Hq. cbn [fire].
  set (w0 := apply_update u _).
  assert (closures w0 = closures w /\ this_pid w0 = this_pid w
          /\ queue w0 = js /\ idCounter w0 = idCounter w) as (Hcl & Htp & Hq0 & Hid)
    by (by destruct u).
  rewrite Hcl, Hl.
  destruct (stale_callback_aborts k (mkCtx w0 l [])) as (c' & -> & Hworld & Hout); try done.
  { unfold shouldCancelProcess. cbn. rewrite Htp, Hpid.
    by apply negb_true_iff, Nat.eqb_neq. }
  cbn [mbind option_bind]. unfold suspend. rewrite Hworld, Hout. cbn.
  eexists. done.
Qed.
End blocks.

Import Scenarios.

(** C10: a request that fails the check on the measured box changes nothing
    of the component: no token is minted, [fontSize] and [ready] stay, no
    job is added.  A schedule with such a request in it runs as it does
    without it, but for the warning; so a fit that was in flight goes on,
    as in the scenario where the headline's run still reports its size. *)
Theorem failed_request_keeps_state p ow oh :
  (js_le oh (VNum 0) || isNaN oh) || (js_le ow (VNum 0) || isNaN ow) = true ->
  exists msg,
    (forall scrollWidth scrollHeight w,
       step scrollWidth scrollHeight (Request p (Some (ow, oh))) w = Some (w, [Warn msg]))
    /\ (forall scrollWidth scrollHeight before after w0,
          run scrollWidth scrollHeight (before ++ Request p (Some (ow, oh)) :: after) w0
          = '(w1, out1) ← run scrollWidth scrollHeight before w0;
            '(w2, out2) ← run scrollWidth scrollHeight after w1;
            Some (w2, out1 ++ Warn msg :: out2))
    /\ snd <$> run (overflows_above 30) never_overflows
                 ([Request headline box; Tick; Tick]
                    ++ Request p (Some (ow, oh)) :: replicate 8 Tick) (mounted 0)
       = Some ([PrimaryTested 1] ++ Warn msg
                 :: replicate 6 (PrimaryTested 1) ++ [OnReady 1 (VNum 30)]).
Proof.
  intros Hbad.
  exists (if js_le oh (VNum 0) || isNaN oh then warn_height else warn_width).
  assert (forall scrollWidth scrollHeight before after w0,
          run scrollWidth scrollHeight (before ++ Request p (Some (ow, oh)) :: after) w0
          = '(w1, out1) ← run scrollWidth scrollHeight before w0;
            '(w2, out2) ← run scrollWidth scrollHeight after w1;
            Some (w2, out1 ++ Warn (if js_le oh (VNum 0) || isNaN oh then warn_height else warn_width) :: out2)) as Hrun.
  { intros sw sh before after w0. rewrite run_app.
    destruct (run sw sh before w0) as [[w1 out1]|]; cbn [mbind option_bind]; [|done].
    cbn [run step]. rewrite process_rejects by done. cbn [mbind option_bind].
    destruct (run sw sh after w1) as [[w2 out2]|]; done. }
  split; [|split].
  - intros sw sh w. by apply process_rejects.
  - exact Hrun.
  - rewrite Hrun. vm_compute. reflexivity.
Qed.

Lemma failed_request_keeps_state_witness :
  exists msg,
    (forall scrollWidth scrollHeight w,
       step scrollWidth scrollHeight (Request headline (Some (VNum 200, VNum 0))) w
       = Some (w, [Warn msg]))
    /\ (forall scrollWidth scrollHeight before after w0,
          run scrollWidth scrollHeight
            (before ++ Request headline (Some (VNum 200, VNum 0)) :: after) w0
          = '(w1, out1) ← run scrollWidth scrollHeight before w0;
            '(w2, out2) ← run scrollWidth scrollHeight after w1;
            Some (w2, out1 ++ Warn msg :: out2))
    /\ snd <$> run (overflows_above 30) never_overflows
                 ([Request headline box; Tick; Tick]
                    ++ Request headline (Some (VNum 200, VNum 0)) :: replicate 8 Tick)
                 (mounted 0)
       = Some ([PrimaryTested 1] ++ Warn msg
                 :: replicate 6 (PrimaryTested 1) ++ [OnReady 1 (VNum 30)]).
Proof.
  apply (failed_request_keeps_state headline (VNum 200) (VNum 0)). reflexivity.
Defined.

Lemma bad_baseline_aborts_witness :
  exists msg,
    process never_overflows never_overflows headline (Some (VNum 200, VNum 0)) (headline_after 3)
    = Some (headline_after 3, [Warn msg])
    /\ (forall evs,
          run never_overflows never_overflows
            (Request headline (Some (VNum 200, VNum 0)) :: evs) (headline_after 3)
          = '(w', out) ← run never_overflows never_overflows evs (headline_after 3);
            Some (w', Warn msg :: out))
    /\ process never_overflows never_overflows headline (Some (VNum 200, VNum 0))
         (headline_after 3)
       = Some (headline_after 3, [Warn warn_height]).
Proof.
  apply (bad_baseline_aborts never_overflows never_overflows headline (VNum 200) (VNum 0)
           (headline_after 3)).
  reflexivity.
Defined.

Lemma headline_reachable n :
  reachable (overflows_above 30) never_overflows (headline_after n).
Proof.
  unfold headline_after.
  destruct (run _ _ _ _) as [[w out]|] eqn:Hrun; [|apply reachable_mounted].
  eapply reachable_run; [apply reachable_mounted|exact Hrun].
Qed.


Lemma secondary_test_never_runs_witness :
  SecondaryTested 1 ∉ [PrimaryTested 1%nat].
Proof.
  apply (secondary_test_never_runs (overflows_above 30) never_overflows
           (headline_after 3) Tick (headline_after 4) [PrimaryTested 1%nat] 1%nat
           (mkLocals 1 headline (VNum 200) (VNum 50) (VNum 26) (VNum 36) (VNum 31)
              (Series.mkSeriesSt [] 0 false))).
  - apply headline_reachable.
  - vm_compute. reflexivity.
  - vm_compute. reflexivity.
  - reflexivity.
  - reflexivity.
Defined.


(** C2 does not hold of the code.  The headline's run has asked for
    [ready: true] and waits for its last callback when a second request
    starts a new run and mints the token 2.  The callback of the first run
    then still calls [onReady], with the size of the first run: it is the
    one callback that does not look at the token. *)
Theorem stale_onReady_fires :
  let scrollWidth := overflows_above 30 in
  let scrollHeight := never_overflows in
  let w1 := headline_after 9 in
  exists w2 w3,
    this_pid w1 = 1%nat
    /\ queue w1 = [SetState (Ready true) (Some (1%nat, KReady))]
    /\ step scrollWidth scrollHeight (Request headline box) w1 = Some (w2, [])
    /\ this_pid w2 = 2%nat
    /\ step scrollWidth scrollHeight Tick w2 = Some (w3, [OnReady 1 (VNum 30)])
    /\ this_pid w3 = 2%nat /\ ready w3 = true.
Proof.
  cbv zeta. eexists _, _.
  split; [vm_compute; reflexivity|].
  split; [vm_compute; reflexivity|].
  split; [vm_compute; reflexivity|].
  split; [vm_compute; reflexivity|].
  split; [vm_compute; reflexivity|].
  split; vm_compute; reflexivity.
Qed.

(** C4 does not hold of the code: step 2 goes on while [low < high], not
    while [low <= high].  The paragraph fits its height at every size and
    its width up to size 6.  Step 2 finds that size 10 overflows, searches
    [1, 10], tests 5, 8 and 6, and stops with [low = high = 7] without
    testing 7: the run reports 7, which overflows the width, although 6
    fits. *)
Theorem secondary_search_stops_early :
  let scrollWidth := overflows_above 6 in
  let scrollHeight := never_overflows in
  exists w e,
    run scrollWidth scrollHeight (Request paragraph box :: replicate 11 Tick) (mounted 0)
    = Some (w, replicate 4 (PrimaryTested 1) ++ replicate 4 (SecondaryTested 1)
                 ++ [OnReady 1 (VNum 7)])
    /\ closures w !! 1%nat = Some e
    /\ low e = VNum 7 /\ high e = VNum 7
    /\ assertElementFitsWidth (scrollWidth (VNum 7)) (VNum 200) = false
    /\ assertElementFitsWidth (scrollWidth (VNum 6)) (VNum 200) = true.
Proof.
  cbv zeta. eexists _, _.
  split; [vm_compute; reflexivity|].
  split; [vm_compute; reflexivity|].
  repeat split; vm_compute; reflexivity.
Qed.

(** Two requests in a row, before the host takes a turn: only the second
    run tests and reports. *)
Example back_to_back_requests :
  snd <$> run (overflows_above 30) never_overflows
            (Request headline box :: Request headline box :: replicate 13 Tick) (mounted 0)
  = Some (replicate 7 (PrimaryTested 2) ++ [OnReady 2 (VNum 30)]).
Proof. vm_compute. reflexivity. Qed.

(** ** What the token guards *)

Section guards.
Variable scrollWidth scrollHeight : value -> Z.

(** A request that passes the checks: the new token, the jobs it leaves
    and what it emits. *)
Lemma process_frame p ow oh w :
  js_le oh (VNum 0) || isNaN oh = false ->
  js_le ow (VNum 0) || isNaN ow = false ->
  exists w' out,
    process scrollWidth scrollHeight p (Some (ow, oh)) w = Some (w', out)
    /\ this_pid w' = S (idCounter w) /\ idCounter w' = S (idCounter w)
    /\ (forall j, j ∈ queue w' ->
          j ∈ queue w \/ job_pid j = None \/ job_pid j = Some (S (idCounter w)))
    /\ Forall (fun e => e = PrimaryTested (S (idCounter w))
                        \/ e = SecondaryTested (S (idCounter w))) out.
Proof.
  intros Hh Hw. unfold process. rewrite Hh, Hw.
  cbn [uniqueId]. unfold setState. cbn [fmap option_fmap option_map env world out].
  set (l := mkLocals _ _ _ _ _ _ _ _). set (w1 := enqueue _ _).
  destruct (series_returns scrollWidth scrollHeight w1 l [])
    as (c' & -> & (Hpid & _ & _ & _ & (Htp & Hid & _) & Hq) & evs & Hout & Hevs); try done.
  cbn [mbind option_bind]. eexists _, _.
  split; [by rewrite (surjective_pairing (suspend c'))|].
  unfold suspend. cbn [fst snd this_pid idCounter queue].
  split; [by rewrite Htp|]. split; [by rewrite Hid|]. split.
  - cbn in Hq. intros j Hj.
    destruct Hq as [Hq|(u & k & Hq & _)]; rewrite Hq in Hj;
      repeat (apply elem_of_app in Hj as [Hj|Hj]); auto;
      apply list_elem_of_singleton in Hj; subst j; cbn; auto.
  - cbn in Hout. rewrite Hout. eapply Forall_impl; [exact Hevs|].
    intros [msg|q|q|q v]; cbn; try done.
    + intros ->. by left.
    + intros [-> _]. by right.
Qed.

(** One turn of the host on the job [j]: the token stays; only a job of
    the current run can test or leave a new job, which is again a job of
    the current run; a call of [onReady] comes from a last callback; and
    the variables of the other runs are not touched. *)
Lemma tick_frame w j js :
  inv w -> queue w = j :: js ->
  exists w' out,
    step scrollWidth scrollHeight Tick w = Some (w', out)
    /\ this_pid w' = this_pid w /\ idCounter w' = idCounter w
    /\ (queue w' = js
        \/ exists u k, queue w' = js ++ [SetState u (Some (this_pid w, k))]
                       /\ job_pid j = Some (this_pid w)
                       /\ forall u' q', j <> SetState u' (Some (q', KReady)))
    /\ Forall (fun e =>
                 ((e = PrimaryTested (this_pid w) \/ e = SecondaryTested (this_pid w))
                  /\ job_pid j = Some (this_pid w))
                 \/ exists u q v, j = SetState u (Some (q, KReady)) /\ e = OnReady q v) out
    /\ (forall q, job_pid j <> Some q -> closures w' !! q = closures w !! q).
Proof.
  intros [Hjobs _ _ _] Hqueue. rewrite Hqueue in Hjobs.
  apply Forall_cons in Hjobs as [Hj _].
  cbn [step]. rewrite Hqueue.
  set (w0 := mkWorld _ _ _ _ js _).
  destruct j as [u [[q k]|]|q e]; cbn [fire]; [| |done].
  - destruct (apply_update_keeps u w0) as (Htp & Hid & Hq & Hclos).
    cbn in Hj. destruct Hj as (l & Hl & Hpid & Hsync & Hk).
    rewrite Hclos. cbn [closures w0]. rewrite Hl.
    set (c := mkCtx _ l []).
    destruct (decide (k = KReady)) as [-> | Hne].
    + rewrite resume_ready. cbn [mbind option_bind]. unfold suspend. cbn.
      eexists _, _. split; [done|]. cbn. rewrite Htp, Hid, Hq, Hclos. cbn.
      do 2 (split; [done|]). split; [by left|]. split.
      * constructor; [|constructor]. right. rewrite Hpid. eauto.
      * intros q' Hq'. rewrite lookup_insert_ne; [done|]. congruence.
    + destruct (resume_returns scrollWidth scrollHeight k c)
        as (c' & Hres & (Hpid' & _ & _ & _ & (Htp' & Hid' & _ & _ & Hclos') & Hq')
            & evs & Hout & Hevs); try done.
      cbn in Hpid', Htp', Hid', Hclos', Hq', Hout.
      assert (forall q', Some q <> Some q' ->
                <[pid (env c') := env c']> (closures (world c')) !! q' = closures w !! q')
        as Hframe.
      { intros q' Hq''. rewrite lookup_insert_ne by congruence.
        by rewrite Hclos', Hclos. }
      destruct (decide (q = this_pid w)) as [-> | Hstale].
      * rewrite Hres. cbn [mbind option_bind]. unfold suspend. eexists _, _. split; [done|].
        cbn [this_pid idCounter queue closures].
        rewrite Htp', Hid', Htp, Hid. do 2 (split; [done|]). split; [|split; [|done]].
        -- rewrite Hq, Hpid in Hq'. cbn in Hq'.
           destruct Hq' as [Hq'|(u' & k' & Hq' & _)]; [by left|right].
           eexists _, _. split; [done|]. split; [done|]. congruence.
        -- rewrite Hout. eapply Forall_impl; [exact Hevs|].
           intros [msg|q|q|q v]; cbn; try done.
           ++ intros ->. left. rewrite Hpid. auto.
           ++ intros [-> _]. left. rewrite Hpid. auto.
      * destruct (stale_callback_aborts scrollWidth scrollHeight k c)
          as (c'' & Hres' & Hworld & Hout'); try done.
        { unfold shouldCancelProcess. cbn. rewrite Htp, Hpid.
          by apply negb_true_iff, Nat.eqb_neq. }
        rewrite Hres in Hres'. injection Hres' as <-.
        rewrite Hres. cbn [mbind option_bind]. unfold suspend. eexists _, _. split; [done|].
        cbn [this_pid idCounter queue closures].
        rewrite Htp', Hid', Htp, Hid. do 2 (split; [done|]). split; [|split; [|done]].
        -- left. rewrite Hworld. cbn. done.
        -- rewrite Hout'. constructor.
  - destruct (apply_update_keeps u w0) as (Htp & Hid & Hq & Hclos).
    eexists _, _. split; [done|]. rewrite Htp, Hid, Hq, Hclos. cbn.
    do 2 (split; [done|]). split; [by left|]. split; [constructor|done].
Qed.

(** The token in use came from [uniqueId]. *)
Lemma reachable_token w :
  reachable scrollWidth scrollHeight w -> (this_pid w <= idCounter w)%nat.
Proof.
  induction 1 as [counter|w ev w' out Hreach IH Hstep]; [cbn; lia|].
  pose proof (reachable_inv _ _ _ Hreach) as Hinv.
  destruct ev as [p [[ow oh]|]| |]; cbn [step] in Hstep.
  - unfold process in Hstep.
    destruct (js_le oh (VNum 0) || isNaN oh) eqn:Hh; [by simplify_eq|].
    destruct (js_le ow (VNum 0) || isNaN ow) eqn:Hw; [by simplify_eq|].
    destruct (process_frame p ow oh w Hh Hw) as (w1 & out1 & Hp & Htp & Hid & _).
    unfold process in Hp. rewrite Hh, Hw in Hp. rewrite Hp in Hstep. simplify_eq. lia.
  - cbn in Hstep. by simplify_eq.
  - destruct (queue w) as [|j js] eqn:Hq; [by simplify_eq|].
    destruct (tick_frame w j js Hinv Hq) as (w1 & out1 & Hs & Htp & Hid & _).
    cbn [step] in Hs. rewrite Hq in Hs. rewrite Hs in Hstep. simplify_eq. lia.
  - simplify_eq. cbn. lia.
Qed.

(** X5: only the run that holds the current token works.  In every turn,
    whatever the host has done before, a fit test is a test of the run whose
    token is [this.pid], and every job the turn leaves with the host that
    carries a callback carries one of that run: a run that has been
    superseded never measures again and never asks for another update. *)
Theorem only_the_current_run_works w ev w' out :
  reachable scrollWidth scrollHeight w ->
  step scrollWidth scrollHeight ev w = Some (w', out) ->
  (forall q, PrimaryTested q ∈ out \/ SecondaryTested q ∈ out -> q = this_pid w')
  /\ (forall j, j ∈ queue w' ->
        j ∈ queue w \/ job_pid j = None \/ job_pid j = Some (this_pid w')).
Proof.
  intros Hreach Hstep.
  pose proof (reachable_inv _ _ _ Hreach) as Hinv.
  destruct ev as [p [[ow oh]|]| |]; cbn [step] in Hstep.
  - destruct (js_le oh (VNum 0) || isNaN oh) eqn:Hh.
    { unfold process in Hstep. rewrite Hh in Hstep. simplify_eq. split; [|by auto].
      intros q [Hin|Hin]; apply list_elem_of_singleton in Hin; done. }
    destruct (js_le ow (VNum 0) || isNaN ow) eqn:Hw.
    { unfold process in Hstep. rewrite Hh, Hw in Hstep. simplify_eq. split; [|by auto].
      intros q [Hin|Hin]; apply list_elem_of_singleton in Hin; done. }
    destruct (process_frame p ow oh w Hh Hw) as (w1 & out1 & Hp & Htp & Hid & Hjobs & Hout).
    rewrite Hp in Hstep. simplify_eq. rewrite Htp. split; [|done].
    intros q [Hin|Hin]; eapply Forall_forall in Hout; try exact Hin;
      destruct Hout; congruence.
  - cbn in Hstep. simplify_eq. split; [|by auto].
    intros q [Hin|Hin]; by apply elem_of_nil in Hin.
  - destruct (queue w) as [|j js] eqn:Hq.
    { simplify_eq. rewrite Hq. split; [|by auto].
      intros q [Hin|Hin]; by apply elem_of_nil in Hin. }
    destruct (tick_frame w j js Hinv Hq) as (w1 & out1 & Hs & Htp & Hid & Hjobs & Hout & _).
    cbn [step] in Hs. rewrite Hq in Hs. rewrite Hs in Hstep. simplify_eq.
    rewrite Htp. split.
    + intros q [Hin|Hin]; eapply Forall_forall in Hout; try exact Hin;
        destruct Hout as [[[?|?] _]|(u & q' & v & _ & ?)]; congruence.
    + intros j' Hj'. destruct Hjobs as [Hjs|(u & k & Hjs & _)]; rewrite Hjs in Hj'.
      * left. by right.
      * apply elem_of_app in Hj' as [Hj'|Hj'].
        -- left. by right.
        -- apply list_elem_of_singleton in Hj'. subst j'. cbn. auto.
  - simplify_eq. cbn. split; [|by auto].
    intros q [Hin|Hin]; by apply elem_of_nil in Hin.
Qed.

(** X6: a run never shares its token with an earlier run.  The token a
    request mints is larger than every token handed out before: it differs
    from the token in use, no run in the store has it and no job with the
    host carries it, so the cancellation test cannot take one run for
    another. *)
Theorem new_run_gets_a_fresh_token p ow oh w :
  reachable scrollWidth scrollHeight w ->
  js_le oh (VNum 0) || isNaN oh = false ->
  js_le ow (VNum 0) || isNaN ow = false ->
  exists w' out,
    step scrollWidth scrollHeight (Request p (Some (ow, oh))) w = Some (w', out)
    /\ (this_pid w < this_pid w')%nat
    /\ closures w !! this_pid w' = None
    /\ (this_pid w' ∉ omap job_pid (queue w))
    /\ (forall q e, closures w !! q = Some e -> (pid e < this_pid w')%nat).
Proof.
  intros Hreach Hh Hw.
  pose proof (reachable_inv _ _ _ Hreach) as [_ _ Hfresh Hcl].
  pose proof (reachable_token w Hreach) as Htok.
  destruct (process_frame p ow oh w Hh Hw) as (w1 & out1 & Hp & Htp & _).
  exists w1, out1. split; [done|]. rewrite Htp. split; [lia|]. split; [|split].
  - destruct (closures w !! S (idCounter w)) as [e|] eqn:He; [|done].
    apply Hcl in He. lia.
  - intros Hin. apply Hfresh in Hin. lia.
  - intros q e He. apply Hcl in He. lia.
Qed.

(** A host that fires [n] jobs of superseded runs: the queue loses them,
    the variables of the current run are not touched, and the only thing
    that happens is the [onReady] of a last callback. *)
Lemma drain n : forall w,
  inv w ->
  (forall q, q ∈ omap job_pid (take n (queue w)) -> q <> this_pid w) ->
  exists w' out,
    run scrollWidth scrollHeight (replicate n Tick) w = Some (w', out)
    /\ inv w'
    /\ queue w' = drop n (queue w)
    /\ this_pid w' = this_pid w /\ idCounter w' = idCounter w
    /\ closures w' !! this_pid w = closures w !! this_pid w
    /\ Forall (fun e => exists u q v,
                 e = OnReady q v /\ SetState u (Some (q, KReady)) ∈ take n (queue w)) out.
Proof.
  induction n as [|n IH]; intros w Hinv Hstale.
  - exists w, []. cbn. rewrite drop_0. by auto 10.
  - cbn [replicate run]. case_eq (queue w); [intros Hq|intros j js Hq].
    + cbn [step]. rewrite Hq. cbn [mbind option_bind].
      destruct (IH w Hinv) as (w' & out & -> & Hinv' & Hqueue & Htp & Hid & Hcl & Hout).
      { rewrite Hq, take_nil. intros q Hin. by apply elem_of_nil in Hin. }
      cbn. exists w', out. split; [done|]. rewrite Hqueue, Hq, drop_nil. split; [done|].
      do 4 (split; [done|]). rewrite Hq, take_nil in Hout. done.
    + destruct (tick_frame w j js Hinv Hq)
        as (w1 & out1 & Hs & Htp & Hid & Hjobs & Hout1 & Hcl).
      rewrite Hq in Hstale. cbn [take] in Hstale.
      assert (job_pid j <> Some (this_pid w)) as Hj.
      { intros Heq. apply (Hstale (this_pid w)); [|done]. cbn. rewrite Heq. by left. }
      assert (queue w1 = js) as Hq1 by (by destruct Hjobs as [?|(? & ? & _ & ? & _)]).
      assert (inv w1) as Hinv1.
      { destruct (step_spec scrollWidth scrollHeight Tick w Hinv) as (w2 & out2 & Hs2 & ? & _).
        congruence. }
      rewrite Hs. cbn [mbind option_bind].
      destruct (IH w1 Hinv1) as (w' & out & -> & Hinv' & Hqueue & Htp' & Hid' & Hcl' & Hout).
      { rewrite Hq1, Htp. intros q Hin. apply Hstale. cbn.
        destruct (job_pid j); [by right|done]. }
      cbn. exists w', (out1 ++ out). split; [done|]. split; [done|].
      rewrite Hqueue, Hq1. split; [done|]. split; [congruence|]. split; [congruence|].
      split; [rewrite <- Htp, Hcl', Htp; by apply Hcl|].
      apply Forall_app. split.
      * eapply Forall_impl; [exact Hout1|]. cbn.
        intros e [[_ ?]|(u & q & v & -> & ->)]; [done|].
        exists u, q, v. split; [done|]. by left.
      * eapply Forall_impl; [exact Hout|]. cbn.
        intros e (u & q & v & -> & Hin). exists u, q, v. split; [done|].
        rewrite Hq1 in Hin. by right.
Qed.

(** X7: [componentWillUnmount] cancels every run.  After it, whatever the
    host still fires, no fit test is made and no job is added: each turn
    only takes the oldest job off the queue.  All that can still happen is
    the call of [onReady] by a last callback that was with the host already,
    since that callback does not look at the token. *)
Theorem unmount_cancels_every_run w n :
  reachable scrollWidth scrollHeight w ->
  exists w' out,
    run scrollWidth scrollHeight (Unmount :: replicate n Tick) w = Some (w', out)
    /\ queue w' = drop n (queue w)
    /\ this_pid w' = S (idCounter w)
    /\ Forall (fun e => exists u q v,
                 e = OnReady q v /\ SetState u (Some (q, KReady)) ∈ take n (queue w)) out.
Proof.
  intros Hreach.
  pose proof (reachable_inv _ _ _ Hreach) as Hinv.
  assert (inv (unmount w)) as Hinv1.
  { destruct (step_spec scrollWidth scrollHeight Unmount w Hinv) as (w2 & out2 & Hs2 & ? & _).
    cbn in Hs2. by simplify_eq. }
  destruct (drain n (unmount w) Hinv1) as (w' & out & Hrun & _ & Hq & Htp & _ & _ & Hout).
  { cbn. intros q Hin. destruct Hinv as [_ _ Hfresh _].
    assert (q ∈ omap job_pid (queue w)) as Hin'.
    { apply list_elem_of_omap in Hin as (j & Hj & Hjq). apply list_elem_of_omap.
      exists j. split; [|done]. eapply subseteq_take. exact Hj. }
    apply Hfresh in Hin'. lia. }
  cbn [run step]. cbn [mbind option_bind]. rewrite Hrun. cbn.
  exists w', out. done.
Qed.

Lemma limits_floor p lo hi b :
  js_or (max p) (VNum 100) = VNum b ->
  limits p lo hi = VNaN \/ exists z, limits p lo hi = VNum z /\ 0 <= z <= Z.max b 0.
Proof.
  intros Hb. unfold limits. rewrite Hb.
  unfold Math_max, Math_min, arith.
  destruct (toNumber lo) as [x|]; cbn; [|by left].
  destruct (toNumber hi) as [y|]; cbn; [|by left].
  destruct (toNumber (js_or (min p) (VNum 1))) as [a|]; cbn; [|by left].
  right. eexists. split; [done|]. lia.
Qed.

Lemma limits_not_negative p lo hi :
  limits p lo hi = VNaN \/ exists z, limits p lo hi = VNum z /\ 0 <= z.
Proof.
  unfold limits, Math_max, Math_min, arith.
  destruct (toNumber lo) as [x|]; cbn; [|by left].
  destruct (toNumber hi) as [y|]; cbn; [|by left].
  destruct (toNumber (js_or (min p) (VNum 1))) as [a|]; cbn; [|by left].
  destruct (toNumber (js_or (max p) (VNum 100))) as [b|]; cbn; [|by left].
  right. eexists. split; [done|]. lia.
Qed.

(** X8: whatever the props are, valid or not, [onReady] never gets a
    negative size: it gets a number that is at least 0, or [NaN]; and when
    [max || 100] is a number, the size is not above it (nor above 0 when
    that number is negative), even when [min] is larger than [max]. *)
Theorem onReady_size_is_never_negative w ev w' out q v :
  reachable scrollWidth scrollHeight w ->
  step scrollWidth scrollHeight ev w = Some (w', out) ->
  OnReady q v ∈ out ->
  v = VNaN
  \/ exists z, v = VNum z /\ 0 <= z
       /\ forall e b, closures w !! q = Some e ->
            js_or (max (props e)) (VNum 100) = VNum b -> z <= Z.max b 0.
Proof.
  intros Hreach Hstep Hin.
  destruct (step_spec scrollWidth scrollHeight ev w (reachable_inv _ _ w Hreach))
    as (w1 & out1 & Hstep1 & _ & Hout & _).
  rewrite Hstep in Hstep1. injection Hstep1 as <- <-.
  eapply Forall_forall in Hout; [|exact Hin]. cbn in Hout.
  destruct Hout as (e & He & _ & -> & Hmid & _). rewrite Hmid.
  destruct (limits_not_negative (props e) (low e) (high e)) as [?|(z & Hz & Hpos)]; [by left|].
  right. exists z. split; [done|]. split; [done|].
  intros e' b He' Hb. rewrite He in He'. injection He' as <-.
  destruct (limits_floor (props e) (low e) (high e) b Hb) as [?|(z' & Hz' & ?)]; [congruence|].
  rewrite Hz in Hz'. injection Hz' as <-. lia.
Qed.

End guards.

(** ** A run that is not superseded, turn by turn *)

Section solo.
Import TextfitStages.
Variable scrollWidth scrollHeight : value -> Z.

Lemma half_between l h : l <= h -> l <= (l + h) / 2 <= h.
Proof. intros H. split; [apply Z.div_le_lower_bound|apply Z.div_le_upper_bound]; lia. Qed.

Lemma half_below l h : l < h -> (l + h) / 2 < h.
Proof. intros H. apply Z.div_lt_upper_bound; lia. Qed.

Ltac stage_leaf :=
  cbn [mbind option_bind]; unfold suspend; exec;
  eexists; split; [reflexivity|]; split; [|split; reflexivity];
  unfold at_stage, locals; cbn [token config width height this_pid ready queue closures
                                  fontSize searching negb app];
  rewrite ?parseInt_half_floor by lia;
  repeat (split; [done|]);
  repeat eexists; apply lookup_insert_eq.

(** One turn of the host takes the run from a stage to the next. *)
Lemma solo_step r a b s w :
  js_or (min (config r)) (VNum 1) = VNum a -> 0 < a ->
  stage_ok a b s -> at_stage r s w ->
  exists w',
    step scrollWidth scrollHeight Tick w
    = Some (w', (advance scrollWidth scrollHeight r a s).2)
    /\ at_stage r (advance scrollWidth scrollHeight r a s).1 w'
    /\ idCounter w' = idCounter w
    /\ fontSize w' = applied r s.
Proof.
  intros Ha Hpos Hok (Htp & Hrd & Hst).
  destruct r as [p pr ow oh]. destruct w as [tp idc fs rd qu cl].
  cbn in Htp, Hrd, Ha. subst tp.
  destruct s as [l h|l h|lo hi|v|v]; cbn in Hok, Hrd, Hst.
  - destruct Hst as (Hq & rs & Hcl). subst qu rd.
    pose proof (half_between l h) as Hm.
    cbn [step queue fire apply_update closures]. rewrite Hcl. unfold locals.
    cbn [mbind option_bind token config width height].
    unfold advance, fits_primary, fits_secondary. cbn [token config width height].
    exec. rewrite Nat.eqb_refl. cbn [negb].
    match goal with
    | |- context [if (match mode ?pr with single => ?a | multi => ?b end) then _ else _] =>
        destruct (match mode pr with single => a | multi => b end) eqn:Hfits
    end; exec; cbn [js_le js_add js_sub arith toNumber ofNumber mbind option_bind];
      rewrite ?Nat.eqb_refl; cbn [negb].
    all: repeat (split_if; exec; rewrite ?Ha;
                 cbn [js_le js_lt js_add js_sub arith toNumber ofNumber mbind option_bind fst snd];
                 rewrite ?Nat.eqb_refl; cbn [negb]).
    all: stage_leaf.
  - destruct Hst as (Hq & Hskip & rs & Hcl). subst qu rd.
    pose proof (half_between l h) as Hm.
    cbn [step queue fire apply_update closures]. rewrite Hcl. unfold locals.
    cbn [mbind option_bind token config width height].
    unfold advance, fits_secondary. cbn [token config width height].
    exec. rewrite Nat.eqb_refl. cbn [negb].
    match goal with
    | |- context [if (match mode ?pr with single => ?a | multi => ?b end) then _ else _] =>
        destruct (match mode pr with single => a | multi => b end) eqn:Hfits
    end; exec; cbn [js_lt js_add js_sub arith toNumber ofNumber mbind option_bind];
      rewrite ?Nat.eqb_refl; cbn [negb].
    all: repeat (split_if; exec; rewrite ?Ha;
                 cbn [js_le js_lt js_add js_sub arith toNumber ofNumber mbind option_bind fst snd];
                 rewrite ?Nat.eqb_refl; cbn [negb]).
    all: stage_leaf.
  - destruct Hst as (Hq & rs & Hcl). subst qu rd.
    cbn [step queue fire apply_update closures]. rewrite Hcl. unfold locals.
    cbn [mbind option_bind token config width height].
    unfold advance. cbn [token config width height].
    exec. rewrite Nat.eqb_refl. cbn [negb].
    stage_leaf.
  - destruct Hst as (Hq & Hfs & lo & hi & st & Hcl). subst qu rd fs.
    cbn [step queue fire apply_update closures]. rewrite Hcl. unfold locals.
    cbn [mbind option_bind token config width height].
    unfold advance. cbn [token config width height].
    exec. stage_leaf.
  - destruct Hst as (Hq & Hfs). subst qu rd fs.
    cbn [step queue]. eexists. split; [reflexivity|]. split; [|split; reflexivity].
    unfold advance, at_stage. cbn. done.
Qed.

(** *** The stages as a machine *)

Section bounds.
Variable r : Run.
Variable a b : Z.
Hypothesis Hmin : js_or (min (config r)) (VNum 1) = VNum a.
Hypothesis Hmax : js_or (max (config r)) (VNum 100) = VNum b.
Hypothesis Hab : 0 < a <= b.

Local Abbreviation advance := (advance scrollWidth scrollHeight r a).
Local Abbreviation machine := (machine scrollWidth scrollHeight r a).
Local Abbreviation fits1 := (fits_primary scrollWidth scrollHeight r).
Local Abbreviation fits2 := (fits_secondary scrollWidth scrollHeight r).

Lemma limits_effective l h :
  limits (config r) (VNum l) (VNum h) = VNum (Z.max (Z.min (Z.max (Z.min l h) a) b) 0)
  /\ a <= Z.max (Z.min (Z.max (Z.min l h) a) b) 0 <= b.
Proof. unfold limits. rewrite Hmin, Hmax. cbn. split; [done|lia]. Qed.

Lemma advance_ok s : stage_ok a b s -> stage_ok a b (advance s).1.
Proof.
  destruct s as [l h|l h|lo hi|v|v]; cbn [stage_ok]; unfold TextfitStages.advance.
  - intros [Hl Hh]. pose proof (half_between l h) as Hm.
    destruct (fits1 _); repeat split_if; cbn; try (eauto; fail); lia.
  - intros [Hl Hh]. pose proof (half_between l h) as Hm.
    destruct (fits2 _); repeat split_if; cbn; try (eauto; fail); lia.
  - intros (l & h & -> & ->). cbn. destruct (limits_effective l h) as [-> ?]. eauto.
  - done.
  - done.
Qed.

Lemma machine_S k s :
  machine (S k) s
  = (let '(s1, out1) := advance s in
     let '(s2, out2) := machine k s1 in (s2, out1 ++ out2)).
Proof. done. Qed.

Lemma machine_ok k : forall s, stage_ok a b s -> stage_ok a b (machine k s).1.
Proof.
  induction k as [|k IH]; intros s Hok; [done|].
  rewrite machine_S. pose proof (advance_ok s Hok) as Hok1.
  destruct (advance s) as [s1 out1]. specialize (IH s1 Hok1).
  destruct (machine k s1) as [s2 out2]. done.
Qed.

(** The engine follows the machine. *)
Lemma solo_run k : forall s w,
  stage_ok a b s -> at_stage r s w ->
  exists w',
    run scrollWidth scrollHeight (replicate k Tick) w = Some (w', (machine k s).2)
    /\ at_stage r (machine k s).1 w'
    /\ idCounter w' = idCounter w.
Proof.
  induction k as [|k IH]; intros s w Hok Hat.
  - exists w. done.
  - destruct (solo_step r a b s w) as (w1 & Hstep & Hat1 & Hid1 & _); try done; [lia|].
    pose proof (advance_ok s Hok) as Hok1.
    rewrite machine_S. cbn [replicate run]. rewrite Hstep. cbn [mbind option_bind].
    destruct (advance s) as [s1 out1]. cbn [fst snd] in *.
    destruct (IH s1 w1 Hok1 Hat1) as (w2 & -> & Hat2 & Hid2).
    destruct (machine k s1) as [s2 out2]. cbn [fst snd] in *. cbn.
    exists w2. split; [done|]. split; [done|]. congruence.
Qed.

Lemma half_bounds l h : 2 * ((l + h) / 2) <= l + h < 2 * ((l + h) / 2) + 2.
Proof.
  pose proof (Z.mul_div_le (l + h) 2). pose proof (Z.mul_succ_div_gt (l + h) 2). lia.
Qed.

Lemma pow2_S (K : nat) : 2 ^ Z.of_nat (S K) = 2 * 2 ^ Z.of_nat K.
Proof. rewrite Nat2Z.inj_succ, Z.pow_succ_r; lia. Qed.

(** Step 2 halves the distance between its bounds in every turn. *)
Lemma secondary_finishes (K : nat) : forall l h,
  a <= l -> l < h -> h - l < 2 ^ Z.of_nat K ->
  exists k lo hi tests,
    (k <= K)%nat
    /\ machine k (Secondary l h) = (Limits (VNum lo) (VNum hi), tests)
    /\ Forall (is_test (token r)) tests.
Proof.
  induction K as [|K IH]; intros l h Hl Hlh Hsize; [cbn in Hsize; lia|].
  rewrite pow2_S in Hsize. pose proof (half_bounds l h) as Hm.
  set (m := (l + h) / 2) in *.
  set (l' := if fits2 m then m + 1 else l).
  set (h' := if fits2 m then h else m - 1).
  assert (advance (Secondary l h)
          = if l' <? h' then (Secondary l' h', [SecondaryTested (token r)])
            else (Limits (VNum l') (VNum h'), [SecondaryTested (token r)])) as Hadv by done.
  destruct (l' <? h') eqn:Hcont.
  - apply Z.ltb_lt in Hcont.
    destruct (IH l' h') as (k & lo & hi & tests & Hk & Hrun & Htests).
    { subst l'. destruct (fits2 m); lia. }
    { done. }
    { subst l' h'. destruct (fits2 m); lia. }
    exists (S k), lo, hi, (SecondaryTested (token r) :: tests).
    split; [lia|]. rewrite machine_S, Hadv, Hrun. split; [done|].
    constructor; [by right|done].
  - exists 1%nat, l', h', [SecondaryTested (token r)].
    split; [lia|]. rewrite machine_S, Hadv. split; [done|].
    constructor; [by right|constructor].
Qed.

(** Step 1 halves its range in every turn; then step 2 runs, or is
    skipped.  When step 2 is skipped or passes its first test, and a size
    that fits lets the smaller sizes fit, step 1 ends with the bounds on
    either side of the largest size that fits. *)
Lemma primary_finishes (K0 K : nat) :
  b - a + 1 < 2 ^ Z.of_nat K0 ->
  forall l h,
  a <= l <= h -> h <= b -> h - l + 1 < 2 ^ Z.of_nat K ->
  exists k lo hi tests,
    (k <= K + K0)%nat
    /\ machine k (Primary l h) = (Limits (VNum lo) (VNum hi), tests)
    /\ Forall (is_test (token r)) tests
    /\ (monotone fits1 ->
        skips_secondary (config r) = true \/ (forall m, fits2 m = true) ->
        lo = hi + 1 /\ l <= lo /\ hi <= h
        /\ (forall z, l <= z < lo -> fits1 z = true)
        /\ (forall z, hi < z <= h -> fits1 z = false)).
Proof.
  intros HK0.
  induction K as [|K IH]; intros l h Hl Hh Hsize; [cbn in Hsize; lia|].
  rewrite pow2_S in Hsize. pose proof (half_bounds l h) as Hm.
  set (m := (l + h) / 2) in *.
  set (l' := if fits1 m then m + 1 else l).
  set (h' := if fits1 m then h else m - 1).
  assert (advance (Primary l h)
          = if l' <=? h' then (Primary l' h', [PrimaryTested (token r)])
            else if skips_secondary (config r) then
              (Limits (VNum l') (VNum h'), [PrimaryTested (token r)])
            else if fits2 m then
              (Limits (VNum l') (VNum h'),
               [PrimaryTested (token r); SecondaryTested (token r)])
            else if a <? m then
              (Secondary a m, [PrimaryTested (token r); SecondaryTested (token r)])
            else
              (Limits (VNum a) (VNum m),
               [PrimaryTested (token r); SecondaryTested (token r)])) as Hadv by done.
  assert (forall z z', z <= z' -> fits1 z = false -> monotone fits1 -> fits1 z' = false)
    as Hanti.
  { intros z z' Hz Hf Hmono. destruct (fits1 z') eqn:Hz'; [|done].
    rewrite (Hmono z z' Hz Hz') in Hf. done. }
  destruct (l' <=? h') eqn:Hcont.
  - apply Z.leb_le in Hcont.
    destruct (IH l' h') as (k & lo & hi & tests & Hk & Hrun & Htests & Hfound).
    { subst l'. destruct (fits1 m); lia. }
    { subst h'. destruct (fits1 m); lia. }
    { subst l' h'. destruct (fits1 m); lia. }
    exists (S k), lo, hi, (PrimaryTested (token r) :: tests).
    split; [lia|]. rewrite machine_S, Hadv, Hrun. split; [done|].
    split; [constructor; [by left|done]|].
    intros Hmono Hskip. destruct (Hfound Hmono Hskip) as (Heq & Hlo & Hhi & Hfit & Hnot).
    subst l' h'. destruct (fits1 m) eqn:Hfm.
    + split; [done|]. split; [lia|]. split; [lia|]. split; [|done].
      intros z Hz. destruct (decide (z <= m)); [by apply (Hmono z m)|apply Hfit; lia].
    + split; [done|]. split; [lia|]. split; [lia|]. split; [done|].
      intros z Hz. destruct (decide (m <= z)); [by apply (Hanti m z)|apply Hnot; lia].
  - apply Z.leb_gt in Hcont.
    assert (lo_hi : l' = h' + 1 /\ l <= l' /\ h' <= h
              /\ (monotone fits1 ->
                  (forall z, l <= z < l' -> fits1 z = true)
                  /\ (forall z, h' < z <= h -> fits1 z = false))).
    { subst l' h'. destruct (fits1 m) eqn:Hfm.
      - split; [lia|]. split; [lia|]. split; [lia|]. intros Hmono. split.
        + intros z Hz. apply (Hmono z m); [lia|done].
        + intros z Hz. lia.
      - split; [lia|]. split; [lia|]. split; [lia|]. intros Hmono. split.
        + intros z Hz. lia.
        + intros z Hz. apply (Hanti m z); [lia|done|done]. }
    destruct lo_hi as (Heq & Hlo & Hhi & Hfound).
    destruct (skips_secondary (config r)) eqn:Hskip.
    { exists 1%nat, l', h', [PrimaryTested (token r)].
      split; [lia|]. rewrite machine_S, Hadv. split; [done|].
      split; [constructor; [by left|constructor]|].
      intros Hmono _. destruct (Hfound Hmono). done. }
    destruct (fits2 m) eqn:Hsec.
    { exists 1%nat, l', h', [PrimaryTested (token r); SecondaryTested (token r)].
      split; [lia|]. rewrite machine_S, Hadv. split; [done|].
      split; [constructor; [by left|constructor; [by right|constructor]]|].
      intros Hmono _. destruct (Hfound Hmono). done. }
    destruct (a <? m) eqn:Ham.
    + apply Z.ltb_lt in Ham.
      destruct (secondary_finishes K0 a m) as (k & lo & hi & tests & Hk & Hrun & Htests).
      { lia. } { done. } { lia. }
      exists (S k), lo, hi, (PrimaryTested (token r) :: SecondaryTested (token r) :: tests).
      split; [lia|]. rewrite machine_S, Hadv, Hrun. split; [done|].
      split; [constructor; [by left|constructor; [by right|done]]|].
      intros _ [?|Hall]; [done|]. rewrite Hall in Hsec. done.
    + exists 1%nat, a, m, [PrimaryTested (token r); SecondaryTested (token r)].
      split; [lia|]. rewrite machine_S, Hadv. split; [done|].
      split; [constructor; [by left|constructor; [by right|constructor]]|].
      intros _ [?|Hall]; [done|]. rewrite Hall in Hsec. done.
Qed.

Lemma machine_app k1 : forall k2 s,
  machine (k1 + k2) s
  = (let '(s1, out1) := machine k1 s in
     let '(s2, out2) := machine k2 s1 in (s2, out1 ++ out2)).
Proof.
  induction k1 as [|k1 IH]; intros k2 s.
  - cbn. by destruct (machine k2 s).
  - cbn [Nat.add]. rewrite !machine_S. destruct (advance s) as [s1 out1].
    rewrite IH. destruct (machine k1 s1) as [s2 out2].
    destruct (machine k2 s2) as [s3 out3]. by rewrite app_assoc.
Qed.

(** From the first candidate to the call of [onReady]. *)
Lemma machine_finishes (K : nat) :
  b - a + 1 < 2 ^ Z.of_nat K ->
  exists k tests z,
    (k <= 2 * K + 2)%nat
    /\ machine k (Primary a b) = (Finished (VNum z), tests ++ [OnReady (token r) (VNum z)])
    /\ Forall (is_test (token r)) tests
    /\ a <= z <= b
    /\ (monotone fits1 ->
        skips_secondary (config r) = true \/ (forall m, fits2 m = true) ->
        largest_fit fits1 a b z).
Proof.
  intros HK.
  destruct (primary_finishes K K HK a b) as (k & lo & hi & tests & Hk & Hrun & Htests & Hfound);
    [lia..|].
  destruct (limits_effective lo hi) as [Hlim Hin].
  set (z := Z.max (Z.min (Z.max (Z.min lo hi) a) b) 0) in *.
  exists (k + 2)%nat, tests, z. split; [lia|].
  rewrite machine_app, Hrun. cbn. rewrite Hlim.
  split; [done|]. split; [done|]. split; [done|].
  intros Hmono Hskip. destruct (Hfound Hmono Hskip) as (Heq & Hlo & Hhi & Hfit & Hnot).
  split; [done|]. split.
  - intros Hfa.
    assert (a <= hi) as Hge.
    { destruct (decide (a <= hi)); [done|]. rewrite Hnot in Hfa by lia. done. }
    assert (z = hi) as -> by lia.
    split; [apply Hfit; lia|]. intros z' Hz'. apply Hnot. lia.
  - intros Hfa.
    assert (hi < a) as Hlt.
    { destruct (decide (hi < a)); [done|]. rewrite Hfit in Hfa by lia. done. }
    lia.
Qed.

(** The size a turn puts on the screen lies in the range. *)
Lemma applied_ok s :
  stage_ok a b s -> exists z, applied r s = VNum z /\ a <= z <= b.
Proof.
  destruct s as [l h|l h|lo hi|v|v]; cbn [stage_ok applied].
  - intros [Hl Hh]. pose proof (half_between l h). eexists. split; [done|]. lia.
  - intros [Hl Hh]. pose proof (half_between l h). eexists. split; [done|]. lia.
  - intros (l & h & -> & ->). destruct (limits_effective l h) as [-> ?]. eauto.
  - done.
  - done.
Qed.

Lemma solo_run_size k : forall s w,
  stage_ok a b s -> at_stage r s w ->
  exists w' out,
    run scrollWidth scrollHeight (replicate (S k) Tick) w = Some (w', out)
    /\ exists z, fontSize w' = VNum z /\ a <= z <= b.
Proof.
  induction k as [|k IH]; intros s w Hok Hat;
    destruct (solo_step r a b s w) as (w1 & Hstep & Hat1 & _ & Hfs); try done; try lia;
    cbn [replicate run]; rewrite Hstep; cbn [mbind option_bind].
  - eexists _, _. split; [done|]. rewrite Hfs. by apply applied_ok.
  - destruct (IH _ w1 (advance_ok s Hok) Hat1) as (w2 & out2 & Hrun & Hz).
    cbn [replicate run] in Hrun. rewrite Hrun. cbn. eauto.
Qed.

(** A run that has left step 1 has made a primary test, and unless step 2
    is skipped, a secondary test. *)
Lemma primary_tests k : forall l h,
  (forall l' h', (machine k (Primary l h)).1 <> Primary l' h') ->
  PrimaryTested (token r) ∈ (machine k (Primary l h)).2
  /\ (skips_secondary (config r) = false ->
      SecondaryTested (token r) ∈ (machine k (Primary l h)).2).
Proof.
  induction k as [|k IH]; intros l h Hleft; [by destruct (Hleft l h)|].
  rewrite machine_S in *.
  set (m := (l + h) / 2) in *.
  set (l' := if fits1 m then m + 1 else l).
  set (h' := if fits1 m then h else m - 1).
  assert (advance (Primary l h)
          = if l' <=? h' then (Primary l' h', [PrimaryTested (token r)])
            else if skips_secondary (config r) then
              (Limits (VNum l') (VNum h'), [PrimaryTested (token r)])
            else if fits2 m then
              (Limits (VNum l') (VNum h'),
               [PrimaryTested (token r); SecondaryTested (token r)])
            else if a <? m then
              (Secondary a m, [PrimaryTested (token r); SecondaryTested (token r)])
            else
              (Limits (VNum a) (VNum m),
               [PrimaryTested (token r); SecondaryTested (token r)])) as Hadv by done.
  rewrite Hadv in *. clear Hadv.
  destruct (l' <=? h').
  - specialize (IH l' h'). destruct (machine k (Primary l' h')) as [s2 out2].
    cbn [fst snd] in *. destruct (IH Hleft) as [Hp Hsec]. split.
    + by left.
    + intros Hskip. right. by apply Hsec.
  - destruct (skips_secondary (config r)).
    { destruct (machine k _) as [s2 out2]. cbn. split; [by left|done]. }
    destruct (fits2 m).
    { destruct (machine k _) as [s2 out2]. cbn. split; [by left|]. intros _. right. by left. }
    destruct (a <? m); destruct (machine k _) as [s2 out2]; cbn;
      (split; [by left|]); intros _; right; by left.
Qed.

End bounds.

(** A request with a range [a <= b]: the token is minted, and the update
    [ready: false] and the first candidate of step 1 join the queue. *)
Lemma request_queues_search p ow oh a b w :
  js_le oh (VNum 0) || isNaN oh = false ->
  js_le ow (VNum 0) || isNaN ow = false ->
  js_or (min p) (VNum 1) = VNum a -> js_or (max p) (VNum 100) = VNum b -> 0 < a <= b ->
  exists w',
    process scrollWidth scrollHeight p (Some (ow, oh)) w = Some (w', [])
    /\ this_pid w' = S (idCounter w) /\ idCounter w' = S (idCounter w)
    /\ queue w'
       = queue w ++ [SetState (Ready false) None;
                     SetState (FontSize (VNum ((a + b) / 2))) (Some (S (idCounter w), KPrimary))]
    /\ closures w' !! S (idCounter w)
       = Some (locals (mkRun (S (idCounter w)) p ow oh) (VNum a) (VNum b)
                 (VNum ((a + b) / 2)) (mkSeriesSt [] 0 false)).
Proof.
  intros Hh Hw Ha Hb Hab. destruct w as [tp idc fs rd qu cl].
  unfold process. rewrite Hh, Hw.
  unfold uniqueId, set_this_pid, series. exec.
  rewrite Nat.eqb_refl. cbn [negb]. rewrite Ha, Hb.
  assert (js_le (VNum a) (VNum b) = true) as -> by (cbn; lia).
  cbn [mbind option_bind]. unfold suspend. exec.
  eexists. split; [reflexivity|].
  unfold locals. cbn [this_pid queue closures idCounter token config width height].
  rewrite parseInt_half_floor by lia.
  do 2 (split; [done|]). split; [by rewrite <- app_assoc|].
  exact (lookup_insert_eq _ _ _).
Qed.

(** The run reaches its first candidate once the host has fired the jobs
    that were in its queue, which belong to earlier runs, and has applied
    [ready: false]. *)
Lemma request_reaches_search p ow oh a b w :
  inv w ->
  js_le oh (VNum 0) || isNaN oh = false ->
  js_le ow (VNum 0) || isNaN ow = false ->
  js_or (min p) (VNum 1) = VNum a -> js_or (max p) (VNum 100) = VNum b -> 0 < a <= b ->
  exists w' out,
    run scrollWidth scrollHeight
      (Request p (Some (ow, oh)) :: replicate (length (queue w)) Tick ++ [Tick]) w
    = Some (w', out)
    /\ at_stage (mkRun (S (idCounter w)) p ow oh) (Primary a b) w'
    /\ Forall (fun e => exists u q v,
                 e = OnReady q v /\ SetState u (Some (q, KReady)) ∈ queue w) out.
Proof.
  intros Hinv Hh Hw Ha Hb Hab.
  destruct (request_queues_search p ow oh a b w) as (w1 & Hp & Htp1 & Hid1 & Hq1 & Hcl1);
    try done.
  assert (inv w1) as Hinv1.
  { destruct (step_spec scrollWidth scrollHeight (Request p (Some (ow, oh))) w Hinv)
      as (w2 & out2 & Hs2 & ? & _). cbn [step] in Hs2. congruence. }
  destruct (drain scrollWidth scrollHeight (length (queue w)) w1 Hinv1)
    as (w2 & out & Hrun & Hinv2 & Hq2 & Htp2 & Hid2 & Hcl2 & Hout).
  { rewrite Hq1, take_app_length, Htp1. intros q Hin.
    destruct Hinv as [_ _ Hfresh _]. apply Hfresh in Hin. lia. }
  rewrite Hq1, drop_app_length in Hq2. rewrite Hq1, take_app_length in Hout.
  rewrite Htp1 in Hcl2, Htp2. rewrite Hcl1 in Hcl2.
  cbn [run step]. rewrite Hp. cbn [mbind option_bind].
  rewrite run_app, Hrun. cbn [mbind option_bind run step]. rewrite Hq2. cbn [fire apply_update].
  cbn [mbind option_bind]. eexists _, _. split; [reflexivity|].
  split; [|by rewrite !app_nil_r].
  unfold at_stage. cbn [this_pid ready queue closures token searching negb].
  split; [done|]. split; [done|]. split; [done|]. eauto.
Qed.


(** *** Whole runs *)

Lemma pow2_gt (n : Z) : 0 <= n -> n < 2 ^ Z.of_nat (Z.to_nat n).
Proof. intros Hn. rewrite Z2Nat.id by done. apply Z.pow_gt_lin_r; lia. Qed.

Lemma request_completes p ow oh a b K w :
  inv w ->
  js_le oh (VNum 0) || isNaN oh = false ->
  js_le ow (VNum 0) || isNaN ow = false ->
  js_or (min p) (VNum 1) = VNum a -> js_or (max p) (VNum 100) = VNum b -> 0 < a <= b ->
  b - a + 1 < 2 ^ Z.of_nat K ->
  exists k w' out z,
    (k <= length (queue w) + 2 * K + 3)%nat
    /\ run scrollWidth scrollHeight (Request p (Some (ow, oh)) :: replicate k Tick) w
       = Some (w', out ++ [OnReady (S (idCounter w)) (VNum z)])
    /\ Forall (fun e => is_test (S (idCounter w)) e
                        \/ exists u q v,
                             e = OnReady q v /\ SetState u (Some (q, KReady)) ∈ queue w) out
    /\ a <= z <= b
    /\ at_stage (mkRun (S (idCounter w)) p ow oh) (Finished (VNum z)) w'
    /\ (monotone (fits_primary scrollWidth scrollHeight (mkRun (S (idCounter w)) p ow oh)) ->
        skips_secondary p = true
        \/ (forall m, fits_secondary scrollWidth scrollHeight
                        (mkRun (S (idCounter w)) p ow oh) m = true) ->
        largest_fit (fits_primary scrollWidth scrollHeight (mkRun (S (idCounter w)) p ow oh))
          a b z)
    /\ PrimaryTested (S (idCounter w)) ∈ out
    /\ (skips_secondary p = false -> SecondaryTested (S (idCounter w)) ∈ out).
Proof.
  intros Hinv Hh Hw Ha Hb Hab HK.
  set (r := mkRun (S (idCounter w)) p ow oh).
  destruct (request_reaches_search p ow oh a b w) as (w1 & out1 & Hrun1 & Hat1 & Hout1);
    try done.
  destruct (machine_finishes r a b Ha Hb Hab K HK)
    as (k & tests & z & Hk & Hm & Htests & Hz & Hfit).
  destruct (solo_run r a b Ha Hb Hab k (Primary a b) w1) as (w2 & Hrun2 & Hat2 & _);
    [cbn; lia|done|].
  rewrite Hm in Hrun2, Hat2. cbn [fst snd] in Hrun2, Hat2.
  exists (length (queue w) + 1 + k)%nat, w2, (out1 ++ tests), z.
  split; [lia|]. split; [|split; [|split; [done|split; [done|]]]].
  - rewrite <- Nat.add_assoc, !replicate_add.
    rewrite app_assoc, app_comm_cons. change (replicate 1 Tick) with [Tick].
    rewrite run_app, Hrun1. cbn [mbind option_bind]. rewrite Hrun2. cbn.
    by rewrite app_assoc.
  - apply Forall_app. split.
    + eapply Forall_impl; [exact Hout1|]. cbn. auto.
    + eapply Forall_impl; [exact Htests|]. cbn. auto.
  - split; [done|].
    destruct (primary_tests r a k a b) as [Hp Hsec].
    { intros l' h'. by rewrite Hm. }
    rewrite Hm in Hp, Hsec. cbn [fst snd] in Hp, Hsec. split.
    + apply elem_of_app. right.
      apply elem_of_app in Hp as [Hp|Hp]; [done|].
      apply list_elem_of_singleton in Hp. done.
    + intros Hskip. apply elem_of_app. right.
      apply elem_of_app in Hsec as [Hsec|Hsec]; [done| |done].
      apply list_elem_of_singleton in Hsec. done.
Qed.

(** X9: the newest request always comes to its end.  Whatever the host has
    done before and whatever is still in its queue, a request with a
    measured box and a range [a <= b] (the numbers [min || 1] and
    [max || 100], so that a missing or zero bound counts as its default)
    with [b < 2 ^ 52], where the candidates are computed without rounding,
    that no later request or unmount supersedes is followed by the call of
    [onReady] with the size of this run, within as many turns of the host as
    there were jobs in the queue plus [2 * K + 3] when [b - a + 1 < 2 ^ K].
    Until then only fit tests of this run happen, and the [onReady] of a last
    callback that was in the queue already; the size lies in [[a, b]] and is
    the font size in the state, [ready] is true, and nothing is left with
    the host. *)
Theorem latest_request_completes p ow oh a b K w :
  reachable scrollWidth scrollHeight w ->
  js_le oh (VNum 0) || isNaN oh = false ->
  js_le ow (VNum 0) || isNaN ow = false ->
  js_or (min p) (VNum 1) = VNum a -> js_or (max p) (VNum 100) = VNum b -> 0 < a <= b ->
  b < 2 ^ 52 ->
  b - a + 1 < 2 ^ Z.of_nat K ->
  exists k w' out z,
    (k <= length (queue w) + 2 * K + 3)%nat
    /\ run scrollWidth scrollHeight (Request p (Some (ow, oh)) :: replicate k Tick) w
       = Some (w', out ++ [OnReady (S (idCounter w)) (VNum z)])
    /\ Forall (fun e => is_test (S (idCounter w)) e
                        \/ exists u q v,
                             e = OnReady q v /\ SetState u (Some (q, KReady)) ∈ queue w) out
    /\ a <= z <= b
    /\ queue w' = [] /\ ready w' = true /\ fontSize w' = VNum z
    /\ this_pid w' = S (idCounter w).
Proof.
  intros Hreach Hh Hw Ha Hb Hab _ HK.
  destruct (request_completes p ow oh a b K w)
    as (k & w' & out & z & Hk & Hrun & Hout & Hz & (Htp & Hrd & Hqu & Hfs) & _); try done.
  { by eapply reachable_inv. }
  exists k, w', out, z. done.
Qed.

(** X10: the search finds the largest size that fits.  When step 2 is
    skipped (single-line mode with [forceSingleModeWidth]) or its test
    passes at every size, and a size that passes the primary test lets every
    smaller size pass, the size the newest run reports is the largest size
    of [[a, b]] that passes the primary test; when not even [a] passes, it
    is [a].  The range is [a <= b] with [b < 2 ^ 52], where the candidates
    are computed without rounding. *)
Theorem search_finds_largest_fit p ow oh a b w :
  reachable scrollWidth scrollHeight w ->
  js_le oh (VNum 0) || isNaN oh = false ->
  js_le ow (VNum 0) || isNaN ow = false ->
  js_or (min p) (VNum 1) = VNum a -> js_or (max p) (VNum 100) = VNum b -> 0 < a <= b ->
  b < 2 ^ 52 ->
  monotone (fits_primary scrollWidth scrollHeight (mkRun (S (idCounter w)) p ow oh)) ->
  skips_secondary p = true
  \/ (forall m, fits_secondary scrollWidth scrollHeight
                  (mkRun (S (idCounter w)) p ow oh) m = true) ->
  exists k w' out z,
    run scrollWidth scrollHeight (Request p (Some (ow, oh)) :: replicate k Tick) w
    = Some (w', out ++ [OnReady (S (idCounter w)) (VNum z)])
    /\ fontSize w' = VNum z
    /\ largest_fit (fits_primary scrollWidth scrollHeight (mkRun (S (idCounter w)) p ow oh))
         a b z.
Proof.
  intros Hreach Hh Hw Ha Hb Hab _ Hmono Hskip.
  destruct (request_completes p ow oh a b (Z.to_nat (b - a + 1)) w)
    as (k & w' & out & z & Hk & Hrun & Hout & Hz & (Htp & Hrd & Hqu & Hfs) & Hfit & _);
    try done.
  { by eapply reachable_inv. }
  { apply pow2_gt. lia. }
  exists k, w', out, z. auto.
Qed.

(** X18: a run that ends has measured.  With a range [a <= b] where
    [b < 2 ^ 52], so that the candidates are computed without rounding, the
    newest run makes at least one primary test before it calls [onReady],
    and unless step 2 is skipped (single-line mode with
    [forceSingleModeWidth]), at least one secondary test as well. *)
Theorem secondary_test_runs_unless_skipped p ow oh a b w :
  reachable scrollWidth scrollHeight w ->
  js_le oh (VNum 0) || isNaN oh = false ->
  js_le ow (VNum 0) || isNaN ow = false ->
  js_or (min p) (VNum 1) = VNum a -> js_or (max p) (VNum 100) = VNum b -> 0 < a <= b ->
  b < 2 ^ 52 ->
  exists k w' out z,
    run scrollWidth scrollHeight (Request p (Some (ow, oh)) :: replicate k Tick) w
    = Some (w', out ++ [OnReady (S (idCounter w)) (VNum z)])
    /\ PrimaryTested (S (idCounter w)) ∈ out
    /\ (skips_secondary p = false -> SecondaryTested (S (idCounter w)) ∈ out).
Proof.
  intros Hreach Hh Hw Ha Hb Hab _.
  destruct (request_completes p ow oh a b (Z.to_nat (b - a + 1)) w)
    as (k & w' & out & z & _ & Hrun & _ & _ & _ & _ & Hp & Hsec); try done.
  { by eapply reachable_inv. }
  { apply pow2_gt. lia. }
  exists k, w', out, z. done.
Qed.

(** X19: the search never puts a size outside the range on the screen.
    With a range [a <= b] where [b < 2 ^ 52], so that the candidates are
    computed without rounding: once the first candidate of the newest run is
    applied, the font size in the state is, after every further turn of the
    host, a number in [[a, b]]: every candidate of both searches and the
    final size lie in the range, and no update of an earlier run comes in
    between. *)
Theorem applied_sizes_stay_in_range p ow oh a b w j wj outj :
  reachable scrollWidth scrollHeight w ->
  js_le oh (VNum 0) || isNaN oh = false ->
  js_le ow (VNum 0) || isNaN ow = false ->
  js_or (min p) (VNum 1) = VNum a -> js_or (max p) (VNum 100) = VNum b -> 0 < a <= b ->
  b < 2 ^ 52 ->
  run scrollWidth scrollHeight
    (Request p (Some (ow, oh)) :: replicate (length (queue w) + 2 + j) Tick) w
  = Some (wj, outj) ->
  exists z, fontSize wj = VNum z /\ a <= z <= b.
Proof.
  intros Hreach Hh Hw Ha Hb Hab _ Hrun.
  set (r := mkRun (S (idCounter w)) p ow oh).
  destruct (request_reaches_search p ow oh a b w) as (w1 & out1 & Hrun1 & Hat1 & _);
    try done; [by eapply reachable_inv|].
  destruct (solo_run_size r a b Ha Hb Hab j (Primary a b) w1) as (w2 & out2 & Hrun2 & Hz);
    [cbn; lia|done|].
  replace (length (queue w) + 2 + j)%nat with (length (queue w) + (1 + S j))%nat in Hrun by lia.
  rewrite !replicate_add, app_assoc, app_comm_cons in Hrun.
  change (replicate 1 Tick) with [Tick] in Hrun.
  rewrite run_app, Hrun1 in Hrun. cbn [mbind option_bind] in Hrun.
  rewrite Hrun2 in Hrun. cbn in Hrun. by injection Hrun as <- <-.
Qed.

(** X20: the engine warns only when it turns a request down.  Whatever the
    host has done before, a warning comes from a request whose measured
    height or width is not a positive number, and from nothing else: that
    request changes nothing and emits that one warning only.  No callback,
    no unmount and no request that is taken up ever warns. *)
Theorem engine_warns_only_on_rejection w ev w' out m :
  reachable scrollWidth scrollHeight w ->
  step scrollWidth scrollHeight ev w = Some (w', out) ->
  Warn m ∈ out ->
  exists p ow oh,
    ev = Request p (Some (ow, oh))
    /\ (js_le oh (VNum 0) || isNaN oh) || (js_le ow (VNum 0) || isNaN ow) = true
    /\ w' = w /\ out = [Warn m].
Proof.
  intros Hreach Hstep Hin.
  pose proof (reachable_inv _ _ _ Hreach) as Hinv.
  destruct ev as [p [[ow oh]|]| |]; cbn [step] in Hstep.
  - destruct ((js_le oh (VNum 0) || isNaN oh) || (js_le ow (VNum 0) || isNaN ow)) eqn:Hbad.
    + rewrite process_rejects in Hstep by done. simplify_eq.
      apply list_elem_of_singleton in Hin. exists p, ow, oh. by rewrite Hin.
    + apply orb_false_iff in Hbad as [Hh Hw]. exfalso.
      destruct (process_frame scrollWidth scrollHeight p ow oh w Hh Hw)
        as (w2 & out2 & Hp & _ & _ & _ & Hout).
      rewrite Hp in Hstep. simplify_eq.
      eapply Forall_forall in Hout; [|exact Hin]. by destruct Hout.
  - cbn in Hstep. simplify_eq. by apply elem_of_nil in Hin.
  - exfalso. destruct (queue w) as [|j js] eqn:Hq.
    { simplify_eq. by apply elem_of_nil in Hin. }
    destruct (tick_frame scrollWidth scrollHeight w j js Hinv Hq)
      as (w2 & out2 & Hs & _ & _ & _ & Hout & _).
    cbn [step] in Hs. rewrite Hq in Hs. rewrite Hs in Hstep. simplify_eq.
    eapply Forall_forall in Hout; [|exact Hin].
    destruct Hout as [[[?|?] _]|(u & q & v & _ & ?)]; done.
  - simplify_eq. by apply elem_of_nil in Hin.
Qed.

(** X11: step 2 as the code has it.  While step 2 searches [[l, h]] with
    [l < h] and [h <= b < 2 ^ 52], where the candidates are computed without
    rounding, one turn of the host applies the candidate
    [floor((l + h) / 2)] and makes the secondary test at it; the bounds
    become [mid + 1, h] when the test passes and [l, mid - 1] when it fails,
    and their distance more than halves.  Step 2 goes on only while the new
    [low < high]: when the bounds meet it stops and hands them to step 3
    without having tested the size they meet at.  It is over within [K]
    turns when [h - l < 2 ^ K]. *)
Theorem phase2_is_strict_binary_search r a b K l h w :
  js_or (min (config r)) (VNum 1) = VNum a ->
  js_or (max (config r)) (VNum 100) = VNum b ->
  0 < a <= l -> l < h -> h <= b -> b < 2 ^ 52 -> h - l < 2 ^ Z.of_nat K ->
  at_stage r (Secondary l h) w ->
  let mid := (l + h) / 2 in
  let fits := fits_secondary scrollWidth scrollHeight r mid in
  let l' := if fits then mid + 1 else l in
  let h' := if fits then h else mid - 1 in
  (exists w',
     step scrollWidth scrollHeight Tick w = Some (w', [SecondaryTested (token r)])
     /\ fontSize w' = VNum mid
     /\ if l' <? h' then at_stage r (Secondary l' h') w'
        else at_stage r (Limits (VNum l') (VNum h')) w')
  /\ 2 * (h' - l') < h - l
  /\ exists k w' tests lo hi,
       (k <= K)%nat
       /\ run scrollWidth scrollHeight (replicate k Tick) w = Some (w', tests)
       /\ Forall (is_test (token r)) tests
       /\ at_stage r (Limits (VNum lo) (VNum hi)) w'.
Proof.
  intros Ha Hb Hal Hlh Hhb _ HK Hat. cbv zeta.
  assert (stage_ok a b (Secondary l h)) as Hok by (cbn; lia).
  split; [|split].
  - destruct (solo_step r a b (Secondary l h) w) as (w' & Hstep & Hat' & _ & Hfs);
      try done; [lia|].
    exists w'. unfold advance in Hstep, Hat'.
    destruct (fits_secondary _ _ r _); destruct (_ <? _); done.
  - pose proof (half_bounds l h). destruct (fits_secondary _ _ r _); lia.
  - destruct (secondary_finishes r a K l h) as (k & lo & hi & tests & Hk & Hrun & Htests);
      [lia|done|done|].
    destruct (solo_run r a b Ha Hb ltac:(lia) k (Secondary l h) w) as (w' & Hrun' & Hat' & _);
      [done|done|].
    rewrite Hrun in Hrun', Hat'. exists k, w', tests, lo, hi. done.
Qed.

(** X12: a range that is upside down.  With [max || 100] below [min || 1]
    step 1 tests nothing and applies no candidate.  Step 2 runs inside the
    request itself, before any state update is applied: unless it is
    skipped, it makes its test on the screen as it is.  When it is skipped
    or its test passes, the run reports [max]; when its test fails, [high]
    is set from a candidate that was never assigned, and the run applies and
    reports [NaN]. *)
Theorem inverted_range_reports_max_or_NaN p ow oh a b w :
  queue w = [] ->
  js_le oh (VNum 0) || isNaN oh = false ->
  js_le ow (VNum 0) || isNaN ow = false ->
  js_or (min p) (VNum 1) = VNum a -> js_or (max p) (VNum 100) = VNum b -> 0 < b < a ->
  let r := mkRun (S (idCounter w)) p ow oh in
  let size :=
    if skips_secondary p || fits_secondary_now scrollWidth scrollHeight r (fontSize w)
    then VNum b else VNaN in
  exists w',
    run scrollWidth scrollHeight (Request p (Some (ow, oh)) :: replicate 3 Tick) w
    = Some (w', (if skips_secondary p then [] else [SecondaryTested (S (idCounter w))])
                  ++ [OnReady (S (idCounter w)) size])
    /\ fontSize w' = size /\ ready w' = true /\ queue w' = [].
Proof.
  intros Hq Hh Hw Ha Hb Hab. destruct w as [tp idc fs rd qu cl]. cbn in Hq. subst qu.
  assert (limits p (VNum a) (VNum b) = VNum b) as Hlim1.
  { unfold limits. rewrite Ha, Hb. cbn. f_equal. lia. }
  assert (limits p (VNum a) VUndefined = VNaN) as Hlim2.
  { unfold limits. rewrite Ha, Hb. done. }
  cbv zeta. unfold fits_secondary_now. cbn [config width height fontSize idCounter].
  cbn [run step replicate]. unfold process. rewrite Hh, Hw.
  unfold uniqueId, set_this_pid, series. exec.
  rewrite Nat.eqb_refl. cbn [negb]. rewrite Ha, Hb.
  assert (js_le (VNum a) (VNum b) = false) as -> by (cbn; lia).
  repeat first
    [ rewrite Nat.eqb_refl | rewrite lookup_insert_eq | rewrite Hlim1 | rewrite Hlim2
    | progress cbn [mbind option_bind app fire apply_update js_lt js_le toNumber negb orb
                    run step queue closures world env out fst snd]
    | progress unfold suspend | split_if | progress exec ].
  all: eexists; split; [reflexivity|]; cbn; done.
Qed.

(** *** Runs that have nothing left to do *)

Lemma spent_step q ev w w' out :
  inv w -> spent q w ->
  step scrollWidth scrollHeight ev w = Some (w', out) ->
  spent q w' /\ Forall (fun e => ~ event_of q e) out.
Proof.
  intros Hinv [Hle Hjobs] Hstep.
  destruct ev as [p [[ow oh]|]| |]; cbn [step] in Hstep.
  - destruct (js_le oh (VNum 0) || isNaN oh) eqn:Hh.
    { unfold process in Hstep. rewrite Hh in Hstep. simplify_eq.
      split; [done|]. constructor; [|constructor]. cbn. auto. }
    destruct (js_le ow (VNum 0) || isNaN ow) eqn:Hw.
    { unfold process in Hstep. rewrite Hh, Hw in Hstep. simplify_eq.
      split; [done|]. constructor; [|constructor]. cbn. auto. }
    destruct (process_frame scrollWidth scrollHeight p ow oh w Hh Hw)
      as (w1 & out1 & Hp & Htp & Hid & Hnew & Hout).
    rewrite Hp in Hstep. simplify_eq. split; [split|].
    + lia.
    + intros u k Hin. rewrite Htp. destruct (Hnew _ Hin) as [Hold|[Hnone|Hfresh]].
      * destruct (Hjobs u k Hold). split; [lia|done].
      * done.
      * cbn in Hfresh. simplify_eq. lia.
    + eapply Forall_impl; [exact Hout|]. cbn. intros e [-> | ->]; cbn; lia.
  - cbn in Hstep. simplify_eq. split; [done|constructor].
  - case_eq (queue w); [intros Hq|intros j js Hq]; rewrite Hq in Hstep.
    { simplify_eq. split; [by split|constructor]. }
    destruct (tick_frame scrollWidth scrollHeight w j js Hinv Hq)
      as (w1 & out1 & Hs & Htp & Hid & Hnew & Hout & _).
    cbn [step] in Hs. rewrite Hq in Hs. rewrite Hs in Hstep. simplify_eq.
    assert (job_pid j = Some q -> q <> this_pid w /\ forall u, j <> SetState u (Some (q, KReady)))
      as Hhead.
    { intros Hj. destruct Hinv as [Hok _ _ _]. rewrite Hq in Hok.
      apply Forall_cons in Hok as [Hok _].
      destruct j as [u [[q' k]|]|q' e]; cbn in Hj, Hok; [|done|done].
      simplify_eq. destruct (Hjobs u k) as [? ?]; [rewrite Hq; by left|].
      split; [done|]. intros u' ?. simplify_eq. }
    split; [split|].
    + lia.
    + rewrite Htp. intros u k Hin.
      destruct Hnew as [Hjs|(u' & k' & Hjs & Hcur & _)]; rewrite Hjs in Hin.
      * apply (Hjobs u k). rewrite Hq. by right.
      * apply elem_of_app in Hin as [Hin|Hin]; [apply (Hjobs u k); rewrite Hq; by right|].
        apply list_elem_of_singleton in Hin. simplify_eq.
        destruct (Hhead Hcur). done.
    + eapply Forall_impl; [exact Hout|]. cbn.
      intros e [[[-> | ->] Hcur]|(u & q' & v & -> & ->)]; cbn; intros <-.
      * by destruct (Hhead Hcur).
      * by destruct (Hhead Hcur).
      * destruct (Hhead eq_refl) as [_ Hne]. by apply (Hne u).
  - simplify_eq. unfold spent. cbn. split; [|constructor]. split; [lia|].
    intros u k Hin. destruct (Hjobs u k Hin). split; [lia|done].
Qed.

Lemma spent_run q evs : forall w w' out,
  inv w -> spent q w ->
  run scrollWidth scrollHeight evs w = Some (w', out) ->
  Forall (fun e => ~ event_of q e) out.
Proof.
  induction evs as [|ev evs IH]; intros w w' out Hinv Hspent; cbn.
  - intros [= <- <-]. constructor.
  - destruct (step_spec scrollWidth scrollHeight ev w Hinv) as (w1 & out1 & Hstep & Hinv1 & _).
    rewrite Hstep. cbn.
    destruct (run _ _ evs w1) as [[w2 out2]|] eqn:Hrun; cbn; [|done].
    intros [= <- <-]. destruct (spent_step q ev w w1 out1 Hinv Hspent Hstep) as [Hspent1 Hout1].
    apply Forall_app. split; [done|]. by eapply IH.
Qed.

(** X13: a run that has been superseded before it asked for [ready: true]
    is never heard of again.  When every callback of the run [q] that the
    host still holds is stale and is not the last one (in particular when
    the host holds none), then whatever the host does afterwards, requests
    and unmounts included, the run makes no fit test and never calls
    [onReady]. *)
Theorem spent_run_stays_silent q evs w w' out :
  reachable scrollWidth scrollHeight w ->
  spent q w ->
  run scrollWidth scrollHeight evs w = Some (w', out) ->
  Forall (fun e => ~ event_of q e) out.
Proof. intros Hreach. apply spent_run. by eapply reachable_inv. Qed.

(** X14: [onReady] is called at most once for a run.  The turn in which a
    run calls [onReady] emits nothing else, and whatever the host does
    afterwards, that run makes no fit test and does not call [onReady]
    again. *)
Theorem onReady_fires_once_per_run w ev w1 out1 q v evs w' out :
  reachable scrollWidth scrollHeight w ->
  step scrollWidth scrollHeight ev w = Some (w1, out1) ->
  OnReady q v ∈ out1 ->
  run scrollWidth scrollHeight evs w1 = Some (w', out) ->
  out1 = [OnReady q v] /\ Forall (fun e => ~ event_of q e) out.
Proof.
  intros Hreach Hstep Hin Hrun.
  pose proof (reachable_inv _ _ _ Hreach) as Hinv.
  assert (inv w1) as Hinv1.
  { destruct (step_spec scrollWidth scrollHeight ev w Hinv) as (w2 & out2 & Hs2 & ? & _).
    congruence. }
  destruct ev as [p [[ow oh]|]| |]; cbn [step] in Hstep.
  - exfalso. destruct (js_le oh (VNum 0) || isNaN oh) eqn:Hh.
    { unfold process in Hstep. rewrite Hh in Hstep. simplify_eq.
      apply list_elem_of_singleton in Hin. done. }
    destruct (js_le ow (VNum 0) || isNaN ow) eqn:Hw.
    { unfold process in Hstep. rewrite Hh, Hw in Hstep. simplify_eq.
      apply list_elem_of_singleton in Hin. done. }
    destruct (process_frame scrollWidth scrollHeight p ow oh w Hh Hw)
      as (w2 & out2 & Hp & _ & _ & _ & Hout).
    rewrite Hp in Hstep. simplify_eq.
    eapply Forall_forall in Hout; [|exact Hin]. by destruct Hout.
  - cbn in Hstep. simplify_eq. by apply elem_of_nil in Hin.
  - destruct (queue w) as [|j js] eqn:Hq.
    { simplify_eq. by apply elem_of_nil in Hin. }
    destruct (tick_frame scrollWidth scrollHeight w j js Hinv Hq)
      as (w2 & out2 & Hs & Htp & Hid & Hnew & Hout & _).
    pose proof Hs as Hs'. cbn [step] in Hs'. rewrite Hq in Hs'. rewrite Hs' in Hstep.
    simplify_eq.
    eapply Forall_forall in Hout; [|exact Hin].
    destruct Hout as [[[?|?] _]|(u & q' & v' & -> & [= <- <-])]; [done|done|].
    destruct Hinv as [Hok Hnodup Hfresh _]. rewrite Hq in Hok, Hnodup, Hfresh.
    apply Forall_cons in Hok as [(e & He & _) _]. cbn in Hnodup.
    apply NoDup_cons in Hnodup as [Hnotin _].
    destruct (ready_callback_ignores_token scrollWidth scrollHeight w u q js e Hq He)
      as (w3 & Hs3 & _).
    rewrite Hs in Hs3. simplify_eq. split.
    + apply list_elem_of_singleton in Hin. by rewrite Hin.
    + eapply (spent_run q evs); [exact Hinv1| |exact Hrun]. split.
      * rewrite Hid. apply Hfresh. cbn. by left.
      * intros u' k Hin'. exfalso. apply Hnotin.
        destruct Hnew as [Hjs|(? & ? & _ & _ & Hne)]; [|by destruct (Hne u q)].
        rewrite Hjs in Hin'. apply list_elem_of_omap. eexists. split; [exact Hin'|done].
  - simplify_eq. by apply elem_of_nil in Hin.
Qed.

(** X15: on a host that defers the callbacks of [setState], the recursion
    of [whilst] does not build up in the engine.  The host of the model
    calls a callback given to [setState] only after the code that called
    [setState] has returned (React when it batches updates); a host that
    runs the callback inside the call of [setState] is not covered.  On the
    deferring host the iterators of [process] call the callback of [whilst]
    before they return only to report a cancellation, which ends the loop;
    otherwise they hand the next callback to [setState] and return.  So one
    nested call of [next] is all a turn ever needs: with [nesting = 1], in
    whatever order this host takes requests, turns and unmounts, no request
    and no callback runs out of nesting or fails. *)
Theorem engine_never_nests_whilst evs w :
  reachable scrollWidth scrollHeight w ->
  exists w' out, run scrollWidth scrollHeight evs w = Some (w', out).
Proof.
  intros Hreach. pose proof (reachable_inv _ _ _ Hreach) as Hinv. clear Hreach.
  revert w Hinv. induction evs as [|ev evs IH]; intros w Hinv; cbn [run]; [eauto|].
  destruct (step_spec scrollWidth scrollHeight ev w Hinv) as (w1 & out1 & -> & Hinv1 & _).
  cbn [mbind option_bind].
  destruct (IH w1 Hinv1) as (w2 & out2 & ->). cbn. eauto.
Qed.

End solo.

Import TextfitStages FitScenarios.

Lemma only_the_current_run_works_witness :
  (forall q, PrimaryTested q ∈ [PrimaryTested 1%nat] \/ SecondaryTested q ∈ [PrimaryTested 1%nat] ->
     q = this_pid (headline_after 4))
  /\ (forall j, j ∈ queue (headline_after 4) ->
        j ∈ queue (headline_after 3) \/ job_pid j = None
        \/ job_pid j = Some (this_pid (headline_after 4))).
Proof.
  apply (only_the_current_run_works (overflows_above 30) never_overflows
           (headline_after 3) Tick (headline_after 4) [PrimaryTested 1%nat]).
  - apply headline_reachable.
  - vm_compute. reflexivity.
Defined.

Lemma new_run_gets_a_fresh_token_witness :
  exists w' out,
    step (overflows_above 30) never_overflows (Request headline (Some (VNum 200, VNum 50)))
      (headline_after 3) = Some (w', out)
    /\ (this_pid (headline_after 3) < this_pid w')%nat
    /\ closures (headline_after 3) !! this_pid w' = None
    /\ (this_pid w' ∉ omap job_pid (queue (headline_after 3)))
    /\ (forall q e, closures (headline_after 3) !! q = Some e -> (pid e < this_pid w')%nat).
Proof.
  apply (new_run_gets_a_fresh_token (overflows_above 30) never_overflows headline
           (VNum 200) (VNum 50) (headline_after 3)).
  - apply headline_reachable.
  - reflexivity.
  - reflexivity.
Defined.

Lemma unmount_cancels_every_run_witness :
  exists w' out,
    run (overflows_above 30) never_overflows (Unmount :: replicate 2 Tick) (headline_after 9)
    = Some (w', out)
    /\ queue w' = drop 2 (queue (headline_after 9))
    /\ this_pid w' = S (idCounter (headline_after 9))
    /\ Forall (fun e => exists u q v,
                 e = OnReady q v
                 /\ SetState u (Some (q, KReady)) ∈ take 2 (queue (headline_after 9))) out.
Proof.
  apply (unmount_cancels_every_run (overflows_above 30) never_overflows (headline_after 9) 2).
  apply headline_reachable.
Defined.

Lemma onReady_size_is_never_negative_witness :
  VNum 30 = VNaN
  \/ exists z, VNum 30 = VNum z /\ 0 <= z
       /\ forall e b, closures (headline_after 9) !! 1%nat = Some e ->
            js_or (max (props e)) (VNum 100) = VNum b -> z <= Z.max b 0.
Proof.
  apply (onReady_size_is_never_negative (overflows_above 30) never_overflows
           (headline_after 9) Tick (headline_after 10) [OnReady 1 (VNum 30)] 1%nat (VNum 30)).
  - apply headline_reachable.
  - vm_compute. reflexivity.
  - apply list_elem_of_singleton. reflexivity.
Defined.

Lemma latest_request_completes_witness :
  exists k w' out z,
    (k <= length (queue (headline_after 3)) + 2 * 7 + 3)%nat
    /\ run (overflows_above 30) never_overflows
         (Request headline (Some (VNum 200, VNum 50)) :: replicate k Tick) (headline_after 3)
       = Some (w', out ++ [OnReady (S (idCounter (headline_after 3))) (VNum z)])
    /\ Forall (fun e => is_test (S (idCounter (headline_after 3))) e
                        \/ exists u q v,
                             e = OnReady q v
                             /\ SetState u (Some (q, KReady)) ∈ queue (headline_after 3)) out
    /\ 1 <= z <= 100
    /\ queue w' = [] /\ ready w' = true /\ fontSize w' = VNum z
    /\ this_pid w' = S (idCounter (headline_after 3)).
Proof.
  apply (latest_request_completes (overflows_above 30) never_overflows headline
           (VNum 200) (VNum 50) 1 100 7 (headline_after 3)).
  - apply headline_reachable.
  - reflexivity.
  - reflexivity.
  - reflexivity.
  - reflexivity.
  - lia.
  - reflexivity.
  - reflexivity.
Defined.

Lemma headline_width_is_monotone q :
  monotone (fits_primary (overflows_above 30) never_overflows
              (mkRun q headline (VNum 200) (VNum 50))).
Proof.
  intros z z' Hle. unfold fits_primary, overflows_above. cbn.
  destruct (z' <=? 30) eqn:Hz'; [|done]. intros _.
  apply Z.leb_le in Hz'. replace (z <=? 30) with true by (symmetry; apply Z.leb_le; lia).
  done.
Qed.

Lemma search_finds_largest_fit_witness :
  exists k w' out z,
    run (overflows_above 30) never_overflows
      (Request headline (Some (VNum 200, VNum 50)) :: replicate k Tick) (mounted 0)
    = Some (w', out ++ [OnReady (S (idCounter (mounted 0))) (VNum z)])
    /\ fontSize w' = VNum z
    /\ largest_fit (fits_primary (overflows_above 30) never_overflows
                      (mkRun (S (idCounter (mounted 0))) headline (VNum 200) (VNum 50)))
         1 100 z.
Proof.
  apply (search_finds_largest_fit (overflows_above 30) never_overflows headline
           (VNum 200) (VNum 50) 1 100 (mounted 0)).
  - apply reachable_mounted.
  - reflexivity.
  - reflexivity.
  - reflexivity.
  - reflexivity.
  - lia.
  - reflexivity.
  - apply headline_width_is_monotone.
  - left. reflexivity.
Defined.

Lemma phase2_is_strict_binary_search_witness :
  let mid := (1 + 10) / 2 in
  let fits := fits_secondary (overflows_above 6) never_overflows
                (mkRun 1 paragraph (VNum 200) (VNum 50)) mid in
  let l' := if fits then mid + 1 else 1 in
  let h' := if fits then 10 else mid - 1 in
  (exists w',
     step (overflows_above 6) never_overflows Tick (paragraph_after 5)
     = Some (w', [SecondaryTested (token (mkRun 1 paragraph (VNum 200) (VNum 50)))])
     /\ fontSize w' = VNum mid
     /\ if l' <? h' then at_stage (mkRun 1 paragraph (VNum 200) (VNum 50)) (Secondary l' h') w'
        else at_stage (mkRun 1 paragraph (VNum 200) (VNum 50)) (Limits (VNum l') (VNum h')) w')
  /\ 2 * (h' - l') < 10 - 1
  /\ exists k w' tests lo hi,
       (k <= 4)%nat
       /\ run (overflows_above 6) never_overflows (replicate k Tick) (paragraph_after 5)
          = Some (w', tests)
       /\ Forall (is_test (token (mkRun 1 paragraph (VNum 200) (VNum 50)))) tests
       /\ at_stage (mkRun 1 paragraph (VNum 200) (VNum 50)) (Limits (VNum lo) (VNum hi)) w'.
Proof.
  apply (phase2_is_strict_binary_search (overflows_above 6) never_overflows
           (mkRun 1 paragraph (VNum 200) (VNum 50)) 1 10 4 1 10 (paragraph_after 5)).
  - reflexivity.
  - reflexivity.
  - lia.
  - lia.
  - lia.
  - reflexivity.
  - reflexivity.
  - split; [reflexivity|]. split; [reflexivity|]. split; [vm_compute; reflexivity|].
    split; [reflexivity|]. eexists. vm_compute. reflexivity.
Defined.

Lemma inverted_range_reports_max_or_NaN_witness :
  let r := mkRun (S (idCounter (mounted 0))) upside_down (VNum 200) (VNum 50) in
  let size :=
    if skips_secondary upside_down
       || fits_secondary_now always_overflows never_overflows r (fontSize (mounted 0))
    then VNum 10 else VNaN in
  exists w',
    run always_overflows never_overflows
      (Request upside_down (Some (VNum 200, VNum 50)) :: replicate 3 Tick) (mounted 0)
    = Some (w', (if skips_secondary upside_down then []
                 else [SecondaryTested (S (idCounter (mounted 0)))])
                  ++ [OnReady (S (idCounter (mounted 0))) size])
    /\ fontSize w' = size /\ ready w' = true /\ queue w' = [].
Proof.
  apply (inverted_range_reports_max_or_NaN always_overflows never_overflows upside_down
           (VNum 200) (VNum 50) 50 10 (mounted 0)).
  - reflexivity.
  - reflexivity.
  - reflexivity.
  - reflexivity.
  - reflexivity.
  - lia.
Defined.

Lemma superseded_reachable n :
  reachable (overflows_above 30) never_overflows (superseded_after n).
Proof.
  unfold superseded_after.
  destruct (run _ _ _ _) as [[w out]|] eqn:Hrun; [|apply reachable_mounted].
  eapply reachable_run; [apply reachable_mounted|exact Hrun].
Qed.

Lemma superseded_run_is_spent : spent 1 (superseded_after 0).
Proof.
  assert (queue (superseded_after 0)
          = [SetState (FontSize (VNum 25)) (Some (1%nat, KPrimary));
             SetState (Ready false) None;
             SetState (FontSize (VNum 50)) (Some (2%nat, KPrimary))]) as Hq
    by (vm_compute; reflexivity).
  assert (this_pid (superseded_after 0) = 2%nat) as Htp by (vm_compute; reflexivity).
  assert (idCounter (superseded_after 0) = 2%nat) as Hid by (vm_compute; reflexivity).
  split; [lia|]. intros u k Hin. rewrite Hq in Hin. rewrite Htp. clear Hq Htp Hid.
  repeat (apply elem_of_cons in Hin as [Hin|Hin];
          [simplify_eq; try (split; [lia|done])|]).
  by apply elem_of_nil in Hin.
Qed.

Lemma spent_run_stays_silent_witness :
  Forall (fun e => ~ event_of 1 e) (replicate 7 (PrimaryTested 2) ++ [OnReady 2 (VNum 30)]).
Proof.
  apply (spent_run_stays_silent (overflows_above 30) never_overflows 1 (replicate 12 Tick)
           (superseded_after 0) (superseded_after 12)
           (replicate 7 (PrimaryTested 2) ++ [OnReady 2 (VNum 30)])).
  - apply superseded_reachable.
  - apply superseded_run_is_spent.
  - vm_compute. reflexivity.
Defined.

Lemma onReady_fires_once_per_run_witness :
  [OnReady 1 (VNum 30)] = [OnReady 1 (VNum 30)]
  /\ Forall (fun e => ~ event_of 1 e) (replicate 7 (PrimaryTested 2) ++ [OnReady 2 (VNum 30)]).
Proof.
  apply (onReady_fires_once_per_run (overflows_above 30) never_overflows
           (headline_after 9) Tick (headline_after 10) [OnReady 1 (VNum 30)] 1%nat (VNum 30)
           (Request headline box :: replicate 11 Tick)
           (match run (overflows_above 30) never_overflows
                    (Request headline box :: replicate 11 Tick) (headline_after 10) with
            | Some (w, _) => w
            | None => mounted 0
            end)
           (replicate 7 (PrimaryTested 2) ++ [OnReady 2 (VNum 30)])).
  - apply headline_reachable.
  - vm_compute. reflexivity.
  - apply list_elem_of_singleton. reflexivity.
  - vm_compute. reflexivity.
Defined.

Lemma engine_never_nests_whilst_witness :
  exists w' out,
    run (overflows_above 30) never_overflows
      [Request headline box; Unmount; Tick; Request paragraph box; Tick; Tick]
      (headline_after 3)
    = Some (w', out).
Proof.
  apply (engine_never_nests_whilst (overflows_above 30) never_overflows
           [Request headline box; Unmount; Tick; Request paragraph box; Tick; Tick]
           (headline_after 3)).
  apply headline_reachable.
Defined.

Lemma secondary_test_runs_unless_skipped_witness :
  exists k w' out z,
    run (overflows_above 6) never_overflows
      (Request paragraph (Some (VNum 200, VNum 50)) :: replicate k Tick) (mounted 0)
    = Some (w', out ++ [OnReady (S (idCounter (mounted 0))) (VNum z)])
    /\ PrimaryTested (S (idCounter (mounted 0))) ∈ out
    /\ (skips_secondary paragraph = false -> SecondaryTested (S (idCounter (mounted 0))) ∈ out).
Proof.
  apply (secondary_test_runs_unless_skipped (overflows_above 6) never_overflows paragraph
           (VNum 200) (VNum 50) 1 10 (mounted 0)).
  - apply reachable_mounted.
  - reflexivity.
  - reflexivity.
  - reflexivity.
  - reflexivity.
  - lia.
  - reflexivity.
Defined.

Lemma applied_sizes_stay_in_range_witness :
  exists z, fontSize (headline_after 4) = VNum z /\ 1 <= z <= 100.
Proof.
  apply (applied_sizes_stay_in_range (overflows_above 30) never_overflows headline
           (VNum 200) (VNum 50) 1 100 (mounted 0) 2 (headline_after 4)
           (replicate 3 (PrimaryTested 1))).
  - apply reachable_mounted.
  - reflexivity.
  - reflexivity.
  - reflexivity.
  - reflexivity.
  - lia.
  - reflexivity.
  - vm_compute. reflexivity.
Defined.

Lemma engine_warns_only_on_rejection_witness :
  exists p ow oh,
    Request headline (Some (VNum 200, VNum 0)) = Request p (Some (ow, oh))
    /\ (js_le oh (VNum 0) || isNaN oh) || (js_le ow (VNum 0) || isNaN ow) = true
    /\ headline_after 3 = headline_after 3 /\ [Warn warn_height] = [Warn warn_height].
Proof.
  apply (engine_warns_only_on_rejection (overflows_above 30) never_overflows
           (headline_after 3) (Request headline (Some (VNum 200, VNum 0)))
           (headline_after 3) [Warn warn_height] warn_height).
  - apply headline_reachable.
  - reflexivity.
  - apply list_elem_of_singleton. reflexivity.
Defined.

(** ** The wrapper when it is measured *)

Section inline.
Import Lifecycle.
Variable scrollWidth scrollHeight : value -> Z.

Ltac shape_leaf :=
  cbn [mbind option_bind]; exec;
  eexists; split; [reflexivity|];
  cbv beta iota zeta delta [world env queue pid];
  first [ left; reflexivity
        | right; eexists; split; [reflexivity|]; split; [exact I|reflexivity] ].

(** The job a callback leaves with the host has the update that goes with
    its callback. *)
Lemma resume_shape k c :
  k <> KReady -> kont_ok k (env c) -> isSync (getSt c) = false ->
  exists c',
    resume scrollWidth scrollHeight k c = Some c'
    /\ (queue (world c') = queue (world c)
        \/ exists j, queue (world c') = queue (world c) ++ [j]
                     /\ job_shape j /\ job_pid j = Some (pid (env c))).
Proof.
  intros Hk [Hn Hok] Hs. destruct c as [w [p pr ow oh lo hi mi [rs cur sy]] o].
  cbn in Hs. subst sy.
  destruct k; [| | |done]; cbn in Hok; destruct_and?; subst.
  - exec. repeat split_if; shape_leaf.
  - exec. repeat split_if; shape_leaf.
  - exec. repeat split_if; shape_leaf.
Qed.

Lemma series_shape w l o :
  pid l = this_pid w -> seriesSt l = mkSeriesSt [] 0 true ->
  exists c',
    series getSt setSt (tasks scrollWidth scrollHeight) (Some finish) setTimeout_end
      (mkCtx w l o) = Some c'
    /\ exists j, queue (world c') = queue w ++ [j]
                 /\ job_shape j /\ job_pid j = Some (pid l).
Proof.
  intros Hp Hst. destruct l as [p pr ow oh lo hi mi st].
  destruct w as [tp idc fs rd qu cl]. cbn in *. subst.
  unfold series. exec. rewrite Nat.eqb_refl. cbn [negb].
  repeat split_if; cbn [mbind option_bind]; exec;
    (eexists; split; [reflexivity|]);
    cbv beta iota zeta delta [world env queue pid];
    eexists; (split; [reflexivity|]); (split; [exact I|reflexivity]).
Qed.

Lemma inline_ok_shape tp js : forall rd, inline_ok tp rd js -> Forall job_shape js.
Proof.
  induction js as [|j js IH]; intros rd; [constructor|].
  intros (Hj & _ & Htail). constructor; [done|]. by eapply IH.
Qed.

(** A queue without a job of the run [tp] serves it well whatever stands
    behind. *)
Lemma inline_ok_fresh tp js : forall rd js2,
  Forall job_shape js ->
  (forall j, j ∈ js -> job_pid j <> Some tp) ->
  inline_ok tp (fold_left ready_with js rd) js2 ->
  inline_ok tp rd (js ++ js2).
Proof.
  induction js as [|j js IH]; intros rd js2 Hshape Hfresh Hrest; [done|].
  apply Forall_cons in Hshape as [Hj Hshape]. cbn. split; [done|]. split.
  - intros u k ->. exfalso. apply (Hfresh (SetState u (Some (tp, k)))); [by left|done].
  - apply IH; [done| |done]. intros j' Hj'. apply Hfresh. by right.
Qed.

Lemma inv_fresh_jobs w p :
  inv w -> (idCounter w < p)%nat -> forall j, j ∈ queue w -> job_pid j <> Some p.
Proof.
  intros [_ _ Hfresh _] Hlt j Hj Heq.
  assert (p ∈ omap job_pid (queue w)) as Hin by (apply list_elem_of_omap; eauto).
  apply Hfresh in Hin. lia.
Qed.

Lemma process_inline p refs w :
  inv w -> measures_inline w ->
  forall w' evs,
    process scrollWidth scrollHeight p refs w = Some (w', evs) -> measures_inline w'.
Proof.
  intros Hinv Hin w' evs. unfold process.
  destruct refs as [[ow oh]|]; [|by intros [= <- <-]].
  destruct (js_le oh (VNum 0) || isNaN oh); [by intros [= <- <-]|].
  destruct (js_le ow (VNum 0) || isNaN ow); [by intros [= <- <-]|].
  cbn [uniqueId]. unfold setState. cbn [fmap option_fmap option_map env world out].
  set (l := mkLocals _ _ _ _ _ _ _ _). set (w1 := enqueue _ _).
  destruct (series_returns scrollWidth scrollHeight w1 l [])
    as (c' & Hs & (_ & _ & _ & _ & (Htp & _ & _ & Hrd & _) & _) & _); try done.
  destruct (series_shape w1 l []) as (c'' & Hs' & j & Hq & Hj & Hpid); try done.
  rewrite Hs in Hs'. injection Hs' as <-. rewrite Hs. cbn [mbind option_bind].
  intros [= <- <-]. unfold measures_inline, suspend. cbn [this_pid ready queue].
  rewrite Htp, Hrd, Hq. cbn. rewrite <- app_assoc.
  apply inline_ok_fresh.
  - by eapply inline_ok_shape.
  - apply inv_fresh_jobs; [done|lia].
  - cbn. split; [done|]. split; [by intros u k [=]|]. split; [done|]. split; [|done].
    intros u k _. done.
Qed.

Lemma ready_with_update u k w :
  ready (apply_update u w) = ready_with (ready w) (SetState u k).
Proof. by destruct u. Qed.

Lemma tick_inline w j js :
  inv w -> measures_inline w -> queue w = j :: js ->
  forall w' out,
    step scrollWidth scrollHeight Tick w = Some (w', out) ->
    measures_inline w'
    /\ (forall q, PrimaryTested q ∈ out \/ SecondaryTested q ∈ out -> ready w' = false).
Proof.
  intros [Hjobs _ _ _] Hin Hqueue w' out. unfold measures_inline in Hin.
  rewrite Hqueue in Hjobs, Hin. destruct Hin as (Hshape & Hhead & Htail).
  apply Forall_cons in Hjobs as [Hj _].
  cbn [step]. rewrite Hqueue.
  set (w0 := mkWorld _ _ _ _ js _).
  destruct j as [u [[q k]|]|q e]; cbn [fire]; [| |done].
  - destruct (apply_update_keeps u w0) as (Htp & Hid & Hq & Hclos).
    pose proof (ready_with_update u (Some (q, k)) w0) as Hrd. cbn [ready w0] in Hrd.
    cbn in Hj. destruct Hj as (l & Hl & Hpid & Hsync & Hk).
    rewrite Hclos. cbn [closures w0]. rewrite Hl.
    set (c := mkCtx _ l []).
    destruct (decide (k = KReady)) as [-> | Hne].
    + rewrite resume_ready. cbn [mbind option_bind]. intros [= <- <-].
      unfold measures_inline, suspend. cbn [this_pid ready queue world emit fst].
      rewrite Htp, Hq, Hrd. split; [done|].
      intros q' [Hin|Hin]; apply list_elem_of_singleton in Hin; done.
    + destruct (resume_returns scrollWidth scrollHeight k c)
        as (c' & Hres & (Hpid' & _ & _ & _ & (Htp' & _ & _ & Hrd' & _) & _) & _); try done.
      cbn in Hpid', Htp', Hrd'.
      destruct (decide (q = this_pid w)) as [-> | Hstale].
      * destruct (resume_shape k c) as (c'' & Hres' & Hnew); try done.
        rewrite Hres in Hres'. injection Hres' as <-.
        destruct (Hhead u k eq_refl) as [-> Hfalse]. specialize (Hfalse Hne).
        assert (ready (world c') = false) as Hoff.
        { rewrite Hrd', Hrd. destruct u as [v|b]; [exact Hfalse|]. destruct b, k; done. }
        rewrite Hres. cbn [mbind option_bind]. intros [= <- <-].
        unfold measures_inline, suspend. cbn [this_pid ready queue fst].
        split; [|done]. rewrite Htp', Htp, Hoff. cbn in Hnew. rewrite Hq in Hnew. cbn in Hnew.
        destruct Hnew as [-> | (j' & -> & Hj' & _)]; [done|].
        cbn. split; [done|]. split; [|done]. intros u' k' _. done.
      * destruct (stale_callback_aborts scrollWidth scrollHeight k c)
          as (c'' & Hres' & Hworld & Hout); try done.
        { unfold shouldCancelProcess. cbn. rewrite Htp, Hpid.
          by apply negb_true_iff, Nat.eqb_neq. }
        rewrite Hres in Hres'. injection Hres' as <-.
        rewrite Hres. cbn [mbind option_bind]. intros [= <- <-].
        unfold measures_inline, suspend. cbn [this_pid ready queue fst snd].
        rewrite Hworld, Hout. cbn [world c]. rewrite Htp, Hq, Hrd. split; [done|].
        intros q' [Hin|Hin]; by apply elem_of_nil in Hin.
  - destruct (apply_update_keeps u w0) as (Htp & Hid & Hq & Hclos).
    pose proof (ready_with_update u None w0) as Hrd. cbn [ready w0] in Hrd.
    intros [= <- <-]. unfold measures_inline. rewrite Htp, Hq, Hrd. split; [done|].
    intros q' [Hin|Hin]; by apply elem_of_nil in Hin.
Qed.

Lemma reachable_inline w :
  reachable scrollWidth scrollHeight w -> measures_inline w.
Proof.
  induction 1 as [counter|w ev w' out Hreach IH Hstep]; [done|].
  pose proof (reachable_inv _ _ _ Hreach) as Hinv.
  destruct ev as [p refs| |]; cbn [step] in Hstep.
  - by eapply process_inline.
  - destruct (queue w) as [|j js] eqn:Hq; [by simplify_eq|].
    assert (step scrollWidth scrollHeight Tick w = Some (w', out)) as Hstep'
      by (cbn [step]; by rewrite Hq).
    by destruct (tick_inline w j js Hinv IH Hq w' out Hstep').
  - simplify_eq. unfold measures_inline. cbn.
    rewrite <- (app_nil_r (queue w)).
    apply inline_ok_fresh; [by eapply inline_ok_shape| |done].
    apply inv_fresh_jobs; [done|lia].
Qed.

(** X17: a fit test made in a turn of the host measures a wrapper that is
    displayed [inline-block].  Whatever the host has done before, when a
    callback makes a fit test, [ready] is false in the state it runs on, so
    [render] has given the wrapper [display: inline-block]: no update
    [ready: true] of an earlier run stands between the [ready: false] of the
    current run and its tests. *)
Theorem fit_tests_measure_an_inline_wrapper w w' out q p :
  reachable scrollWidth scrollHeight w ->
  step scrollWidth scrollHeight Tick w = Some (w', out) ->
  PrimaryTested q ∈ out \/ SecondaryTested q ∈ out ->
  ready w' = false /\ wrapper_display (render p w') = inline_block.
Proof.
  intros Hreach Hstep Hin.
  pose proof (reachable_inv _ _ _ Hreach) as Hinv.
  pose proof (reachable_inline w Hreach) as Hinline.
  destruct (queue w) as [|j js] eqn:Hq.
  { cbn [step] in Hstep. rewrite Hq in Hstep. simplify_eq.
    destruct Hin as [Hin|Hin]; by apply elem_of_nil in Hin. }
  destruct (tick_inline w j js Hinv Hinline Hq w' out Hstep) as [_ Hoff].
  assert (ready w' = false) as Hrd by (by eapply Hoff).
  split; [done|]. unfold render. cbn. by rewrite Hrd.
Qed.

End inline.

Lemma fit_tests_measure_an_inline_wrapper_witness :
  ready (headline_after 4) = false
  /\ Lifecycle.wrapper_display (Lifecycle.render headline (headline_after 4))
     = Lifecycle.inline_block.
Proof.
  apply (fit_tests_measure_an_inline_wrapper (overflows_above 30) never_overflows
           (headline_after 3) (headline_after 4) [PrimaryTested 1%nat] 1%nat headline).
  - apply headline_reachable.
  - vm_compute. reflexivity.
  - left. apply list_elem_of_singleton. reflexivity.
Defined.

(** ** The commits of a fit *)

Section commit.
Import Lifecycle.
Variable scrollWidth scrollHeight : value -> Z.

Lemma off_app js : forall rd js2,
  off_until_ready rd js ->
  off_until_ready (fold_left ready_with js rd) js2 ->
  off_until_ready rd (js ++ js2).
Proof.
  induction js as [|j js IH]; intros rd js2 Hjs Hrest; [done|].
  destruct Hjs as [Hj Hjs]. cbn. split; [done|]. by apply IH.
Qed.

Lemma off_one j : job_shape j -> off_until_ready false [j].
Proof. destruct j as [[v|b] k|q e]; cbn; auto. Qed.

(** A request that is taken up leaves [ready: false] and then the first
    job of its run. *)
Lemma process_off p refs w :
  off_until_ready (ready w) (queue w) ->
  forall w' evs,
    process scrollWidth scrollHeight p refs w = Some (w', evs) ->
    off_until_ready (ready w') (queue w').
Proof.
  intros Hoff w' evs. unfold process.
  destruct refs as [[ow oh]|]; [|by intros [= <- <-]].
  destruct (js_le oh (VNum 0) || isNaN oh); [by intros [= <- <-]|].
  destruct (js_le ow (VNum 0) || isNaN ow); [by intros [= <- <-]|].
  cbn [uniqueId]. unfold setState. cbn [fmap option_fmap option_map env world out].
  set (l := mkLocals _ _ _ _ _ _ _ _). set (w1 := enqueue _ _).
  destruct (series_returns scrollWidth scrollHeight w1 l [])
    as (c' & Hs & (_ & _ & _ & _ & (_ & _ & _ & Hrd & _) & _) & _); try done.
  destruct (series_shape scrollWidth scrollHeight w1 l []) as (c'' & Hs' & j & Hq & Hj & _);
    try done.
  rewrite Hs in Hs'. injection Hs' as <-. rewrite Hs. cbn [mbind option_bind].
  intros [= <- <-]. unfold suspend. cbn [ready queue].
  rewrite Hrd, Hq. cbn. rewrite <- app_assoc.
  apply off_app; [done|]. cbn. split; [done|]. by apply off_one.
Qed.

(** A turn of the host keeps it so: the callback of the current run leaves
    its next job while [ready] is false, and no other callback leaves one. *)
Lemma tick_off w j js :
  inv w -> measures_inline w -> off_until_ready (ready w) (queue w) ->
  queue w = j :: js ->
  forall w' out,
    step scrollWidth scrollHeight Tick w = Some (w', out) ->
    off_until_ready (ready w') (queue w').
Proof.
  intros [Hjobs _ _ _] Hin Hoff Hqueue w' out. unfold measures_inline in Hin.
  rewrite Hqueue in Hjobs, Hin, Hoff. destruct Hin as (Hshape & Hhead & _).
  destruct Hoff as [_ Htail].
  apply Forall_cons in Hjobs as [Hj _].
  cbn [step]. rewrite Hqueue.
  set (w0 := mkWorld _ _ _ _ js _).
  destruct j as [u [[q k]|]|q e]; cbn [fire]; [| |done].
  - destruct (apply_update_keeps u w0) as (Htp & Hid & Hq & Hclos).
    pose proof (ready_with_update u (Some (q, k)) w0) as Hrd. cbn [ready w0] in Hrd.
    cbn in Hj. destruct Hj as (l & Hl & Hpid & Hsync & Hk).
    rewrite Hclos. cbn [closures w0]. rewrite Hl.
    set (c := mkCtx _ l []).
    destruct (decide (k = KReady)) as [-> | Hne].
    + rewrite resume_ready. cbn [mbind option_bind]. intros [= <- <-].
      unfold suspend. cbn [ready queue world emit fst]. by rewrite Hq, Hrd.
    + destruct (resume_returns scrollWidth scrollHeight k c)
        as (c' & Hres & (Hpid' & _ & _ & _ & (Htp' & _ & _ & Hrd' & _) & _) & _); try done.
      cbn in Hpid', Htp', Hrd'.
      destruct (decide (q = this_pid w)) as [-> | Hstale].
      * destruct (resume_shape scrollWidth scrollHeight k c) as (c'' & Hres' & Hnew); try done.
        rewrite Hres in Hres'. injection Hres' as <-.
        destruct (Hhead u k eq_refl) as [-> Hfalse]. specialize (Hfalse Hne).
        assert (ready (world c') = false) as Hoff.
        { rewrite Hrd', Hrd. destruct u as [v|b]; [exact Hfalse|]. destruct b, k; done. }
        rewrite Hres. cbn [mbind option_bind]. intros [= <- <-].
        unfold suspend. cbn [ready queue fst].
        rewrite Hoff. cbn in Hnew. rewrite Hq in Hnew. cbn in Hnew.
        destruct Hnew as [-> | (j' & -> & Hj' & _)]; [done|]. by apply off_one.
      * destruct (stale_callback_aborts scrollWidth scrollHeight k c)
          as (c'' & Hres' & Hworld & Hout); try done.
        { unfold shouldCancelProcess. cbn. rewrite Htp, Hpid.
          by apply negb_true_iff, Nat.eqb_neq. }
        rewrite Hres in Hres'. injection Hres' as <-.
        rewrite Hres. cbn [mbind option_bind]. intros [= <- <-].
        unfold suspend. cbn [ready queue fst snd].
        rewrite Hworld. cbn [world c]. by rewrite Hq, Hrd.
  - destruct (apply_update_keeps u w0) as (Htp & Hid & Hq & Hclos).
    pose proof (ready_with_update u None w0) as Hrd. cbn [ready w0] in Hrd.
    intros [= <- <-]. by rewrite Hq, Hrd.
Qed.

Lemma reachable_off w :
  reachable scrollWidth scrollHeight w -> off_until_ready (ready w) (queue w).
Proof.
  induction 1 as [counter|w ev w' out Hreach IH Hstep]; [done|].
  pose proof (reachable_inv _ _ _ Hreach) as Hinv.
  pose proof (reachable_inline _ _ _ Hreach) as Hinline.
  destruct ev as [p refs| |]; cbn [step] in Hstep.
  - by eapply process_off.
  - case_eq (queue w); [intros Hq|intros j js Hq]; rewrite Hq in Hstep.
    { by simplify_eq. }
    assert (step scrollWidth scrollHeight Tick w = Some (w', out)) as Hstep'
      by (cbn [step]; by rewrite Hq).
    by eapply (tick_off w j js).
  - by simplify_eq.
Qed.

(** [ready] in a commit is what the updates of its jobs make of it. *)
Lemma ready_committed js : forall w,
  ready (fold_left update_of js w) = fold_left ready_with js (ready w).
Proof.
  induction js as [|j js IH]; intros w; [done|].
  cbn [fold_left]. rewrite IH. f_equal. destruct j as [[v|b] k|q e]; done.
Qed.

Lemma stays_off js :
  (forall k, SetState (Ready true) k ∉ js) -> fold_left ready_with js false = false.
Proof.
  induction js as [|j js IH]; intros Hnone; [done|].
  assert (ready_with false j = false) as Hj.
  { destruct j as [[v|[|]] k|q e]; try done. exfalso. apply (Hnone k). by left. }
  cbn [fold_left]. rewrite Hj. apply IH. intros k Hin. apply (Hnone k). by right.
Qed.

Lemma off_prefix rd j js :
  off_until_ready rd (j :: js) ->
  (forall k, SetState (Ready true) k ∉ j :: js) ->
  fold_left ready_with (j :: js) rd = false.
Proof.
  intros [Hj _] Hnone.
  assert (ready_with rd j = false) as Hoff.
  { destruct j as [[v|[|]] k|q e]; try done. exfalso. apply (Hnone k). by left. }
  cbn [fold_left]. rewrite Hoff. apply stays_off.
  intros k Hin. apply (Hnone k). by right.
Qed.

Lemma off_take n : forall js rd,
  off_until_ready rd js -> off_until_ready rd (take n js).
Proof.
  induction n as [|n IH]; intros js rd Hoff; [done|].
  destruct js as [|j js]; [done|]. destruct Hoff as [Hj Hoff]. cbn. split; [done|].
  by apply IH.
Qed.

(** X16: an update of the component that comes before the end of a fit
    does not start another fit.  React calls [componentDidUpdate] in a
    commit: the updates of one or more jobs of the queue are applied, their
    callbacks are not yet called.  Whatever the host has done before, in a
    commit that does not apply [ready: true], [ready] is false in the state
    [componentDidUpdate] finds, so that it returns without calling [process]
    whether the props have changed or not: the font size of a candidate is
    never committed under [ready: true].  Among the commits of queued
    updates, only one that applies [ready: true] can act upon a change of
    props. *)
Theorem updates_during_a_fit_are_ignored w n same p refs :
  reachable scrollWidth scrollHeight w ->
  (0 < n)%nat -> queue w <> [] ->
  (forall k, SetState (Ready true) k ∉ take n (queue w)) ->
  ready (committed n w) = false
  /\ componentDidUpdate scrollWidth scrollHeight same p refs (committed n w)
     = Some (committed n w, []).
Proof.
  intros Hreach Hn Hqueue Hnone.
  assert (ready (committed n w) = false) as Hoff.
  { unfold committed. rewrite ready_committed.
    pose proof (off_take n _ _ (reachable_off w Hreach)) as Htake.
    destruct n as [|n]; [lia|]. destruct (queue w) as [|j js]; [done|].
    by apply off_prefix. }
  split; [done|]. unfold componentDidUpdate. by rewrite Hoff.
Qed.

End commit.

Lemma updates_during_a_fit_are_ignored_witness :
  ready (Lifecycle.committed 2 (headline_after 0)) = false
  /\ Lifecycle.componentDidUpdate (overflows_above 30) never_overflows false paragraph box
       (Lifecycle.committed 2 (headline_after 0))
     = Some (Lifecycle.committed 2 (headline_after 0), []).
Proof.
  apply (updates_during_a_fit_are_ignored (overflows_above 30) never_overflows
           (headline_after 0) 2 false paragraph box).
  - apply headline_reachable.
  - lia.
  - vm_compute. discriminate.
  - assert (take 2 (queue (headline_after 0))
            = [SetState (Ready false) None;
               SetState (FontSize (VNum 50)) (Some (1%nat, KPrimary))]) as Hq
      by (vm_compute; reflexivity).
    rewrite Hq. clear Hq. intros k Hin.
    repeat (apply elem_of_cons in Hin as [Hin|Hin]; [discriminate|]).
    by apply elem_of_nil in Hin.
Defined.

End TextfitFacts.
